(** * TO-DO-List-Bot: sliding-window rate limiter and recurring tasks

    A shallow embedding of [rate_limiter.py] (class [RateLimiter], the
    persistence helpers [_save_state] / [_load_state], the [rate_limit]
    decorator, the admin commands and [sanitize_input]) and of the
    recurrence code and the tag helpers of [Reservation.py]
    ([calculate_next_deadline], [recurring_task_loop], [parse_tags],
    [format_tags]), followed by the properties proved about them.

    Conventions.
    - [time.time()] is read by the Python methods themselves; here the
      reading is an explicit argument [now].  Timestamps are whole unix
      seconds ([Z]), the unit of the persisted layout.  Where the
      fraction of a second shows, in the message of the [rate_limit]
      wrapper, the reading is a rational number of seconds ([Q]) and
      the float arithmetic on it is read as exact.
    - A Python [dict] / [defaultdict] keyed by user id is a [gmap string _];
      a [deque] is a [list] whose head is the left end.
    - Python [int] counters and limits are unbounded: [Z]. *)

From Stdlib Require Import ZArith Lia Ascii Sorted QArith Qround Lqa.
From stdpp Require Import gmap strings list fin_maps.

Local Open Scope Z_scope.
Set Warnings "-register-all,-clear-no-such-hyp".

(** ** rate_limiter.py : the [RateLimiter] object *)

Record PerformanceStats := mkStats {
  total_requests : Z;
  blocked_requests : Z;
  cleanup_runs : Z
}.

Record RateLimiter := mkRateLimiter {
  user_commands : gmap string (list Z);
  user_tasks_created : gmap string (list Z);
  blocked_users : gmap string Z;
  commands_per_minute : Z;
  tasks_per_hour : Z;
  block_duration : Z;
  performance_stats : PerformanceStats
}.

(** [RateLimiter.__init__] *)
Definition RateLimiter_init : RateLimiter :=
  {| user_commands := ∅;
     user_tasks_created := ∅;
     blocked_users := ∅;
     commands_per_minute := 30;
     tasks_per_hour := 100;
     block_duration := 300;
     performance_stats := mkStats 0 0 0 |}.

(** Field updates (Python attribute assignment). *)
Definition set_user_commands (m : gmap string (list Z)) (st : RateLimiter) :=
  mkRateLimiter m (user_tasks_created st) (blocked_users st)
    (commands_per_minute st) (tasks_per_hour st) (block_duration st)
    (performance_stats st).

Definition set_user_tasks_created (m : gmap string (list Z)) (st : RateLimiter) :=
  mkRateLimiter (user_commands st) m (blocked_users st)
    (commands_per_minute st) (tasks_per_hour st) (block_duration st)
    (performance_stats st).

Definition set_blocked_users (m : gmap string Z) (st : RateLimiter) :=
  mkRateLimiter (user_commands st) (user_tasks_created st) m
    (commands_per_minute st) (tasks_per_hour st) (block_duration st)
    (performance_stats st).

Definition set_performance_stats (p : PerformanceStats) (st : RateLimiter) :=
  mkRateLimiter (user_commands st) (user_tasks_created st) (blocked_users st)
    (commands_per_minute st) (tasks_per_hour st) (block_duration st) p.

Definition set_commands_per_minute (v : Z) (st : RateLimiter) :=
  mkRateLimiter (user_commands st) (user_tasks_created st) (blocked_users st)
    v (tasks_per_hour st) (block_duration st) (performance_stats st).

Definition set_tasks_per_hour (v : Z) (st : RateLimiter) :=
  mkRateLimiter (user_commands st) (user_tasks_created st) (blocked_users st)
    (commands_per_minute st) v (block_duration st) (performance_stats st).

Definition set_block_duration (v : Z) (st : RateLimiter) :=
  mkRateLimiter (user_commands st) (user_tasks_created st) (blocked_users st)
    (commands_per_minute st) (tasks_per_hour st) v (performance_stats st).

Definition incr_total_requests (st : RateLimiter) : RateLimiter :=
  let p := performance_stats st in
  set_performance_stats
    (mkStats (total_requests p + 1) (blocked_requests p) (cleanup_runs p)) st.

Definition incr_blocked_requests (st : RateLimiter) : RateLimiter :=
  let p := performance_stats st in
  set_performance_stats
    (mkStats (total_requests p) (blocked_requests p + 1) (cleanup_runs p)) st.

Definition incr_cleanup_runs (st : RateLimiter) : RateLimiter :=
  let p := performance_stats st in
  set_performance_stats
    (mkStats (total_requests p) (blocked_requests p) (cleanup_runs p + 1)) st.

(** [while queue and queue[0] < cutoff: queue.popleft()] *)
Fixpoint evict (cutoff : Z) (queue : list Z) : list Z :=
  match queue with
  | [] => []
  | t :: rest => if t <? cutoff then evict cutoff rest else queue
  end.

(** [defaultdict(deque).__getitem__]: a missing key reads as the empty
    deque (and is inserted; the insertion is the [<[user_id:=_]>] that
    every path through a window branch below performs). *)
Definition window (m : gmap string (list Z)) (user_id : string) : list Z :=
  default [] (m !! user_id).

(** The first block of [is_rate_limited]: the check of [blocked_users].
    [inl st'] is the early [return True]; [inr st'] falls through. *)
Definition check_block (now : Z) (user_id : string) (st : RateLimiter)
  : RateLimiter + RateLimiter :=
  match blocked_users st !! user_id with
  | Some until =>
      if now <? until then inl (incr_blocked_requests st)
      else inr (set_blocked_users (delete user_id (blocked_users st)) st)
  | None => inr st
  end.

(** [RateLimiter.is_rate_limited(user_id, command_type)], with the clock
    reading [now].  Returns the Python result ([true] = rate limited)
    and the state after the call. *)
Definition is_rate_limited (now : Z) (user_id : string) (command_type : string)
    (st : RateLimiter) : bool * RateLimiter :=
  let st := incr_total_requests st in
  match check_block now user_id st with
  | inl st => (true, st)
  | inr st =>
      if String.eqb command_type "command" then
        let queue := evict (now - 60) (window (user_commands st) user_id) in
        if Z.of_nat (length queue) >=? commands_per_minute st then
          (true,
           incr_blocked_requests
             (set_blocked_users
                (<[user_id := now + block_duration st]> (blocked_users st))
                (set_user_commands (<[user_id := queue]> (user_commands st)) st)))
        else
          (false,
           set_user_commands
             (<[user_id := queue ++ [now]]> (user_commands st)) st)
      else if String.eqb command_type "task" then
        let queue := evict (now - 3600) (window (user_tasks_created st) user_id) in
        if Z.of_nat (length queue) >=? tasks_per_hour st then
          (true,
           incr_blocked_requests
             (set_blocked_users
                (<[user_id := now + block_duration st]> (blocked_users st))
                (set_user_tasks_created
                   (<[user_id := queue]> (user_tasks_created st)) st)))
        else
          (false,
           set_user_tasks_created
             (<[user_id := queue ++ [now]]> (user_tasks_created st)) st)
      else (false, st)
  end.

(** [RateLimiter.get_remaining_time(user_id)] *)
Definition get_remaining_time (now : Z) (user_id : string) (st : RateLimiter) : Z :=
  match blocked_users st !! user_id with
  | Some until => Z.max 0 (until - now)
  | None => 0
  end.

(** One pass of a [for uid in list(m.keys())] loop of
    [cleanup_old_entries] over a window map: trim the deque of [uid] and
    delete the key when nothing is left. *)
Definition cleanup_key (cutoff : Z) (uid : string) (m : gmap string (list Z))
  : gmap string (list Z) :=
  match m !! uid with
  | Some q =>
      match evict cutoff q with
      | [] => delete uid m
      | q' => <[uid := q']> m
      end
  | None => m
  end.

Definition keys {V} (m : gmap string V) : list string := (map_to_list m).*1.

Definition cleanup_windows (cutoff : Z) (m : gmap string (list Z))
  : gmap string (list Z) :=
  foldl (fun acc uid => cleanup_key cutoff uid acc) m (keys m).

(** The third loop: [if now >= self.blocked_users[uid]: del ...]. *)
Definition cleanup_block_key (now : Z) (uid : string) (m : gmap string Z)
  : gmap string Z :=
  match m !! uid with
  | Some until => if now >=? until then delete uid m else m
  | None => m
  end.

Definition cleanup_blocks (now : Z) (m : gmap string Z) : gmap string Z :=
  foldl (fun acc uid => cleanup_block_key now uid acc) m (keys m).

(** [RateLimiter.cleanup_old_entries()]; the [entries_cleaned] count
    is only written to the log. *)
Definition cleanup_old_entries (now : Z) (st : RateLimiter) : RateLimiter :=
  let st := set_user_commands (cleanup_windows (now - 60) (user_commands st)) st in
  let st := set_user_tasks_created
              (cleanup_windows (now - 3600) (user_tasks_created st)) st in
  let st := set_blocked_users (cleanup_blocks now (blocked_users st)) st in
  incr_cleanup_runs st.

(** [RateLimiter.get_stats()] *)
Record Stats := mkStatsView {
  stats_total_requests : Z;
  stats_blocked_requests : Z;
  stats_cleanup_runs : Z;
  active_users : nat;
  stats_blocked_users : nat;
  command_queues : nat;
  task_queues : nat
}.

Definition queue_total (m : gmap string (list Z)) : nat :=
  foldr (fun q n => (length q + n)%nat) 0%nat ((map_to_list m).*2).

Definition get_stats (st : RateLimiter) : Stats :=
  {| stats_total_requests := total_requests (performance_stats st);
     stats_blocked_requests := blocked_requests (performance_stats st);
     stats_cleanup_runs := cleanup_runs (performance_stats st);
     active_users := (size (user_commands st) + size (user_tasks_created st))%nat;
     stats_blocked_users := size (blocked_users st);
     command_queues := queue_total (user_commands st);
     task_queues := queue_total (user_tasks_created st) |}.

(** ** rate_limiter.py : persistence *)

(** What [json.load] returns and [json.dump] accepts.  Numbers are the
    integers of the persisted layout; an object keeps its members in
    file order, as a Python [dict] does, and like a [dict] it is meant
    with pairwise distinct keys. *)
Inductive json :=
  | JNull
  | JBool (b : bool)
  | JNum (z : Z)
  | JStr (s : string)
  | JArr (items : list json)
  | JObj (members : list (string * json)).

(** What [_load_state] finds at [path]: nothing ([os.path.exists] is
    false), a file on which [_read_json] raises, or a document. *)
Inductive snapshot_file :=
  | Missing
  | Unreadable
  | Document (data : json).

Inductive log_event :=
  | InfoStateSaved
  | ErrorSaveFailed
  | InfoNoStateFile
  | InfoStateLoaded
  | ErrorLoadFailed.

(** [dict.get(key, default)] on the members of an object. *)
Fixpoint members_get (key : string) (members : list (string * json)) : option json :=
  match members with
  | [] => None
  | (k, v) :: rest => if String.eqb k key then Some v else members_get key rest
  end.

(** The body of a [try:] block that mutates the limiter: it finishes
    ([Ok]), raises with the mutations made so far kept ([Raise]), or
    leaves the typed model ([Untyped]): Python goes on with a value that
    is not a whole number where the limiter keeps timestamps, limits
    and counters, which the records above cannot hold. *)
Inductive result (A : Type) :=
  | Ok (a : A) (st : RateLimiter)
  | Raise (st : RateLimiter)
  | Untyped.
Arguments Ok {A} a st.
Arguments Raise {A} st.
Arguments Untyped {A}.

Definition M (A : Type) : Type := RateLimiter → result A.

#[global] Instance M_ret : MRet M := fun A a st => Ok a st.
#[global] Instance M_bind : MBind M := fun A B k m st =>
  match m st with
  | Ok a st' => k a st'
  | Raise st' => Raise st'
  | Untyped => Untyped
  end.

Definition ret {A} (a : A) : M A := mret a.
Definition raise {A} : M A := fun st => Raise st.
Definition untyped {A} : M A := fun _ => Untyped.
Definition modify (f : RateLimiter → RateLimiter) : M unit := fun st => Ok tt (f st).
Definition gets {A} (f : RateLimiter → A) : M A := fun st => Ok (f st) st.

(** [data.get(key, {})], then an attribute that only [dict] has
    ([.items()], [.get]): the members of the object, [AttributeError]
    on anything else.  [data] itself must be a [dict] for [data.get]. *)
Definition get_dict (data : json) (key : string) : M (list (string * json)) :=
  match data with
  | JObj members =>
      match members_get key members with
      | None => ret []
      | Some (JObj d) => ret d
      | Some _ => raise
      end
  | _ => raise
  end.

(** [deque(lst)]: the items of a list of numbers; [TypeError] on a value
    that is not iterable; other iterables are stored as they are. *)
Fixpoint as_numbers (items : list json) : option (list Z) :=
  match items with
  | [] => Some []
  | JNum z :: rest => cons z <$> as_numbers rest
  | _ :: _ => None
  end.

Definition to_deque (lst : json) : M (list Z) :=
  match lst with
  | JArr items =>
      match as_numbers items with
      | Some q => ret q
      | None => untyped
      end
  | JStr s => if String.eqb s "" then ret [] else untyped
  | JObj members => match members with [] => ret [] | _ => untyped end
  | JNull | JBool _ | JNum _ => raise
  end.

Definition as_number (v : json) : M Z :=
  match v with
  | JNum z => ret z
  | _ => untyped
  end.

(** [for uid, lst in d.items(): target[uid] = deque(lst)] *)
Fixpoint load_windows
    (store : string → list Z → RateLimiter → RateLimiter)
    (d : list (string * json)) : M unit :=
  match d with
  | [] => ret tt
  | (uid, lst) :: rest =>
      (q ← to_deque lst;
       modify (store uid q);;
       load_windows store rest)
  end.

(** [{k: v for k, v in d.items()}] *)
Fixpoint copy_blocked (d : list (string * json)) : M (gmap string Z) :=
  match d with
  | [] => ret ∅
  | (k, v) :: rest =>
      (until ← as_number v;
       m ← copy_blocked rest;
       ret (match m !! k with Some _ => m | None => <[k := until]> m end))
  end.

(** [performance_stats.update(d)] for an object [d]. *)
Definition update_stat (key : string) (v : Z) (p : PerformanceStats)
  : option PerformanceStats :=
  if String.eqb key "total_requests" then
    Some (mkStats v (blocked_requests p) (cleanup_runs p))
  else if String.eqb key "blocked_requests" then
    Some (mkStats (total_requests p) v (cleanup_runs p))
  else if String.eqb key "cleanup_runs" then
    Some (mkStats (total_requests p) (blocked_requests p) v)
  else None.

Fixpoint update_stats (d : list (string * json)) : M unit :=
  match d with
  | [] => ret tt
  | (k, v) :: rest =>
      (z ← as_number v;
       p ← gets performance_stats;
       match update_stat k z p with
       | Some p' => modify (set_performance_stats p');; update_stats rest
       | None => untyped
       end)
  end.

(** [dict.update(x)] of the value stored under ["performance_stats"]:
    a [dict] is merged, [None] and numbers raise [TypeError], empty
    sequences change nothing, other sequences are left to Python. *)
Definition stats_update (data : json) : M unit :=
  match data with
  | JObj members =>
      match members_get "performance_stats" members with
      | None => ret tt
      | Some (JObj d) => update_stats d
      | Some (JArr []) => ret tt
      | Some (JArr (_ :: _)) => untyped
      | Some (JStr s) => if String.eqb s "" then ret tt else raise
      | Some JNull | Some (JBool _) | Some (JNum _) => raise
      end
  | _ => raise
  end.

(** [cfg.get(key, current)] *)
Definition cfg_get (cfg : list (string * json)) (key : string)
    (current : RateLimiter → Z) : M Z :=
  match members_get key cfg with
  | None => gets current
  | Some v => as_number v
  end.

(** The [data] dictionary built by [_save_state]. *)
Definition json_windows (m : gmap string (list Z)) : json :=
  JObj ((fun '(uid, q) => (uid, JArr (JNum <$> q))) <$> map_to_list m).

Definition json_blocked (m : gmap string Z) : json :=
  JObj ((fun '(uid, until) => (uid, JNum until)) <$> map_to_list m).

Definition json_stats (p : PerformanceStats) : json :=
  JObj [("total_requests", JNum (total_requests p));
        ("blocked_requests", JNum (blocked_requests p));
        ("cleanup_runs", JNum (cleanup_runs p))].

Definition save_data (st : RateLimiter) : json :=
  JObj [("user_commands", json_windows (user_commands st));
        ("user_tasks_created", json_windows (user_tasks_created st));
        ("blocked_users", json_blocked (blocked_users st));
        ("performance_stats", json_stats (performance_stats st));
        ("config",
         JObj [("commands_per_minute", JNum (commands_per_minute st));
               ("tasks_per_hour", JNum (tasks_per_hour st));
               ("block_duration", JNum (block_duration st))])].

(** [_save_state(path)]: [write_ok] says whether [_write_json] (write
    to [path.tmp], then [os.replace]) succeeds; when it raises, the
    committed file is the old one and the error is logged. *)
Definition _save_state (write_ok : bool) (file : snapshot_file) (st : RateLimiter)
  : snapshot_file * list log_event :=
  if write_ok then (Document (save_data st), [InfoStateSaved])
  else (file, [ErrorSaveFailed]).

(** The statements of [_load_state] inside [try:], after [_read_json]
    returned [data]. *)
Definition load_body (data : json) : M unit :=
  (modify (set_user_commands ∅);;
   modify (set_user_tasks_created ∅);;
   uc ← get_dict data "user_commands";
   load_windows (fun uid q st => set_user_commands (<[uid := q]> (user_commands st)) st) uc;;
   ut ← get_dict data "user_tasks_created";
   load_windows (fun uid q st =>
                   set_user_tasks_created (<[uid := q]> (user_tasks_created st)) st) ut;;
   bu ← get_dict data "blocked_users";
   blocked ← copy_blocked bu;
   modify (set_blocked_users blocked);;
   stats_update data;;
   cfg ← get_dict data "config";
   cpm ← cfg_get cfg "commands_per_minute" commands_per_minute;
   modify (set_commands_per_minute cpm);;
   tph ← cfg_get cfg "tasks_per_hour" tasks_per_hour;
   modify (set_tasks_per_hour tph);;
   bd ← cfg_get cfg "block_duration" block_duration;
   modify (set_block_duration bd)).

(** How a call ends: it returns, or an exception leaves it. *)
Inductive completion := Returns | Propagates.

(** [_load_state(path)]: everything after the existence test is inside
    [try: ... except Exception], whose handler logs.  The state
    component is [None] exactly when the load left the typed model
    (see [result]); the log is not followed there. *)
Definition _load_state (file : snapshot_file) (st : RateLimiter)
  : completion * option RateLimiter * list log_event :=
  match file with
  | Missing => (Returns, Some st, [InfoNoStateFile])
  | Unreadable => (Returns, Some st, [ErrorLoadFailed])
  | Document data =>
      match load_body data st with
      | Ok _ st' => (Returns, Some st', [InfoStateLoaded])
      | Raise st' => (Returns, Some st', [ErrorLoadFailed])
      | Untyped => (Returns, None, [])
      end
  end.

(** ** The [datetime] module used by Reservation.py

    CPython's [datetime] arithmetic (the algorithms of [_pydatetime]),
    as far as [calculate_next_deadline] and [recurring_task_loop] use
    it.  [divmod] is floor division: [Z.div] and [Z.modulo] with a
    positive divisor. *)

Definition MINYEAR : Z := 1.
Definition MAXYEAR : Z := 9999.
Definition _MAXORDINAL : Z := 3652059.
Definition _DI400Y : Z := 146097.
Definition _DI100Y : Z := 36524.
Definition _DI4Y : Z := 1461.

Definition _is_leap (year : Z) : bool :=
  (year mod 4 =? 0) && (negb (year mod 100 =? 0) || (year mod 400 =? 0)).

Definition _days_before_year (year : Z) : Z :=
  let y := year - 1 in y * 365 + y / 4 - y / 100 + y / 400.

Definition _DAYS_IN_MONTH (month : Z) : Z :=
  match month with
  | 1 => 31 | 2 => 28 | 3 => 31 | 4 => 30 | 5 => 31 | 6 => 30
  | 7 => 31 | 8 => 31 | 9 => 30 | 10 => 31 | 11 => 30 | 12 => 31
  | _ => -1
  end.

Definition _DAYS_BEFORE_MONTH (month : Z) : Z :=
  match month with
  | 1 => 0 | 2 => 31 | 3 => 59 | 4 => 90 | 5 => 120 | 6 => 151
  | 7 => 181 | 8 => 212 | 9 => 243 | 10 => 273 | 11 => 304 | 12 => 334
  | _ => -1
  end.

Definition _days_in_month (year month : Z) : Z :=
  if (month =? 2) && _is_leap year then 29 else _DAYS_IN_MONTH month.

Definition _days_before_month (year month : Z) : Z :=
  _DAYS_BEFORE_MONTH month + (if (month >? 2) && _is_leap year then 1 else 0).

Definition _ymd2ord (year month day : Z) : Z :=
  _days_before_year year + _days_before_month year month + day.

Definition _ord2ymd (n : Z) : Z * Z * Z :=
  let n := n - 1 in
  let n400 := n / _DI400Y in
  let n := n mod _DI400Y in
  let year := n400 * 400 + 1 in
  let n100 := n / _DI100Y in
  let n := n mod _DI100Y in
  let n4 := n / _DI4Y in
  let n := n mod _DI4Y in
  let n1 := n / 365 in
  let n := n mod 365 in
  let year := year + n100 * 100 + n4 * 4 + n1 in
  if (n1 =? 4) || (n100 =? 4) then (year - 1, 12, 31)
  else
    let leapyear := (n1 =? 3) && (negb (n4 =? 24) || (n100 =? 3)) in
    let month := Z.shiftr (n + 50) 5 in
    let preceding :=
      _DAYS_BEFORE_MONTH month + (if (month >? 2) && leapyear then 1 else 0) in
    if preceding >? n then
      let month := month - 1 in
      let preceding :=
        preceding
        - (_DAYS_IN_MONTH month + (if (month =? 2) && leapyear then 1 else 0)) in
      (year, month, n - preceding + 1)
    else (year, month, n - preceding + 1).

(** An aware [datetime]: the wall-clock fields and the UTC offset, in
    seconds, of its [tzinfo].  A pytz [tzinfo] attached by
    [astimezone] / [localize] has a fixed offset. *)
Record datetime := mkDatetime {
  year : Z;
  month : Z;
  day : Z;
  hour : Z;
  minute : Z;
  second : Z;
  microsecond : Z;
  utcoffset : Z
}.

(** The field checks of the [datetime] constructor; each failure is a
    [ValueError]. *)
Definition _check_date_fields (y m d : Z) : bool :=
  (MINYEAR <=? y) && (y <=? MAXYEAR) && (1 <=? m) && (m <=? 12)
  && (1 <=? d) && (d <=? _days_in_month y m).

Definition _check_time_fields (hh mm ss us : Z) : bool :=
  (0 <=? hh) && (hh <=? 23) && (0 <=? mm) && (mm <=? 59)
  && (0 <=? ss) && (ss <=? 59) && (0 <=? us) && (us <=? 999999).

Definition datetime_valid (d : datetime) : bool :=
  _check_date_fields (year d) (month d) (day d)
  && _check_time_fields (hour d) (minute d) (second d) (microsecond d).

(** [timedelta(days, seconds, microseconds)], normalised as the
    constructor does. *)
Record timedelta := mkTimedelta {
  td_days : Z;
  td_seconds : Z;
  td_microseconds : Z
}.

Definition timedelta_new (days seconds microseconds : Z) : timedelta :=
  let s := seconds + microseconds / 1000000 in
  let us := microseconds mod 1000000 in
  mkTimedelta (days + s / 86400) (s mod 86400) us.

Definition timedelta_days (n : Z) : timedelta := timedelta_new n 0 0.
Definition timedelta_weeks (n : Z) : timedelta := timedelta_new (7 * n) 0 0.
Definition timedelta_seconds (n : Z) : timedelta := timedelta_new 0 n 0.

Definition toordinal (d : datetime) : Z := _ymd2ord (year d) (month d) (day d).

(** [datetime.__add__]: [None] is [OverflowError]. *)
Definition datetime_add (d : datetime) (other : timedelta) : option datetime :=
  let delta :=
    timedelta_new
      (toordinal d + td_days other)
      (hour d * 3600 + minute d * 60 + second d + td_seconds other)
      (microsecond d + td_microseconds other) in
  let hh := td_seconds delta / 3600 in
  let rem := td_seconds delta mod 3600 in
  let mm := rem / 60 in
  let ss := rem mod 60 in
  if (0 <? td_days delta) && (td_days delta <=? _MAXORDINAL) then
    let '(y, m, dd) := _ord2ymd (td_days delta) in
    Some (mkDatetime y m dd hh mm ss (td_microseconds delta) (utcoffset d))
  else None.

(** [d.replace(year=y, month=m)]: [None] is [ValueError]. *)
Definition datetime_replace (d : datetime) (y m : Z) : option datetime :=
  if _check_date_fields y m (day d) then
    Some (mkDatetime y m (day d) (hour d) (minute d) (second d)
            (microsecond d) (utcoffset d))
  else None.

(** The point on the time line an aware [datetime] denotes, in
    microseconds; aware datetimes compare by it. *)
Definition instant (d : datetime) : Z :=
  ((toordinal d * 86400 + hour d * 3600 + minute d * 60 + second d
    - utcoffset d) * 1000000) + microsecond d.

(** Wall-clock reading in microseconds, without the offset. *)
Definition wallclock (d : datetime) : Z :=
  ((toordinal d * 86400 + hour d * 3600 + minute d * 60 + second d) * 1000000)
  + microsecond d.

(** [d.astimezone(tz)] for aware [d], where [offset_at] gives the UTC
    offset (seconds) the zone has at a UTC wall-clock reading: shift to
    UTC, then [tz.fromutc].  [None] is [OverflowError]. *)
Definition astimezone (offset_at : Z → Z) (d : datetime) : option datetime :=
  utc ← datetime_add d (timedelta_seconds (- utcoffset d));
  let off := offset_at (wallclock utc `div` 1000000) in
  loc ← datetime_add utc (timedelta_seconds off);
  Some (mkDatetime (year loc) (month loc) (day loc) (hour loc) (minute loc)
          (second loc) (microsecond loc) off).

(** [str.lower] on the code points 0..255 in which the recurrence
    rule is read here: A..Z and the Latin-1 capitals move down by 32. *)
Definition char_lower (c : ascii) : ascii :=
  let n := nat_of_ascii c in
  if ((65 <=? n) && (n <=? 90))%nat then ascii_of_nat (n + 32)
  else if ((192 <=? n) && (n <=? 222) && negb (n =? 215))%nat
       then ascii_of_nat (n + 32)
  else c.

Fixpoint lower (s : string) : string :=
  match s with
  | EmptyString => EmptyString
  | String c rest => String (char_lower c) (lower rest)
  end.

(** ** Reservation.py : recurrence *)

(** How a call ends: [Returned v], or an exception leaves it. *)
Inductive outcome (A : Type) :=
  | Returned (v : A)
  | Raised.
Arguments Returned {A} v.
Arguments Raised {A}.

(** The first copy of the program in the file (header "Part 1";
    [calculate_next_deadline] at lines 80-95, [recurring_task_loop] at
    lines 327-342).  Its definitions carry the same names as those of
    the improved copy, which follow this module. *)
Module Part1.

(** [calculate_next_deadline(last_deadline, recurring)]: the bare
    [except:] catches the [ValueError] of [replace]; an [OverflowError]
    of [+] leaves the function. *)
Definition calculate_next_deadline (last_deadline : datetime) (recurring : string)
  : outcome (option datetime) :=
  if String.eqb (lower recurring) "daily" then
    match datetime_add last_deadline (timedelta_days 1) with
    | Some d => Returned (Some d)
    | None => Raised
    end
  else if String.eqb (lower recurring) "weekly" then
    match datetime_add last_deadline (timedelta_weeks 1) with
    | Some d => Returned (Some d)
    | None => Raised
    end
  else if String.eqb (lower recurring) "monthly" then
    let month1 := month last_deadline + 1 in
    let year1 := year last_deadline in
    let '(month1, year1) := if month1 >? 12 then (1, year1 + 1) else (month1, year1) in
    match datetime_replace last_deadline year1 month1 with
    | Some d => Returned (Some d)
    | None =>
        match datetime_add last_deadline (timedelta_days 30) with
        | Some d => Returned (Some d)
        | None => Raised
        end
    end
  else Returned None.

End Part1.

(** [calculate_next_deadline] of the improved copy (lines 769-787):
    [except ValueError] around [replace], and an outer
    [except Exception] that logs and falls to [return None]. *)
Definition calculate_next_deadline (last_deadline : datetime) (recurring : string)
  : option datetime :=
  if String.eqb (lower recurring) "daily" then
    datetime_add last_deadline (timedelta_days 1)
  else if String.eqb (lower recurring) "weekly" then
    datetime_add last_deadline (timedelta_weeks 1)
  else if String.eqb (lower recurring) "monthly" then
    let month1 := month last_deadline + 1 in
    let year1 := year last_deadline in
    let '(month1, year1) := if month1 >? 12 then (1, year1 + 1) else (month1, year1) in
    match datetime_replace last_deadline year1 month1 with
    | Some d => Some d
    | None => datetime_add last_deadline (timedelta_days 30)
    end
  else None.

(** ** Reservation.py : the task store and the recurring-task loop *)

(** A row of [tasks], with the columns the loop reads and writes.
    [deadline] is the ISO text as [datetime.fromisoformat] reads it:
    [None] when it raises. *)
Record task_row := mkTask {
  task_id : Z;
  task : string;
  deadline : option datetime;
  priority : Z;
  status : string;
  recurring : option string;
  owner_id : string
}.

(** The tables: [tasks] in row order, [task_assignments], the
    [timezone] column of [users] ([None] is NULL), and the counter that
    AUTOINCREMENT keeps for [tasks]. *)
Record database := mkDatabase {
  tasks : list task_row;
  task_assignments : list (Z * string);
  users : gmap string (option string);
  last_task_id : Z
}.

Inductive loop_event :=
  | CreatedRecurringTask (new_task_id source_id : Z)
  | ErrorProcessingTask (source_id : Z).

(** [INSERT INTO tasks (task, deadline, priority, recurring, owner_id)]:
    [status] takes its default and [task_id] the next number. *)
Definition insert_task (name : string) (dl : datetime) (prio : Z)
    (rule : string) (owner : string) (db : database) : database :=
  let id := last_task_id db + 1 in
  mkDatabase
    (tasks db ++ [mkTask id name (Some dl) prio "Pending" (Some rule) owner])
    (task_assignments db) (users db) id.

(** [SELECT user_id FROM task_assignments WHERE task_id=?] and the
    [INSERT] of each under the new id. *)
Definition copy_assignments (source_id new_id : Z) (db : database) : database :=
  let assigned := filter (fun a => a.1 = source_id) (task_assignments db) in
  mkDatabase (tasks db)
    (task_assignments db ++ ((fun a => (new_id, a.2)) <$> assigned))
    (users db) (last_task_id db).

(** [... WHERE recurring IS NOT NULL AND status='Completed'] *)
Definition is_completed_recurring (row : task_row) : bool :=
  match recurring row with
  | Some _ => String.eqb (status row) "Completed"
  | None => false
  end.

Definition completed_recurring (db : database) : list task_row :=
  filter (fun row => is_completed_recurring row = true) (tasks db).

Section Scheduler.

(** [pytz.timezone(name)]: the UTC offset (seconds) of the zone at a
    UTC reading, [None] for [UnknownTimeZoneError]. *)
Variable pytz_timezone : string → option (Z → Z).
(** The environment's [DEFAULT_TIMEZONE]. *)
Variable DEFAULT_TZ : string.
(** Whether the connection object answers [db.conn.lastrowid]
    ([sqlite3.Connection] has no such attribute: the read raises
    [AttributeError]). *)
Variable conn_has_lastrowid : bool.

(** [get_timezone(user_id)]: [row[0] if row else DEFAULT_TZ]. *)
Definition get_timezone (db : database) (user_id : string) : option string :=
  match users db !! user_id with
  | Some tz => tz
  | None => Some DEFAULT_TZ
  end.

(** The body of the [for] loop of [recurring_task_loop] (lines
    2104-2129) for one fetched row, inside its [try:]; [now] is the
    instant [datetime.now(tz)] denotes. *)
Definition regenerate (now : Z) (row : task_row) (db : database)
  : outcome (list loop_event) * database :=
  match get_timezone db (owner_id row) ≫= pytz_timezone with
  | None => (Raised, db)
  | Some tz =>
      match deadline row ≫= astimezone tz with
      | None => (Raised, db)
      | Some last_deadline =>
          let rule := default "" (recurring row) in
          match calculate_next_deadline last_deadline rule with
          | Some next_deadline =>
              if instant next_deadline <=? now then
                match astimezone (fun _ => 0) next_deadline with
                | None => (Raised, db)
                | Some next_deadline_utc =>
                    let db := insert_task (task row) next_deadline_utc
                                (priority row) rule (owner_id row) db in
                    if conn_has_lastrowid then
                      let new_task_id := last_task_id db in
                      (Returned [CreatedRecurringTask new_task_id (task_id row)],
                       copy_assignments (task_id row) new_task_id db)
                    else (Raised, db)
                end
              else (Returned [], db)
          | None => (Returned [], db)
          end
      end
  end.

(** One iteration with its [except Exception: logging.error(...)]. *)
Definition regenerate_logged (now : Z) (row : task_row)
    (acc : database * list loop_event) : database * list loop_event :=
  match regenerate now row acc.1 with
  | (Returned evs, db) => (db, acc.2 ++ evs)
  | (Raised, db) => (db, acc.2 ++ [ErrorProcessingTask (task_id row)])
  end.

(** [recurring_task_loop()] (lines 2095-2132): one tick. *)
Definition recurring_task_loop (now : Z) (db : database)
  : database * list loop_event :=
  foldl (fun acc row => regenerate_logged now row acc) (db, [])
    (completed_recurring db).

(** One iteration of the loop of the first copy (lines 331-342): an
    unreadable deadline is replaced by [datetime.now(tz)], the new row
    has priority 0, nothing is caught.  [now_local tz] is the aware
    reading [datetime.now(tz)]. *)
Definition part1_regenerate (now_local : (Z → Z) → datetime) (row : task_row)
    (db : database) : outcome unit * database :=
  match get_timezone db (owner_id row) ≫= pytz_timezone with
  | None => (Raised, db)
  | Some tz =>
      let last_deadline :=
        default (now_local tz) (deadline row ≫= astimezone tz) in
      let rule := default "" (recurring row) in
      match Part1.calculate_next_deadline last_deadline rule with
      | Raised => (Raised, db)
      | Returned None => (Returned tt, db)
      | Returned (Some next_deadline) =>
          match astimezone (fun _ => 0) next_deadline with
          | None => (Raised, db)
          | Some next_deadline_utc =>
              (Returned tt,
               insert_task (task row) next_deadline_utc 0 rule (owner_id row) db)
          end
      end
  end.

Fixpoint part1_loop (now_local : (Z → Z) → datetime) (rows : list task_row)
    (db : database) : outcome unit * database :=
  match rows with
  | [] => (Returned tt, db)
  | row :: rest =>
      match part1_regenerate now_local row db with
      | (Returned _, db) => part1_loop now_local rest db
      | (Raised, db) => (Raised, db)
      end
  end.

(** [recurring_task_loop()] of the first copy (lines 327-342). *)
Definition part1_recurring_task_loop (now_local : (Z → Z) → datetime)
    (db : database) : outcome unit * database :=
  part1_loop now_local (completed_recurring db) db.

End Scheduler.

(** ** rate_limiter.py : the [rate_limit] decorator and the admin cog *)

(** What the wrapper built by [rate_limit(command_type)] did: whether
    the "Rate Limited" message went out, with the minutes and seconds
    it shows ([None] for the minutes when the text is the seconds
    alone), how often the wrapped command was called, and whether an
    exception left the wrapper. *)
Record wrapper_outcome := mkOutcome {
  message : option (option Z * Z);
  func_calls : nat;
  wrapper_ends : completion
}.

(** [get_remaining_time(user_id)] with the clock as the method reads
    it: [time.time()] is a float, and the wrapper below shows the whole
    part of what remains, so the reading is a rational number of
    seconds here.  At a whole second it is [get_remaining_time]. *)
Definition get_remaining_time_at (now : Q) (user_id : string) (st : RateLimiter) : Q :=
  match blocked_users st !! user_id with
  | Some until =>
      let remaining := (inject_Z until - now)%Q in
      if Qle_bool remaining 0 then 0%Q else remaining
  | None => 0%Q
  end.

(** [wrapper(interaction, ...)].  [now] and [now'] are the clock as
    [is_rate_limited] and [get_remaining_time] read it; [send_ok] says
    whether building and sending the message succeeds; [func_raises]
    and [func_raises'] say whether the first and the second call of the
    wrapped command raise.  [remaining // 60] and [remaining % 60] are
    floor division and its remainder, [int] drops the fraction.  The
    [except Exception] handler calls the command: for the first time
    when sending failed, for the second time when the command itself
    raised inside [try:]. *)
Definition rate_limit (command_type : string) (now : Z) (now' : Q) (send_ok : bool)
    (func_raises func_raises' : bool) (user_id : string) (st : RateLimiter)
  : wrapper_outcome * RateLimiter :=
  let '(limited, st) := is_rate_limited now user_id command_type st in
  let in_handler :=
    mkOutcome None 1 (if func_raises then Propagates else Returns) in
  let call_func :=
    if func_raises
    then mkOutcome None 2 (if func_raises' then Propagates else Returns)
    else mkOutcome None 1 Returns in
  if limited then
    let remaining := get_remaining_time_at now' user_id st in
    if negb (Qle_bool remaining 0) then
      let minutes := Qfloor (remaining / 60) in
      let seconds := Qfloor (remaining - 60 * inject_Z (Qfloor (remaining / 60))) in
      if send_ok then
        (mkOutcome (Some (if minutes =? 0 then None else Some minutes, seconds))
           0 Returns, st)
      else (in_handler, st)
    else (call_func, st)
  else (call_func, st).

Inductive admin_reply :=
  | ReplyUnblocked (user_id : string)
  | ReplyNotBlocked
  | ReplyInvalidLimitType
  | ReplySet (limit_type : string) (value : Z).

(** [RateLimiterAdmin.ratelimiter_unblock(ctx, user_id)] *)
Definition ratelimiter_unblock (user_id : string) (st : RateLimiter)
  : admin_reply * RateLimiter :=
  match blocked_users st !! user_id with
  | Some _ =>
      (ReplyUnblocked user_id,
       set_blocked_users (delete user_id (blocked_users st)) st)
  | None => (ReplyNotBlocked, st)
  end.

(** [RateLimiterAdmin.ratelimiter_set(ctx, limit_type, value)]:
    [setattr(rate_limiter, limit_type, max(0, value))]; the reply
    repeats [value] as given. *)
Definition ratelimiter_set (limit_type : string) (value : Z) (st : RateLimiter)
  : admin_reply * RateLimiter :=
  if String.eqb limit_type "commands_per_minute" then
    (ReplySet limit_type value, set_commands_per_minute (Z.max 0 value) st)
  else if String.eqb limit_type "tasks_per_hour" then
    (ReplySet limit_type value, set_tasks_per_hour (Z.max 0 value) st)
  else if String.eqb limit_type "block_duration" then
    (ReplySet limit_type value, set_block_duration (Z.max 0 value) st)
  else (ReplyInvalidLimitType, st).

(** ** Python strings in the text helpers

    [sanitize_input], [parse_tags] and [format_tags] work on the code
    points of a [str], among them the Unicode white space that
    [str.split()] and [str.strip()] recognise; a [str] is the list of
    its code points here. *)
Definition pystr : Type := list N.

(** [str.isspace] of one code point; [split()] and [strip()] use the
    same test. *)
Definition isspace (c : N) : bool :=
  ((9 <=? c) && (c <=? 13) || (28 <=? c) && (c <=? 32) || (c =? 133) || (c =? 160)
   || (c =? 5760) || (8192 <=? c) && (c <=? 8202) || (c =? 8232) || (c =? 8233)
   || (c =? 8239) || (c =? 8287) || (c =? 12288))%N.

Fixpoint str_lstrip (s : pystr) : pystr :=
  match s with
  | [] => []
  | c :: rest => if isspace c then str_lstrip rest else s
  end.

Definition str_rstrip (s : pystr) : pystr := reverse (str_lstrip (reverse s)).

(** [s.strip()] *)
Definition str_strip (s : pystr) : pystr := str_rstrip (str_lstrip s).

(** The pieces of [s] between the code points that [sep] accepts; there
    is always at least one piece. *)
Fixpoint split_at (sep : N → bool) (s : pystr) : list pystr :=
  match s with
  | [] => [[]]
  | c :: rest =>
      if sep c then [] :: split_at sep rest
      else match split_at sep rest with
           | w :: ws => (c :: w) :: ws
           | [] => [[c]]
           end
  end.

(** [s.split(sep)] for a separator of one code point. *)
Definition str_split_on (sep : N) (s : pystr) : list pystr := split_at (N.eqb sep) s.

(** [s.split()]: runs of white space separate, no piece is empty. *)
Definition str_split (s : pystr) : list pystr :=
  filter (fun w => w ≠ []) (split_at isspace s).

(** [sep.join(l)] *)
Fixpoint str_join (sep : pystr) (l : list pystr) : pystr :=
  match l with
  | [] => []
  | w :: ws => match ws with [] => w | _ :: _ => w ++ sep ++ str_join sep ws end
  end.

(** [s.startswith(old)] *)
Fixpoint startswith (old s : pystr) : bool :=
  match old, s with
  | [], _ => true
  | _ :: _, [] => false
  | p :: old', c :: s' => (p =? c)%N && startswith old' s'
  end.

(** [s.replace(old, empty)] for a non-empty [old]: the occurrences of
    [old] are found from the left, without overlap; [skip] counts the
    code points of the occurrence being dropped. *)
Fixpoint str_remove_from (old : pystr) (skip : nat) (s : pystr) : pystr :=
  match s with
  | [] => []
  | c :: rest =>
      match skip with
      | S k => str_remove_from old k rest
      | O =>
          if startswith old s then str_remove_from old (length old - 1) rest
          else c :: str_remove_from old 0 rest
      end
  end.

Definition str_remove (old s : pystr) : pystr := str_remove_from old 0 s.

(** ** rate_limiter.py : SecurityValidator.sanitize_input *)

(** The patterns removed in turn: the code points of <, >, the double
    and the single quote, &, NUL and CR, then three consecutive LF. *)
Definition sanitize_removed : list pystr :=
  [[60]; [62]; [34]; [39]; [38]; [0]; [13]; [10; 10; 10]]%N.

(** [sanitize_input(text)]; [None] stands for Python's [None]. *)
Definition sanitize_input (text : option pystr) : pystr :=
  match text with
  | None | Some [] => []
  | Some text =>
      let text := foldl (fun text c => str_remove c text) text sanitize_removed in
      str_strip (str_join [32%N] (str_split text))
  end.

(** ** Reservation.py : tags *)

(** [parse_tags(tags_string)] *)
Definition parse_tags (tags_string : option pystr) : list pystr :=
  match tags_string with
  | None | Some [] => []
  | Some s =>
      str_strip <$> filter (fun tag => str_strip tag ≠ []) (str_split_on 44 s)
  end.

(** [format_tags(tags_list)] *)
Definition format_tags (tags_list : list pystr) : pystr :=
  match tags_list with
  | [] => []
  | _ :: _ => str_join [44; 32]%N tags_list
  end.

(** ** Vocabulary of the statements *)

(** A call [is_rate_limited(user, kind)] made when the clock reads
    [req_now]. *)
Record request := mkRequest {
  req_now : Z;
  req_user : string;
  req_kind : string
}.

(** The limiter after a sequence of calls. *)
Definition run (reqs : list request) (st : RateLimiter) : RateLimiter :=
  foldl (fun st r => (is_rate_limited (req_now r) (req_user r) (req_kind r) st).2)
    st reqs.

(** The limiter after 31 command requests of one user at time 0: the
    last one is denied and blocks the user until 300. *)
Definition blocked_after_31 : RateLimiter :=
  run (replicate 31 (mkRequest 0 "u" "command")) RateLimiter_init.

(** No window holds more timestamps than its limit. *)
Definition within_limits (st : RateLimiter) : Prop :=
  map_Forall (fun _ q => Z.of_nat (length q) ≤ commands_per_minute st)
    (user_commands st)
  ∧ map_Forall (fun _ q => Z.of_nat (length q) ≤ tasks_per_hour st)
      (user_tasks_created st).

Definition same_config (st st' : RateLimiter) : Prop :=
  commands_per_minute st' = commands_per_minute st
  ∧ tasks_per_hour st' = tasks_per_hour st
  ∧ block_duration st' = block_duration st.

(** The user has a block that has not expired at [now]. *)
Definition actively_blocked (now : Z) (user_id : string) (st : RateLimiter) : Prop :=
  ∃ until, blocked_users st !! user_id = Some until ∧ now < until.

(** The user has an entry in one of the three maps. *)
Definition tracked (st : RateLimiter) (u : string) : Prop :=
  is_Some (user_commands st !! u)
  ∨ is_Some (user_tasks_created st !! u)
  ∨ is_Some (blocked_users st !! u).


(** What one pass of a cleanup loop leaves of an entry. *)
Definition trimmed (cutoff : Z) (q : list Z) : option (list Z) :=
  match evict cutoff q with
  | [] => None
  | q' => Some q'
  end.

Definition still_blocked (now : Z) (until : Z) : option Z :=
  if now >=? until then None else Some until.

(** The limiter after [store uid q] for each pair of [l], in order. *)
Definition store_all (store : string → list Z → RateLimiter → RateLimiter)
    (l : list (string * list Z)) (st : RateLimiter) : RateLimiter :=
  foldl (fun s kv => store kv.1 kv.2 s) st l.

Definition is_object (data : json) : bool :=
  match data with JObj _ => true | _ => false end.

(** [m] keeps [P], however it ends. *)
Definition keeps (P : RateLimiter → Prop) {A} (m : M A) : Prop :=
  ∀ st, P st →
    match m st with Ok _ s => P s | Raise s => P s | Untyped => True end.

(** [m] cannot raise. *)
Definition total {A} (m : M A) : Prop :=
  ∀ st, match m st with Raise _ => False | _ => True end.

(** When [m] raises, [P] still holds. *)
Definition keeps_on_raise (P : RateLimiter → Prop) {A} (m : M A) : Prop :=
  ∀ st st', P st → m st = Raise st' → P st'.

(** A snapshot whose second member has the wrong shape. *)
Definition partial_snapshot : json :=
  JObj [("user_commands", JObj [("u", JArr [JNum 5])]);
        ("user_tasks_created", JNum 7);
        ("blocked_users", JObj [("u", JNum 900)])].

(** One 400-year cycle of the proleptic Gregorian calendar, checked day
    by day: [_ord2ymd] yields a date of the cycle and [_ymd2ord] maps it
    back. *)
Definition cycle_day_ok (r : Z) : bool :=
  let '(y, m, d) := _ord2ymd (r + 1) in
  (1 <=? y) && (y <=? 400) && (1 <=? m) && (m <=? 12)
  && (1 <=? d) && (d <=? _days_in_month y m)
  && (_ymd2ord y m d =? r + 1).

Fixpoint all_from (fuel : nat) (r : Z) (P : Z → bool) : bool :=
  match fuel with
  | O => true
  | S k => if P r then all_from k (r + 1) P else false
  end.

Definition with_id (id : Z) (r : task_row) : task_row :=
  mkTask id (task r) (deadline r) (priority r) (status r) (recurring r) (owner_id r).

(** A row without its number: what two rows share when they differ in
    [task_id] only. *)
Definition anonymous (r : task_row) : task_row := with_id 0 r.

(** The row (numbered 0) that one pass of the improved loop inserts for
    a fetched [row] when the clock reads [now], if any; [us] is the
    [users] table. *)
Definition occurrence (pytz_timezone : string → option (Z → Z)) (DEFAULT_TZ : string)
    (us : gmap string (option string)) (now : Z) (row : task_row) : option task_row :=
  tz ← match us !! owner_id row with
       | Some tz => tz
       | None => Some DEFAULT_TZ
       end ≫= pytz_timezone;
  last_deadline ← deadline row ≫= astimezone tz;
  next_deadline ← calculate_next_deadline last_deadline (default "" (recurring row));
  if instant next_deadline <=? now then
    next_deadline_utc ← astimezone (fun _ => 0) next_deadline;
    Some (mkTask 0 (task row) (Some next_deadline_utc) (priority row) "Pending"
            (Some (default "" (recurring row))) (owner_id row))
  else None.

Definition numbered (id : Z) (o : option task_row) : list task_row :=
  match o with Some r => [with_id id r] | None => [] end.

(** A zone table that knows UTC only, and a store with one completed
    daily task. *)
Definition utc_only (name : string) : option (Z → Z) :=
  if String.eqb name "UTC" then Some (fun _ => 0) else None.

Definition one_daily_task : database :=
  mkDatabase
    [mkTask 1 "water the plants" (Some (mkDatetime 2024 1 1 9 0 0 0 0)) 2
       "Completed" (Some "daily") "42"]
    [(1, "42")]
    {["42" := Some "UTC"]}
    1.

Definition jan_5_2024 : Z := instant (mkDatetime 2024 1 5 0 0 0 0 0).

(** The clock readings of a run never go back: each request is made at
    or after the previous one, starting from [t0]. *)
Fixpoint nondecreasing (t0 : Z) (reqs : list request) : Prop :=
  match reqs with
  | [] => True
  | r :: rest => t0 ≤ req_now r ∧ nondecreasing (req_now r) rest
  end.

(** The reading of the last request of a run that started at [t0]. *)
Definition last_time (t0 : Z) (reqs : list request) : Z :=
  foldl (fun _ r => req_now r) t0 reqs.

(** Every block ends at most [block_duration] after [now]. *)
Definition blocks_bounded (now : Z) (st : RateLimiter) : Prop :=
  map_Forall (fun _ until => until ≤ now + block_duration st) (blocked_users st).

(** Every window is in chronological order and holds no timestamp later
    than [now]. *)
Definition chronological (now : Z) (q : list Z) : Prop :=
  StronglySorted Z.le q ∧ Forall (fun t => t ≤ now) q.

Definition windows_chronological (now : Z) (st : RateLimiter) : Prop :=
  map_Forall (fun _ q => chronological now q) (user_commands st)
  ∧ map_Forall (fun _ q => chronological now q) (user_tasks_created st).

(** The verdicts ([True] = rate limited) of a sequence of calls. *)
Fixpoint verdicts (reqs : list request) (st : RateLimiter) : list bool :=
  match reqs with
  | [] => []
  | r :: rest =>
      let res := is_rate_limited (req_now r) (req_user r) (req_kind r) st in
      res.1 :: verdicts rest res.2
  end.

(** Two limiters that no request made at [now] or later can tell apart:
    the same limits, the same unexpired blocks, and windows that agree
    once the timestamps expired at [now] are evicted. *)
Definition agree_from (now : Z) (st1 st2 : RateLimiter) : Prop :=
  same_config st1 st2
  ∧ (∀ u, blocked_users st1 !! u ≫= still_blocked now
          = blocked_users st2 !! u ≫= still_blocked now)
  ∧ (∀ u c, now - 60 ≤ c →
       evict c (window (user_commands st1) u) = evict c (window (user_commands st2) u))
  ∧ (∀ u c, now - 3600 ≤ c →
       evict c (window (user_tasks_created st1) u)
       = evict c (window (user_tasks_created st2) u)).

(** Two runs of a [try:] body end the same way: both finish, with
    results related by [V] and limiters related by [Q], or both raise,
    or both leave the typed model. *)
Definition ends_alike {A} (V : A → A → Prop) (Q : RateLimiter → RateLimiter → Prop)
    (r1 r2 : result A) : Prop :=
  match r1, r2 with
  | Ok a1 s1, Ok a2 s2 => V a1 a2 ∧ Q s1 s2
  | Raise _, Raise _ => True
  | Untyped, Untyped => True
  | _, _ => False
  end.

(** From limiters related by [R], [m1] and [m2] end alike. *)
Definition alike {A} (V : A → A → Prop) (R Q : RateLimiter → RateLimiter → Prop)
    (m1 m2 : M A) : Prop :=
  ∀ s1 s2, R s1 s2 → ends_alike V Q (m1 s1) (m2 s2).

(** The three maps of two limiters coincide. *)
Definition same_maps (s1 s2 : RateLimiter) : Prop :=
  user_commands s1 = user_commands s2
  ∧ user_tasks_created s1 = user_tasks_created s2
  ∧ blocked_users s1 = blocked_users s2.

(** The length of a [timedelta] in microseconds. *)
Definition td_total (t : timedelta) : Z :=
  (td_days t * 86400 + td_seconds t) * 1000000 + td_microseconds t.

(** The month after [(y, m)], as the "monthly" branch computes it. *)
Definition next_month (y m : Z) : Z * Z :=
  if m + 1 >? 12 then (y + 1, 1) else (y, m + 1).

(** [d] with its year and month replaced. *)
Definition moved_to (d : datetime) (ym : Z * Z) : datetime :=
  mkDatetime ym.1 ym.2 (day d) (hour d) (minute d) (second d) (microsecond d)
    (utcoffset d).

(** The whole days a recurrence rule puts between two deadlines. *)
Definition period_of (rule : string) (days : Z) : Prop :=
  (lower rule = "daily" ∧ days = 1)
  ∨ (lower rule = "weekly" ∧ days = 7)
  ∨ (lower rule = "monthly" ∧ 28 ≤ days ≤ 31).

(** Every deadline in the table is a [datetime] Python can hold. *)
Definition deadlines_valid (rows : list task_row) : Prop :=
  Forall (fun row => ∀ d, deadline row = Some d → datetime_valid d = true) rows.

(** What makes [r] a row the loop regenerated at [now] from one of
    [rows]: it is pending, repeats the name, owner, priority and rule
    of a completed recurring row, and its deadline is that row's moved
    by the rule's period, stored in UTC and already due. *)
Definition regenerated_from (rows : list task_row) (now : Z) (r : task_row) : Prop :=
  status r = "Pending"
  ∧ ∃ row rule d0 dl days,
      row ∈ rows ∧ is_completed_recurring row = true
      ∧ recurring row = Some rule ∧ recurring r = Some rule
      ∧ task r = task row ∧ owner_id r = owner_id row ∧ priority r = priority row
      ∧ deadline row = Some d0 ∧ deadline r = Some dl
      ∧ datetime_valid dl = true ∧ utcoffset dl = 0
      ∧ period_of rule days
      ∧ instant dl = instant d0 + days * 86400000000
      ∧ instant dl ≤ now.

(** The new ids named by the "Created recurring task" lines of a log. *)
Definition created_ids (log : list loop_event) : list Z :=
  omap (fun e => match e with
                 | CreatedRecurringTask new_task_id _ => Some new_task_id
                 | ErrorProcessingTask _ => None
                 end) log.

(** No white space at either end. *)
Definition trimmed_str (s : pystr) : Prop :=
  (∀ c, head s = Some c → isspace c = false)
  ∧ (∀ c, last s = Some c → isspace c = false).

(** A tag as [parse_tags] yields them: not empty, no comma, no white
    space at either end. *)
Definition clean_tag (t : pystr) : Prop :=
  t ≠ [] ∧ Forall (fun c => c ≠ 44%N) t ∧ str_strip t = t.

(** The code points that [sanitize_input] removes one by one. *)
Definition sanitize_forbidden : list N := [60; 62; 34; 39; 38; 0; 13]%N.


(** Every timestamp of [q] is older than [cutoff]. *)
Definition all_expired (cutoff : Z) (q : list Z) : Prop :=
  Forall (fun t => t < cutoff) q.

(** [q'] is what the eviction loop leaves of [q]: [q] from its first
    timestamp that is not older than [cutoff] on. *)
Definition from_first_live (cutoff : Z) (q q' : list Z) : Prop :=
  ∃ p t rest, q = p ++ t :: rest ∧ all_expired cutoff p ∧ cutoff ≤ t ∧ q' = t :: rest.

(** The values that [deque(lst)] accepts within the persisted layout,
    with the timestamps it yields: a list of numbers, and the empty
    string and the empty object, which give an empty deque. *)
Inductive reads_as : json → list Z → Prop :=
  | reads_numbers q : reads_as (JArr (JNum <$> q)) q
  | reads_empty_string : reads_as (JStr "") []
  | reads_empty_object : reads_as (JObj []) [].

(** The values on which [deque(lst)] raises [TypeError]: [None], a
    boolean, a number. *)
Definition unreadable (lst : json) : Prop :=
  lst = JNull ∨ (∃ b, lst = JBool b) ∨ (∃ z, lst = JNum z).

(** The members [entries] of a section give the windows [read], one for
    one and in order. *)
Definition decoded (entries : list (string * json)) (read : list (string * list Z))
  : Prop :=
  Forall2 (fun e r => e.1 = r.1 ∧ reads_as e.2 r.2) entries read.

(** The windows [read] are what the loop over a section of the snapshot
    stored: with [all], the section (or [{}] for a missing one) from
    end to end; without, the members in front of the first one whose
    value is unreadable, or nothing when the section is not an
    object. *)
Definition entries_read (section : option json) (read : list (string * list Z))
    (all : bool) : Prop :=
  match section with
  | None => read = [] ∧ all = true
  | Some (JObj d) =>
      ∃ pre post, d = pre ++ post ∧ decoded pre read
        ∧ if all then post = []
          else ∃ uid lst rest, post = (uid, lst) :: rest ∧ unreadable lst
  | Some _ => read = [] ∧ all = false
  end.

(** The map that [target[uid] = q] builds from nothing, for each pair
    of [read] in order. *)
Definition window_map (read : list (string * list Z)) : gmap string (list Z) :=
  foldl (fun m kv => <[kv.1 := kv.2]> m) ∅ read.

(** What a denied request made at [now] does to the block of the user:
    an unexpired block stays as it is, otherwise a block that ends
    [block_duration] after [now] is entered.  In [st'] the user is
    therefore actively blocked when [block_duration] is positive, and a
    user who was not blocked is still not blocked when it is not. *)
Definition blocked_by_denial (now : Z) (u : string) (st st' : RateLimiter) : Prop :=
  (actively_blocked now u st → blocked_users st' !! u = blocked_users st !! u)
  ∧ (¬ actively_blocked now u st →
     blocked_users st' !! u = Some (now + block_duration st))
  ∧ (0 < block_duration st →
     actively_blocked now u st' ∧ 0 < get_remaining_time now u st')
  ∧ (block_duration st ≤ 0 → ¬ actively_blocked now u st →
     ¬ actively_blocked now u st' ∧ get_remaining_time now u st' = 0).

(** The user has a block that has not expired when the clock reads
    [now], whole second or not. *)
Definition blocked_at (now : Q) (user_id : string) (st : RateLimiter) : Prop :=
  ∃ until, blocked_users st !! user_id = Some until ∧ (now < inject_Z until)%Q.

(** * Properties *)

(** ** The rate limiter *)

Section evict_facts.
Implicit Types (q : list Z) (c : Z).

Lemma evict_length c q : (length (evict c q) ≤ length q)%nat.
Proof.
  induction q as [|t q IH]; simpl; [lia|].
  destruct (t <? c); simpl; lia.
Qed.

Lemma evict_suffix c q : ∃ p, q = p ++ evict c q ∧ Forall (fun t => t < c) p.
Proof.
  induction q as [|t q [p [Hq Hp]]]; simpl.
  - by exists [].
  - destruct (t <? c) eqn:Ht.
    + exists (t :: p). split; [by rewrite Hq at 1|].
      constructor; [lia|done].
    + by exists [].
Qed.

Lemma evict_all c q : Forall (fun t => t < c) q → evict c q = [].
Proof.
  induction 1 as [|t q Ht _ IH]; simpl; [done|].
  by rewrite (proj2 (Z.ltb_lt t c) Ht).
Qed.

Lemma evict_head c q t q' : evict c q = t :: q' → c ≤ t.
Proof.
  induction q as [|x q IH]; simpl; [done|].
  destruct (x <? c) eqn:Hx; [done|].
  intros [= -> ->]. lia.
Qed.
End evict_facts.

Lemma check_block_inl now u st st' :
  check_block now u st = inl st' →
  actively_blocked now u st ∧ st' = incr_blocked_requests st.
Proof.
  unfold check_block, actively_blocked.
  destruct (blocked_users st !! u) as [b|] eqn:Hb; [|done].
  destruct (now <? b) eqn:Hlt; [|done].
  intros [= <-]. split; [|done]. exists b. split; [done|lia].
Qed.

Lemma check_block_inr now u st st' :
  check_block now u st = inr st' →
  ¬ actively_blocked now u st
  ∧ st' = set_blocked_users (delete u (blocked_users st)) st.
Proof.
  unfold check_block, actively_blocked.
  destruct (blocked_users st !! u) as [b|] eqn:Hb.
  - destruct (now <? b) eqn:Hlt; [done|].
    intros [= <-]. split; [|done]. intros (b' & Hb' & ?).
    assert (b' = b) by congruence. lia.
  - intros [= <-]. split.
    + by intros (b' & Hb' & ?).
    + destruct st; unfold set_blocked_users; simpl. f_equal.
      simpl in Hb. by rewrite delete_id.
Qed.

Lemma check_block_not_blocked now u st :
  ¬ actively_blocked now u st →
  check_block now u st = inr (set_blocked_users (delete u (blocked_users st)) st).
Proof.
  intros Hnb. destruct (check_block now u st) as [st'|st'] eqn:Hc.
  - by apply check_block_inl in Hc as [? _].
  - by apply check_block_inr in Hc as [_ ->].
Qed.

Lemma is_rate_limited_preserves now u kind st :
  0 ≤ commands_per_minute st → 0 ≤ tasks_per_hour st →
  within_limits st →
  within_limits (is_rate_limited now u kind st).2
  ∧ same_config st (is_rate_limited now u kind st).2.
Proof.
  intros Hc Ht [Hwc Hwt]. unfold is_rate_limited.
  destruct (check_block now u (incr_total_requests st)) as [st1|st1] eqn:Hcb.
  { apply check_block_inl in Hcb as [_ ->]. by repeat split. }
  apply check_block_inr in Hcb as [_ ->].
  destruct (String.eqb kind "command").
  { pose proof (evict_length (now - 60) (window (user_commands st) u)) as Hlen.
    assert (Z.of_nat (length (window (user_commands st) u))
            ≤ commands_per_minute st) as Hold.
    { unfold window. destruct (user_commands st !! u) as [q|] eqn:Hq; simpl.
      - by apply (Hwc u q).
      - done. }
    simpl.
    destruct (_ >=? _) eqn:Hge; simpl; (split; [split|by repeat split]);
      simpl; try done.
    - apply map_Forall_insert_2; [lia|done].
    - apply map_Forall_insert_2; [|done].
      rewrite length_app. simpl. lia. }
  destruct (String.eqb kind "task").
  { pose proof (evict_length (now - 3600) (window (user_tasks_created st) u)) as Hlen.
    assert (Z.of_nat (length (window (user_tasks_created st) u))
            ≤ tasks_per_hour st) as Hold.
    { unfold window. destruct (user_tasks_created st !! u) as [q|] eqn:Hq; simpl.
      - by apply (Hwt u q).
      - done. }
    simpl.
    destruct (_ >=? _) eqn:Hge; simpl; (split; [split|by repeat split]);
      simpl; try done.
    - apply map_Forall_insert_2; [lia|done].
    - apply map_Forall_insert_2; [|done].
      rewrite length_app. simpl. lia. }
  by repeat split.
Qed.

Lemma run_within_limits reqs st :
  0 ≤ commands_per_minute st → 0 ≤ tasks_per_hour st →
  within_limits st →
  within_limits (run reqs st) ∧ same_config st (run reqs st).
Proof.
  revert st. induction reqs as [|r reqs IH]; intros st Hc Ht Hw.
  { split; [exact Hw|]. by repeat split. }
  change (run (r :: reqs) st)
    with (run reqs (is_rate_limited (req_now r) (req_user r) (req_kind r) st).2).
  destruct (is_rate_limited_preserves (req_now r) (req_user r) (req_kind r) st)
    as [Hw1 (Hc1 & Ht1 & Hb1)]; [done..|].
  destruct (IH (is_rate_limited (req_now r) (req_user r) (req_kind r) st).2)
    as [Hw2 (Hc2 & Ht2 & Hb2)]; [lia|lia|done|].
  split; [done|]. unfold same_config. repeat split; congruence.
Qed.

Lemma within_limits_init : within_limits RateLimiter_init.
Proof. split; apply map_Forall_empty. Qed.

Lemma window_insert m u q : window (<[u := q]> m) u = q.
Proof. unfold window. by rewrite lookup_insert_eq. Qed.

Lemma window_insert_ne m u v q : u ≠ v → window (<[u := q]> m) v = window m v.
Proof. intros. unfold window. by rewrite lookup_insert_ne. Qed.

Lemma within_limits_window st u :
  0 ≤ commands_per_minute st → 0 ≤ tasks_per_hour st → within_limits st →
  Z.of_nat (length (window (user_commands st) u)) ≤ commands_per_minute st
  ∧ Z.of_nat (length (window (user_tasks_created st) u)) ≤ tasks_per_hour st.
Proof.
  intros Hc Ht [Hwc Hwt]. unfold window. split.
  - destruct (user_commands st !! u) as [q|] eqn:Hq; simpl; [by apply (Hwc u q)|done].
  - destruct (user_tasks_created st !! u) as [q|] eqn:Hq; simpl; [by apply (Hwt u q)|done].
Qed.

Lemma denied_command now u st :
  ¬ actively_blocked now u st →
  commands_per_minute st
    ≤ Z.of_nat (length (evict (now - 60) (window (user_commands st) u))) →
  (is_rate_limited now u "command" st).1 = true
  ∧ window (user_commands (is_rate_limited now u "command" st).2) u
    = evict (now - 60) (window (user_commands st) u).
Proof.
  intros Hnb Hfull. unfold is_rate_limited.
  rewrite check_block_not_blocked; [|exact Hnb]. simpl.
  destruct (_ >=? _) eqn:Hge; [|lia]. simpl. by rewrite window_insert.
Qed.

Lemma denied_task now u st :
  ¬ actively_blocked now u st →
  tasks_per_hour st
    ≤ Z.of_nat (length (evict (now - 3600) (window (user_tasks_created st) u))) →
  (is_rate_limited now u "task" st).1 = true
  ∧ window (user_tasks_created (is_rate_limited now u "task" st).2) u
    = evict (now - 3600) (window (user_tasks_created st) u).
Proof.
  intros Hnb Hfull. unfold is_rate_limited.
  rewrite check_block_not_blocked; [|exact Hnb]. simpl.
  destruct (_ >=? _) eqn:Hge; [|lia]. simpl. by rewrite window_insert.
Qed.

Lemma denied_while_blocked now u kind st :
  actively_blocked now u st →
  is_rate_limited now u kind st
  = (true, incr_blocked_requests (incr_total_requests st)).
Proof.
  intros (b & Hb & Hlt). unfold is_rate_limited, check_block. simpl.
  rewrite Hb. by rewrite (proj2 (Z.ltb_lt now b) Hlt).
Qed.

(** C1.  Starting from a limiter whose windows respect non-negative
    limits (the fresh limiter does), after any sequence of
    [is_rate_limited] calls no window of any user holds more timestamps
    than its configured limit.  A request of a user with an active
    block is denied and touches no window; a request that finds [limit]
    or more entries in the evicted window (60 s for commands, 3600 s
    for tasks) is denied and the window is left as evicted: the
    timestamp of the request is not appended. *)
Theorem window_count_never_exceeds_limit (st0 : RateLimiter) (reqs : list request) :
  0 ≤ commands_per_minute st0 → 0 ≤ tasks_per_hour st0 → within_limits st0 →
  let st := run reqs st0 in
  (∀ u, Z.of_nat (length (window (user_commands st) u)) ≤ commands_per_minute st0
        ∧ Z.of_nat (length (window (user_tasks_created st) u)) ≤ tasks_per_hour st0)
  ∧ (∀ now u kind, actively_blocked now u st →
       (is_rate_limited now u kind st).1 = true
       ∧ user_commands (is_rate_limited now u kind st).2 = user_commands st
       ∧ user_tasks_created (is_rate_limited now u kind st).2 = user_tasks_created st)
  ∧ (∀ now u, ¬ actively_blocked now u st →
       commands_per_minute st0
         ≤ Z.of_nat (length (evict (now - 60) (window (user_commands st) u))) →
       (is_rate_limited now u "command" st).1 = true
       ∧ window (user_commands (is_rate_limited now u "command" st).2) u
         = evict (now - 60) (window (user_commands st) u))
  ∧ (∀ now u, ¬ actively_blocked now u st →
       tasks_per_hour st0
         ≤ Z.of_nat (length (evict (now - 3600) (window (user_tasks_created st) u))) →
       (is_rate_limited now u "task" st).1 = true
       ∧ window (user_tasks_created (is_rate_limited now u "task" st).2) u
         = evict (now - 3600) (window (user_tasks_created st) u)).
Proof.
  intros Hc Ht Hw st.
  destruct (run_within_limits reqs st0 Hc Ht Hw) as [Hw' (Hc' & Ht' & _)].
  fold st in Hw', Hc', Ht'.
  split; [|split; [|split]].
  - intros u. rewrite <- Hc', <- Ht'. apply within_limits_window; [lia|lia|done].
  - intros now u kind Hb. by rewrite denied_while_blocked.
  - intros now u Hnb Hfull. apply denied_command; [done|lia].
  - intros now u Hnb Hfull. apply denied_task; [done|lia].
Qed.

Lemma window_count_never_exceeds_limit_witness :
  let st := run [mkRequest 0 "u" "command"; mkRequest 1 "u" "task";
                 mkRequest 2 "v" "command"] RateLimiter_init in
  (∀ u, Z.of_nat (length (window (user_commands st) u)) ≤ 30
        ∧ Z.of_nat (length (window (user_tasks_created st) u)) ≤ 100)
  ∧ (∀ now u kind, actively_blocked now u st →
       (is_rate_limited now u kind st).1 = true
       ∧ user_commands (is_rate_limited now u kind st).2 = user_commands st
       ∧ user_tasks_created (is_rate_limited now u kind st).2 = user_tasks_created st)
  ∧ (∀ now u, ¬ actively_blocked now u st →
       30 ≤ Z.of_nat (length (evict (now - 60) (window (user_commands st) u))) →
       (is_rate_limited now u "command" st).1 = true
       ∧ window (user_commands (is_rate_limited now u "command" st).2) u
         = evict (now - 60) (window (user_commands st) u))
  ∧ (∀ now u, ¬ actively_blocked now u st →
       100 ≤ Z.of_nat (length (evict (now - 3600) (window (user_tasks_created st) u))) →
       (is_rate_limited now u "task" st).1 = true
       ∧ window (user_tasks_created (is_rate_limited now u "task" st).2) u
         = evict (now - 3600) (window (user_tasks_created st) u)).
Proof.
  apply (window_count_never_exceeds_limit RateLimiter_init);
    [simpl; lia | simpl; lia | apply within_limits_init].
Defined.

Lemma expired_block_cleared now u kind st until :
  blocked_users st !! u = Some until → until ≤ now →
  (is_rate_limited now u kind st).1 = false →
  blocked_users (is_rate_limited now u kind st).2 !! u = None.
Proof.
  intros Hb Hle. unfold is_rate_limited.
  rewrite check_block_not_blocked.
  2:{ intros (b & Hb' & Hlt). simpl in Hb'. assert (b = until) by congruence. lia. }
  simpl.
  destruct (String.eqb kind "command").
  { destruct (_ >=? _); simpl; [done|]. intros _. apply lookup_delete_eq. }
  destruct (String.eqb kind "task").
  { destruct (_ >=? _); simpl; [done|]. intros _. apply lookup_delete_eq. }
  simpl. intros _. apply lookup_delete_eq.
Qed.

(** C3, as amended.  A user is blocked until [t + block_duration] and
    asks again one second later.  The expired block entry is deleted
    first.  A command request is then allowed and leaves the user
    without a block entry, provided the block lasts at least 60 s (300
    by default), [commands_per_minute] is positive and the command
    window holds no timestamp later than [t].  A task request is
    allowed exactly when fewer than [tasks_per_hour] timestamps remain
    in the 3600 s window, and then the user has no block entry;
    otherwise it is denied and the user is blocked again, until
    [now + block_duration]. *)
Theorem request_after_block_expiry (st : RateLimiter) (u : string) (t : Z) :
  blocked_users st !! u = Some (t + block_duration st) →
  let now := t + block_duration st + 1 in
  (* command requests *)
  (60 ≤ block_duration st → 0 < commands_per_minute st →
   Forall (fun x => x ≤ t) (window (user_commands st) u) →
   (is_rate_limited now u "command" st).1 = false
   ∧ blocked_users (is_rate_limited now u "command" st).2 !! u = None)
  (* task requests *)
  ∧ ((is_rate_limited now u "task" st).1 = false
     ↔ Z.of_nat (length (evict (now - 3600) (window (user_tasks_created st) u)))
       < tasks_per_hour st)
  ∧ ((is_rate_limited now u "task" st).1 = false →
     blocked_users (is_rate_limited now u "task" st).2 !! u = None)
  ∧ ((is_rate_limited now u "task" st).1 = true →
     blocked_users (is_rate_limited now u "task" st).2 !! u
     = Some (now + block_duration st)).
Proof.
  intros Hb now.
  assert (¬ actively_blocked now u (incr_total_requests st)) as Hnb.
  { intros (b & Hb' & Hlt). simpl in Hb'.
    assert (b = t + block_duration st) by congruence. lia. }
  split; [|split; [|split]].
  - intros Hbd Hlim Hold.
    assert ((is_rate_limited now u "command" st).1 = false) as Hres.
    { unfold is_rate_limited. rewrite check_block_not_blocked; [|exact Hnb]. simpl.
      rewrite evict_all.
      2:{ eapply Forall_impl; [exact Hold|]. simpl. intros x Hx. lia. }
      simpl length. change (Z.of_nat 0) with 0.
      destruct (0 >=? commands_per_minute st) eqn:Hge; [lia|done]. }
    split; [done|].
    eapply expired_block_cleared; [exact Hb|lia|done].
  - unfold is_rate_limited. rewrite check_block_not_blocked; [|exact Hnb]. simpl.
    destruct (_ >=? _) eqn:Hge; simpl; split; intros; try done; lia.
  - intros Hres. eapply expired_block_cleared; [exact Hb|lia|done].
  - unfold is_rate_limited. rewrite check_block_not_blocked; [|exact Hnb]. simpl.
    destruct (_ >=? _) eqn:Hge; simpl; [|done].
    intros _. by rewrite lookup_insert_eq.
Qed.

Lemma request_after_block_expiry_witness :
  blocked_users blocked_after_31 !! "u" = Some (0 + block_duration blocked_after_31)
  ∧ (is_rate_limited (0 + block_duration blocked_after_31 + 1) "u" "command"
       blocked_after_31).1 = false
  ∧ blocked_users
      (is_rate_limited (0 + block_duration blocked_after_31 + 1) "u" "command"
         blocked_after_31).2 !! "u" = None.
Proof.
  assert (blocked_users blocked_after_31 !! "u"
          = Some (0 + block_duration blocked_after_31)) as Hb
    by (vm_compute; reflexivity).
  split; [exact Hb|].
  apply (proj1 (request_after_block_expiry blocked_after_31 "u" 0 Hb)); clear Hb.
  - vm_compute. intros H. inversion H.
  - vm_compute. reflexivity.
  - apply Forall_forall. intros x Hx. vm_compute in Hx.
    repeat (apply elem_of_cons in Hx as [->|Hx]; [lia|]).
    apply elem_of_nil in Hx. destruct Hx.
Defined.

Lemma request_after_block_expiry_counterexample :
  ¬ (∀ (reqs : list request) (u kind : string) (t : Z),
       let st := run reqs RateLimiter_init in
       kind = "command" ∨ kind = "task" →
       blocked_users st !! u = Some (t + 300) →
       block_duration st = 300 →
       (is_rate_limited (t + 300 + 1) u kind st).1 = false
       ∧ blocked_users (is_rate_limited (t + 300 + 1) u kind st).2 !! u = None).
Proof.
  intros H.
  specialize (H (replicate 101 (mkRequest 0 "u" "task")) "u" "task" 0).
  cbv zeta in H.
  assert ((is_rate_limited (0 + 300 + 1) "u" "task"
             (run (replicate 101 (mkRequest 0 "u" "task")) RateLimiter_init)).1
          = false) as Hres.
  { apply H; clear H.
    - right. reflexivity.
    - vm_compute. reflexivity.
    - vm_compute. reflexivity. }
  clear H. vm_compute in Hres. inversion Hres.
Qed.

(** C9, as amended.  For a user without an active block, a call with a
    [command_type] other than "command" and "task" returns [False],
    leaves both window maps unchanged, increases [total_requests] by one
    and changes no other counter and no limit.  The block map loses the
    user's own expired entry, if there is one, and is otherwise
    unchanged. *)
Theorem unknown_command_type_frame (now : Z) (u kind : string) (st : RateLimiter) :
  kind ≠ "command" → kind ≠ "task" → ¬ actively_blocked now u st →
  let res := is_rate_limited now u kind st in
  res.1 = false
  ∧ user_commands res.2 = user_commands st
  ∧ user_tasks_created res.2 = user_tasks_created st
  ∧ blocked_users res.2 = delete u (blocked_users st)
  ∧ (blocked_users st !! u = None → blocked_users res.2 = blocked_users st)
  ∧ total_requests (performance_stats res.2)
    = total_requests (performance_stats st) + 1
  ∧ blocked_requests (performance_stats res.2)
    = blocked_requests (performance_stats st)
  ∧ cleanup_runs (performance_stats res.2) = cleanup_runs (performance_stats st)
  ∧ same_config st res.2.
Proof.
  intros Hc Ht Hnb res. subst res. unfold is_rate_limited.
  rewrite check_block_not_blocked; [|exact Hnb].
  apply String.eqb_neq in Hc, Ht. rewrite Hc, Ht. simpl.
  repeat split; try done.
  intros Hnone. by apply delete_id.
Qed.

Lemma unknown_command_type_frame_witness :
  let st := run [mkRequest 0 "u" "command"] RateLimiter_init in
  let res := is_rate_limited 5 "u" "help" st in
  res.1 = false
  ∧ user_commands res.2 = user_commands st
  ∧ user_tasks_created res.2 = user_tasks_created st
  ∧ blocked_users res.2 = delete "u" (blocked_users st)
  ∧ (blocked_users st !! "u" = None → blocked_users res.2 = blocked_users st)
  ∧ total_requests (performance_stats res.2)
    = total_requests (performance_stats st) + 1
  ∧ blocked_requests (performance_stats res.2)
    = blocked_requests (performance_stats st)
  ∧ cleanup_runs (performance_stats res.2) = cleanup_runs (performance_stats st)
  ∧ same_config st res.2.
Proof.
  apply (unknown_command_type_frame 5 "u" "help").
  - discriminate.
  - discriminate.
  - intros (b & Hb & _). vm_compute in Hb. discriminate.
Defined.

Lemma unknown_command_type_frame_counterexample :
  ¬ (∀ (now : Z) (u kind : string) (st : RateLimiter),
       kind ≠ "command" → kind ≠ "task" → ¬ actively_blocked now u st →
       (is_rate_limited now u kind st).1 = false
       ∧ blocked_users (is_rate_limited now u kind st).2 = blocked_users st).
Proof.
  intros H.
  destruct (H 400 "u" "help"
              (run (replicate 31 (mkRequest 0 "u" "command")) RateLimiter_init))
    as [_ Hsame].
  - discriminate.
  - discriminate.
  - intros (b & Hb & Hlt). vm_compute in Hb. injection Hb as <-. lia.
  - apply (f_equal (fun m => m !! "u")) in Hsame.
    vm_compute in Hsame. discriminate.
Qed.




Section key_loop.
Context {V : Type}.
Variable step : gmap string V → string → gmap string V.
Variable f : V → option V.
Hypothesis step_same : ∀ acc k, step acc k !! k = acc !! k ≫= f.
Hypothesis step_other : ∀ acc k u, u ≠ k → step acc k !! u = acc !! u.

Lemma key_loop_lookup (l : list string) (acc : gmap string V) (u : string) :
  NoDup l →
  foldl step acc l !! u = if decide (u ∈ l) then acc !! u ≫= f else acc !! u.
Proof.
  intros Hnd. revert acc.
  induction Hnd as [|k l Hk Hnd IH]; intros acc; cbn [foldl].
  { destruct (decide (u ∈ [])) as [Hin|_]; [|reflexivity].
    by apply elem_of_nil in Hin. }
  rewrite IH. destruct (decide (u = k)) as [->|Hne].
  - destruct (decide (k ∈ l)) as [Hin|_]; [done|].
    destruct (decide (k ∈ k :: l)) as [_|Hnin]; [apply step_same|].
    exfalso. apply Hnin. apply elem_of_cons; by left.
  - rewrite step_other; [|done].
    destruct (decide (u ∈ l)) as [Hin|Hnin];
      destruct (decide (u ∈ k :: l)) as [Hin'|Hnin']; try reflexivity.
    + exfalso. apply Hnin'. apply elem_of_cons; by right.
    + exfalso. apply elem_of_cons in Hin' as [->|?]; done.
Qed.

Lemma key_loop_all (m : gmap string V) (u : string) :
  foldl step m (keys m) !! u = m !! u ≫= f.
Proof.
  rewrite key_loop_lookup; [|apply NoDup_fst_map_to_list].
  destruct (decide (u ∈ keys m)) as [Hin|Hnin]; [done|].
  destruct (m !! u) as [v|] eqn:Hv; [|done].
  exfalso. apply Hnin. unfold keys. apply list_elem_of_fmap.
  exists (u, v). split; [done|]. by apply elem_of_map_to_list.
Qed.
End key_loop.

Lemma cleanup_windows_lookup cutoff m u :
  cleanup_windows cutoff m !! u = m !! u ≫= trimmed cutoff.
Proof.
  unfold cleanup_windows. apply key_loop_all.
  - intros acc k. unfold cleanup_key, trimmed.
    destruct (acc !! k) as [q|] eqn:Hq; simpl; [|done].
    destruct (evict cutoff q); [apply lookup_delete_eq|apply lookup_insert_eq].
  - intros acc k v Hne. unfold cleanup_key.
    destruct (acc !! k) as [q|] eqn:Hq; [|done].
    destruct (evict cutoff q); [by apply lookup_delete_ne|by apply lookup_insert_ne].
Qed.

Lemma cleanup_blocks_lookup now m u :
  cleanup_blocks now m !! u = m !! u ≫= still_blocked now.
Proof.
  unfold cleanup_blocks. apply key_loop_all.
  - intros acc k. unfold cleanup_block_key, still_blocked.
    destruct (acc !! k) as [b|] eqn:Hb; simpl; [|done].
    destruct (now >=? b); [apply lookup_delete_eq|done].
  - intros acc k v Hne. unfold cleanup_block_key.
    destruct (acc !! k) as [b|] eqn:Hb; [|done].
    destruct (now >=? b); [by apply lookup_delete_ne|done].
Qed.

Lemma window_cleanup cutoff m u :
  window (cleanup_windows cutoff m) u = evict cutoff (window m u).
Proof.
  unfold window. rewrite cleanup_windows_lookup.
  destruct (m !! u) as [q|]; simpl; [|done].
  unfold trimmed. by destruct (evict cutoff q).
Qed.

Lemma cleanup_windows_None cutoff m u :
  cleanup_windows cutoff m !! u = None ↔ evict cutoff (window m u) = [].
Proof.
  unfold window. rewrite cleanup_windows_lookup.
  destruct (m !! u) as [q|]; simpl; [|done].
  unfold trimmed. destruct (evict cutoff q); split; done.
Qed.

Lemma cleanup_blocks_None now m u :
  cleanup_blocks now m !! u = None ↔ ¬ ∃ until, m !! u = Some until ∧ now < until.
Proof.
  rewrite cleanup_blocks_lookup.
  destruct (m !! u) as [b|]; simpl.
  - unfold still_blocked. destruct (now >=? b) eqn:Hge; split.
    + intros _ (b' & [= <-] & ?). lia.
    + done.
    + done.
    + intros H. exfalso. apply H. exists b. split; [done|lia].
  - split; [|done]. by intros _ (b' & ? & _).
Qed.

Lemma evict_live c p t rest :
  Forall (fun t => t < c) p → c ≤ t → evict c (p ++ t :: rest) = t :: rest.
Proof.
  intros Hp Ht. induction Hp as [|x p Hx _ IH]; simpl.
  - by rewrite (proj2 (Z.ltb_ge t c) Ht).
  - by rewrite (proj2 (Z.ltb_lt x c) Hx).
Qed.

Lemma evict_nil_iff c q : evict c q = [] ↔ all_expired c q.
Proof.
  split; [|apply evict_all]. intros H.
  destruct (evict_suffix c q) as (p & Hq & Hp). rewrite H, app_nil_r in Hq. by subst.
Qed.

Lemma evict_cons_iff c q q' :
  q' ≠ [] → evict c q = q' ↔ from_first_live c q q'.
Proof.
  intros Hne. split.
  - intros H. destruct (evict_suffix c q) as (p & Hq & Hp). rewrite H in Hq.
    destruct q' as [|t rest]; [done|]. exists p, t, rest.
    repeat split; try done. by eapply evict_head.
  - intros (p & t & rest & -> & Hp & Ht & ->). by apply evict_live.
Qed.

Lemma cleanup_windows_entry cutoff m u :
  match m !! u with
  | None => cleanup_windows cutoff m !! u = None
  | Some q =>
      (all_expired cutoff q → cleanup_windows cutoff m !! u = None)
      ∧ (∀ q', from_first_live cutoff q q' → cleanup_windows cutoff m !! u = Some q')
      ∧ (cleanup_windows cutoff m !! u = None → all_expired cutoff q)
      ∧ (∀ q', cleanup_windows cutoff m !! u = Some q' → from_first_live cutoff q q')
  end.
Proof.
  rewrite cleanup_windows_lookup. destruct (m !! u) as [q|]; simpl; [|done].
  unfold trimmed. destruct (evict cutoff q) as [|t rest] eqn:He.
  - apply evict_nil_iff in He as Hall. repeat split; try done.
    intros q' (p & t & rest & -> & Hp & Ht & ->).
    by rewrite evict_live in He.
  - assert (from_first_live cutoff q (t :: rest)) as Hlive by (by apply evict_cons_iff).
    repeat split.
    + intros Hall. apply evict_nil_iff in Hall. congruence.
    + intros q' Hq'. assert (q' ≠ []) as Hne.
      { destruct Hq' as (? & ? & ? & _ & _ & _ & ->). done. }
      apply (evict_cons_iff cutoff q q' Hne) in Hq'. congruence.
    + done.
    + by intros q' [= <-].
Qed.

(** C6, as amended.  [cleanup_old_entries] goes through the three maps
    one after the other.  The command window of a user is deleted
    exactly when all of its timestamps are older than [now - 60] (a
    missing one stays missing); otherwise it is kept from its first
    timestamp that is not older than [now - 60] on.  The same holds for
    the task window with [now - 3600].  A block is kept exactly when it
    has not expired.  So the user has no entry left in any map if and
    only if all timestamps of both windows have expired and there is no
    active block; but an active block, or a live entry in the other
    window, does not keep a window whose timestamps have all expired:
    that entry is deleted. *)
Theorem cleanup_removes_idle_users (now : Z) (st : RateLimiter) (u : string) :
  let st' := cleanup_old_entries now st in
  (¬ tracked st' u
   ↔ all_expired (now - 60) (window (user_commands st) u)
     ∧ all_expired (now - 3600) (window (user_tasks_created st) u)
     ∧ ¬ actively_blocked now u st)
  ∧ (user_commands st' !! u = None
     ↔ all_expired (now - 60) (window (user_commands st) u))
  ∧ (∀ q', user_commands st' !! u = Some q'
           ↔ from_first_live (now - 60) (window (user_commands st) u) q')
  ∧ (user_tasks_created st' !! u = None
     ↔ all_expired (now - 3600) (window (user_tasks_created st) u))
  ∧ (∀ q', user_tasks_created st' !! u = Some q'
           ↔ from_first_live (now - 3600) (window (user_tasks_created st) u) q')
  ∧ (blocked_users st' !! u = None ↔ ¬ actively_blocked now u st)
  ∧ (∀ until, blocked_users st' !! u = Some until
              ↔ blocked_users st !! u = Some until ∧ now < until).
Proof.
  intros st'.
  assert (∀ cutoff m,
            (cleanup_windows cutoff m !! u = None ↔ all_expired cutoff (window m u))
            ∧ (∀ q', cleanup_windows cutoff m !! u = Some q'
                     ↔ from_first_live cutoff (window m u) q')) as Hwin.
  { intros cutoff m. pose proof (cleanup_windows_entry cutoff m u) as H.
    unfold window. destruct (m !! u) as [q|]; simpl.
    - destruct H as (H1 & H2 & H3 & H4). split; [split; done|].
      intros q'. split; [apply H4|apply H2].
    - rewrite H. split; [split; [by constructor|done]|].
      intros q'. split; [done|]. intros (p & t & rest & Hq & _). by destruct p. }
  assert (∀ until, blocked_users st' !! u = Some until
                   ↔ blocked_users st !! u = Some until ∧ now < until) as Hblock.
  { intros b'. subst st'. unfold cleanup_old_entries. simpl.
    rewrite cleanup_blocks_lookup. destruct (blocked_users st !! u) as [b|]; simpl.
    - unfold still_blocked. destruct (now >=? b) eqn:Hge.
      + split; [done|]. intros [[= ->] ?]. lia.
      + split; [intros [= ->]; split; [done|lia]|]. by intros [[= ->] _].
    - split; [done|]. by intros [? _]. }
  assert (blocked_users st' !! u = None ↔ ¬ actively_blocked now u st) as Hnone.
  { unfold actively_blocked. split.
    - intros Hn (until & Hu & Hlt). assert (blocked_users st' !! u = Some until) as Hs
        by (by apply Hblock). congruence.
    - intros Hn. destruct (blocked_users st' !! u) as [until|] eqn:E; [|done].
      exfalso. apply Hn. exists until. by apply Hblock. }
  destruct (Hwin (now - 60) (user_commands st)) as [Hc1 Hc2].
  destruct (Hwin (now - 3600) (user_tasks_created st)) as [Ht1 Ht2].
  change (user_commands st') with (cleanup_windows (now - 60) (user_commands st)).
  change (user_tasks_created st')
    with (cleanup_windows (now - 3600) (user_tasks_created st)).
  split; [|done].
  unfold tracked.
  change (user_commands st') with (cleanup_windows (now - 60) (user_commands st)).
  change (user_tasks_created st')
    with (cleanup_windows (now - 3600) (user_tasks_created st)).
  rewrite <- Hc1, <- Ht1, <- Hnone. rewrite !eq_None_not_Some. tauto.
Qed.

(** A blocked user whose timestamps have all expired loses the window
    entry: the limiter after 31 commands at time 0, cleaned at 100. *)
Lemma cleanup_removes_idle_users_counterexample :
  actively_blocked 100 "u" blocked_after_31
  ∧ is_Some (user_commands blocked_after_31 !! "u")
  ∧ user_commands (cleanup_old_entries 100 blocked_after_31) !! "u" = None
  ∧ active_users (get_stats blocked_after_31) = 1%nat
  ∧ active_users (get_stats (cleanup_old_entries 100 blocked_after_31)) = 0%nat.
Proof.
  split; [|split; [|split; [|split]]].
  - exists 300. split; [vm_compute; reflexivity|lia].
  - vm_compute. eexists. reflexivity.
  - vm_compute. reflexivity.
  - vm_compute. reflexivity.
  - vm_compute. reflexivity.
Qed.

(** ** Persistence *)

Lemma bind_Ok {A B} (m : M A) (k : A → M B) st a st' :
  m st = Ok a st' → (m ≫= k) st = k a st'.
Proof. intros H. unfold mbind, M_bind. by rewrite H. Qed.

Lemma bind_Raise {A B} (m : M A) (k : A → M B) st st' :
  m st = Raise st' → (m ≫= k) st = Raise st'.
Proof. intros H. unfold mbind, M_bind. by rewrite H. Qed.

Lemma as_numbers_fmap q : as_numbers (JNum <$> q) = Some q.
Proof.
  induction q as [|z q IH]; [done|].
  rewrite fmap_cons. cbn [as_numbers]. by rewrite IH.
Qed.

Lemma to_deque_numbers q st : to_deque (JArr (JNum <$> q)) st = Ok q st.
Proof. unfold to_deque. by rewrite as_numbers_fmap. Qed.

Lemma load_windows_saved store l st :
  load_windows store ((fun '(uid, q) => (uid, JArr (JNum <$> q))) <$> l) st
  = Ok tt (store_all store l st).
Proof.
  revert st. induction l as [|[uid q] l IH]; intros st; [done|].
  rewrite fmap_cons. cbn [load_windows].
  erewrite bind_Ok; [|apply to_deque_numbers].
  erewrite bind_Ok; [|reflexivity]. apply IH.
Qed.

Lemma foldl_insert {V} (l : list (string * V)) (acc : gmap string V) :
  foldl (fun m kv => <[kv.1 := kv.2]> m) acc l = list_to_map (reverse l) ∪ acc.
Proof.
  revert acc. induction l as [|[k v] l IH]; intros acc; simpl.
  { by rewrite (left_id_L ∅ (∪)). }
  rewrite IH, reverse_cons, list_to_map_app. simpl.
  rewrite <- (assoc_L (∪)). f_equal.
  rewrite insert_union_singleton_l. by rewrite insert_empty.
Qed.

Lemma foldl_insert_map_to_list {V} (m : gmap string V) :
  foldl (fun acc kv => <[kv.1 := kv.2]> acc) ∅ (map_to_list m) = m.
Proof.
  rewrite foldl_insert, (right_id_L ∅ (∪)).
  rewrite <- (list_to_map_to_list m) at 2.
  apply list_to_map_proper.
  - eapply NoDup_Permutation_proper; [|apply (NoDup_fst_map_to_list m)].
    apply fmap_Permutation. apply reverse_Permutation.
  - apply reverse_Permutation.
Qed.

Lemma copy_blocked_saved (l : list (string * Z)) st :
  NoDup l.*1 →
  copy_blocked ((fun '(uid, until) => (uid, JNum until)) <$> l) st
  = Ok (list_to_map l) st.
Proof.
  intros Hnd. induction l as [|[k v] l IH]; [done|].
  rewrite fmap_cons. cbn [copy_blocked].
  apply NoDup_cons in Hnd as [Hk Hnd].
  erewrite bind_Ok; [|reflexivity].
  erewrite bind_Ok; [|by apply IH].
  unfold mret, M_ret. f_equal.
  rewrite (not_elem_of_list_to_map_1 _ _ Hk). done.
Qed.

Lemma get_dict_user_commands st s :
  get_dict (save_data st) "user_commands" s
  = Ok ((fun '(uid, q) => (uid, JArr (JNum <$> q))) <$> map_to_list (user_commands st)) s.
Proof. reflexivity. Qed.

Lemma get_dict_user_tasks_created st s :
  get_dict (save_data st) "user_tasks_created" s
  = Ok ((fun '(uid, q) => (uid, JArr (JNum <$> q)))
          <$> map_to_list (user_tasks_created st)) s.
Proof. reflexivity. Qed.

Lemma get_dict_blocked_users st s :
  get_dict (save_data st) "blocked_users" s
  = Ok ((fun '(uid, until) => (uid, JNum until)) <$> map_to_list (blocked_users st)) s.
Proof. reflexivity. Qed.

Lemma get_dict_config st s :
  get_dict (save_data st) "config" s
  = Ok [("commands_per_minute", JNum (commands_per_minute st));
        ("tasks_per_hour", JNum (tasks_per_hour st));
        ("block_duration", JNum (block_duration st))] s.
Proof. reflexivity. Qed.

Lemma stats_update_saved st s :
  stats_update (save_data st) s = Ok tt (set_performance_stats (performance_stats st) s).
Proof. destruct st as [? ? ? ? ? ? []]. reflexivity. Qed.

Lemma store_all_user_commands l s :
  store_all (fun uid q st => set_user_commands (<[uid := q]> (user_commands st)) st) l s
  = set_user_commands
      (foldl (fun m kv => <[kv.1 := kv.2]> m) (user_commands s) l) s.
Proof.
  revert s. induction l as [|[k v] l IH]; intros s.
  { by destruct s. }
  unfold store_all in *. cbn [foldl]. rewrite IH. reflexivity.
Qed.

Lemma store_all_user_tasks_created l s :
  store_all (fun uid q st =>
               set_user_tasks_created (<[uid := q]> (user_tasks_created st)) st) l s
  = set_user_tasks_created
      (foldl (fun m kv => <[kv.1 := kv.2]> m) (user_tasks_created s) l) s.
Proof.
  revert s. induction l as [|[k v] l IH]; intros s.
  { by destruct s. }
  unfold store_all in *. cbn [foldl]. rewrite IH. reflexivity.
Qed.

Lemma load_body_saved st st0 : load_body (save_data st) st0 = Ok tt st.
Proof.
  unfold load_body.
  erewrite bind_Ok; [|reflexivity].
  erewrite bind_Ok; [|reflexivity].
  erewrite bind_Ok; [|apply get_dict_user_commands].
  erewrite bind_Ok; [|apply load_windows_saved].
  erewrite bind_Ok; [|apply get_dict_user_tasks_created].
  erewrite bind_Ok; [|apply load_windows_saved].
  erewrite bind_Ok; [|apply get_dict_blocked_users].
  erewrite bind_Ok; [|apply copy_blocked_saved, NoDup_fst_map_to_list].
  erewrite bind_Ok; [|reflexivity].
  erewrite bind_Ok; [|apply stats_update_saved].
  erewrite bind_Ok; [|apply get_dict_config].
  erewrite bind_Ok; [|reflexivity].
  erewrite bind_Ok; [|reflexivity].
  erewrite bind_Ok; [|reflexivity].
  erewrite bind_Ok; [|reflexivity].
  erewrite bind_Ok; [|reflexivity].
  rewrite store_all_user_commands, store_all_user_tasks_created.
  unfold modify. f_equal.
  destruct st; simpl.
  unfold set_block_duration, set_user_commands; simpl.
  rewrite !foldl_insert_map_to_list, list_to_map_to_list. reflexivity.
Qed.

(** C5.  Loading the snapshot that [_save_state] wrote, into a limiter
    in any state, yields exactly the saved state: the same timestamp
    sequence for every user in both window maps, the same block map,
    the same counters and the same three limits. *)
Theorem save_load_roundtrip (st st0 : RateLimiter) (file : snapshot_file) :
  _load_state (_save_state true file st).1 st0 = (Returns, Some st, [InfoStateLoaded]).
Proof. simpl. by rewrite load_body_saved. Qed.

Section monad_facts.
Variable P : RateLimiter → Prop.

Lemma keeps_bind {A B} (m : M A) (k : A → M B) :
  keeps P m → (∀ a, keeps P (k a)) → keeps P (m ≫= k).
Proof.
  intros Hm Hk st HP. specialize (Hm st HP). unfold mbind, M_bind.
  destruct (m st) as [a s|s|]; [|done..]. by apply Hk.
Qed.

Lemma total_bind {A B} (m : M A) (k : A → M B) :
  total m → (∀ a, total (k a)) → total (m ≫= k).
Proof.
  intros Hm Hk st. specialize (Hm st). unfold mbind, M_bind.
  destruct (m st) as [a s|s|]; [|done..]. apply Hk.
Qed.

Lemma keeps_then_total {A B} (m : M A) (k : A → M B) :
  keeps P m → (∀ a, total (k a)) → keeps_on_raise P (m ≫= k).
Proof.
  intros Hm Hk st st' HP. specialize (Hm st HP). unfold mbind, M_bind.
  destruct (m st) as [a s|s|]; [|by intros [= <-]|done].
  intros Hr. specialize (Hk a s). by rewrite Hr in Hk.
Qed.

Lemma keeps_bind_on_raise {A B} (m : M A) (k : A → M B) :
  keeps P m → (∀ a, keeps_on_raise P (k a)) → keeps_on_raise P (m ≫= k).
Proof.
  intros Hm Hk st st' HP. specialize (Hm st HP). unfold mbind, M_bind.
  destruct (m st) as [a s|s|]; [|by intros [= <-]|done].
  by apply Hk.
Qed.

Lemma keeps_modify f : (∀ st, P st → P (f st)) → keeps P (modify f).
Proof. intros Hf st HP. by apply Hf. Qed.

Lemma keeps_pure {A} (m : M A) :
  (∀ st, match m st with Ok _ s => s = st | Raise s => s = st | Untyped => True end) →
  keeps P m.
Proof.
  intros Hm st HP. specialize (Hm st).
  destruct (m st) as [a s|s|]; by subst.
Qed.
End monad_facts.

Lemma get_dict_pure data key st :
  match get_dict data key st with
  | Ok _ s => s = st | Raise s => s = st | Untyped => True
  end.
Proof.
  unfold get_dict. destruct data; try done.
  destruct (members_get key members) as [[]|]; done.
Qed.

Lemma to_deque_pure lst st :
  match to_deque lst st with
  | Ok _ s => s = st | Raise s => s = st | Untyped => True
  end.
Proof.
  unfold to_deque. destruct lst as [| | |s|items|members]; try done.
  - by destruct (String.eqb s "").
  - by destruct (as_numbers items).
  - by destruct members.
Qed.

Lemma as_number_total_pure v st :
  match as_number v st with
  | Ok _ s => s = st | Raise _ => False | Untyped => True
  end.
Proof. by destruct v. Qed.

Lemma cfg_get_total_pure cfg key cur st :
  match cfg_get cfg key cur st with
  | Ok _ s => s = st | Raise _ => False | Untyped => True
  end.
Proof.
  unfold cfg_get. destruct (members_get key cfg); [apply as_number_total_pure|done].
Qed.

Lemma copy_blocked_total_pure d st :
  match copy_blocked d st with
  | Ok _ s => s = st | Raise _ => False | Untyped => True
  end.
Proof.
  induction d as [|[k v] d IH]; [done|]. cbn [copy_blocked].
  unfold mbind, M_bind.
  pose proof (as_number_total_pure v st) as Hv.
  destruct (as_number v st) as [z s| |]; [subst s|done..].
  destruct (copy_blocked d st) as [m s| |]; [subst s|done..]. done.
Qed.

Lemma keeps_load_windows P store d :
  (∀ uid q st, P st → P (store uid q st)) → keeps P (load_windows store d).
Proof.
  intros Hstore. induction d as [|[uid lst] d IH]; [by intros st HP|].
  cbn [load_windows]. apply keeps_bind.
  { apply keeps_pure, to_deque_pure. }
  intros q. apply keeps_bind; [|done].
  apply keeps_modify. intros st. apply Hstore.
Qed.

Lemma keeps_update_stats P d :
  (∀ p st, P st → P (set_performance_stats p st)) → keeps P (update_stats d).
Proof.
  intros Hset. induction d as [|[k v] d IH]; [by intros st HP|].
  cbn [update_stats]. apply keeps_bind.
  { apply keeps_pure. intros st. pose proof (as_number_total_pure v st) as H.
    by destruct (as_number v st). }
  intros z. apply keeps_bind; [by apply keeps_pure|].
  intros p. destruct (update_stat k z p) as [p'|]; [|done].
  apply keeps_bind; [|done]. apply keeps_modify. intros st. apply Hset.
Qed.

Lemma keeps_stats_update P data :
  (∀ p st, P st → P (set_performance_stats p st)) → keeps P (stats_update data).
Proof.
  intros Hset. unfold stats_update. destruct data as [| | | | |members]; try by intros st HP.
  destruct (members_get "performance_stats" members) as [[| | |s|[|]|d]|];
    try by intros st HP.
  - destruct (String.eqb s ""); by intros st HP.
  - by apply keeps_update_stats.
Qed.

Lemma total_cfg_get cfg key cur : total (cfg_get cfg key cur).
Proof.
  intros st. pose proof (cfg_get_total_pure cfg key cur st) as H.
  by destruct (cfg_get cfg key cur st).
Qed.

Lemma total_modify f : total (modify f).
Proof. by intros st. Qed.

Lemma load_body_keeps_config st1 data :
  keeps_on_raise (same_config st1) (load_body data).
Proof.
  unfold load_body.
  assert (∀ f, (∀ s, same_config st1 s → same_config st1 (f s)) →
               keeps (same_config st1) (modify f)) as Hmod
    by (intros f Hf; by apply keeps_modify).
  apply keeps_bind_on_raise; [by apply Hmod|intros _].
  apply keeps_bind_on_raise; [by apply Hmod|intros _].
  apply keeps_bind_on_raise; [apply keeps_pure, get_dict_pure|intros uc].
  apply keeps_bind_on_raise; [by apply keeps_load_windows|intros _].
  apply keeps_bind_on_raise; [apply keeps_pure, get_dict_pure|intros ut].
  apply keeps_bind_on_raise; [by apply keeps_load_windows|intros _].
  apply keeps_bind_on_raise; [apply keeps_pure, get_dict_pure|intros bu].
  apply keeps_bind_on_raise.
  { apply keeps_pure. intros s. pose proof (copy_blocked_total_pure bu s) as H.
    by destruct (copy_blocked bu s). }
  intros blocked.
  apply keeps_bind_on_raise; [by apply Hmod|intros _].
  apply keeps_bind_on_raise; [by apply keeps_stats_update|intros _].
  apply keeps_then_total; [apply keeps_pure, get_dict_pure|intros cfg].
  apply total_bind; [apply total_cfg_get|intros cpm].
  apply total_bind; [apply total_modify|intros _].
  apply total_bind; [apply total_cfg_get|intros tph].
  apply total_bind; [apply total_modify|intros _].
  apply total_bind; [apply total_cfg_get|intros bd].
  apply total_modify.
Qed.

Lemma load_body_raise_config data st st' :
  load_body data st = Raise st' → same_config st st'.
Proof. apply load_body_keeps_config. done. Qed.

Lemma load_body_not_object data st :
  is_object data = false →
  load_body data st = Raise (set_user_tasks_created ∅ (set_user_commands ∅ st)).
Proof. by destruct data. Qed.

Lemma bind_Ok_inv {A B} (m : M A) (k : A → M B) st b st' :
  (m ≫= k) st = Ok b st' → ∃ a s, m st = Ok a s ∧ k a s = Ok b st'.
Proof.
  unfold mbind, M_bind. destruct (m st) as [a s|s|]; [|done..].
  intros H. by exists a, s.
Qed.

Lemma get_dict_Ok data key st d st' :
  get_dict data key st = Ok d st' →
  st' = st ∧ ∃ members, data = JObj members
    ∧ match members_get key members with
      | None => d = []
      | Some v => v = JObj d
      end.
Proof.
  unfold get_dict. destruct data as [| | | | |members]; try done.
  destruct (members_get key members) as [[]|] eqn:E; try done.
  - intros [= <- <-]. split; [done|]. exists members. by rewrite E.
  - intros [= <- <-]. split; [done|]. exists members. by rewrite E.
Qed.

Lemma bind_Raise_inv {A B} (m : M A) (k : A → M B) st st' :
  (m ≫= k) st = Raise st' →
  m st = Raise st' ∨ ∃ a s, m st = Ok a s ∧ k a s = Raise st'.
Proof.
  unfold mbind, M_bind. destruct (m st) as [a s|s|] eqn:E.
  - intros H. right. by exists a, s.
  - intros H. left. congruence.
  - intros H. discriminate H.
Qed.

Lemma as_numbers_Some items q : as_numbers items = Some q → items = JNum <$> q.
Proof.
  revert q. induction items as [|v items IH]; intros q; simpl.
  { by intros [= <-]. }
  destruct v; try done. destruct (as_numbers items) as [q0|]; [|done].
  simpl. intros [= <-]. by rewrite (IH q0).
Qed.

Lemma to_deque_Ok lst st q st' : to_deque lst st = Ok q st' → st' = st ∧ reads_as lst q.
Proof.
  unfold to_deque. destruct lst as [| | |s|items|members]; try done.
  - destruct (String.eqb s "") eqn:Hs; [|done]. apply String.eqb_eq in Hs as ->.
    intros [= <- <-]. split; [done|constructor].
  - destruct (as_numbers items) as [q0|] eqn:Hq; [|done].
    intros [= <- <-]. apply as_numbers_Some in Hq as ->. split; [done|constructor].
  - destruct members; [|done]. intros [= <- <-]. split; [done|constructor].
Qed.

Lemma to_deque_Raise lst st st' : to_deque lst st = Raise st' → st' = st ∧ unreadable lst.
Proof.
  unfold to_deque, unreadable. destruct lst as [|b|z|s|items|members]; try done.
  - intros [= <-]. split; [done|by left].
  - intros [= <-]. split; [done|]. right; left. by exists b.
  - intros [= <-]. split; [done|]. right; right. by exists z.
  - by destruct (String.eqb s "").
  - by destruct (as_numbers items).
  - by destruct members.
Qed.

Lemma load_windows_Ok store d st st' :
  load_windows store d st = Ok tt st' →
  ∃ read, decoded d read ∧ st' = store_all store read st.
Proof.
  revert st. induction d as [|[uid lst] d IH]; intros st; cbn [load_windows].
  { intros [= <-]. exists []. split; [constructor|done]. }
  intros H. apply bind_Ok_inv in H as (q & s & Hq & H).
  apply to_deque_Ok in Hq as [-> Hq].
  apply bind_Ok_inv in H as ([] & s & [= <-] & H).
  apply IH in H as (read & Hd & ->).
  exists ((uid, q) :: read). split; [by constructor|done].
Qed.

Lemma load_windows_Raise store d st st' :
  load_windows store d st = Raise st' →
  ∃ pre uid lst rest read,
    d = pre ++ (uid, lst) :: rest ∧ decoded pre read ∧ unreadable lst
    ∧ st' = store_all store read st.
Proof.
  revert st. induction d as [|[uid lst] d IH]; intros st; cbn [load_windows]; [done|].
  intros H. apply bind_Raise_inv in H as [H|(q & s & Hq & H)].
  { apply to_deque_Raise in H as [-> Hu].
    exists [], uid, lst, d, []. repeat split; [constructor|done]. }
  apply to_deque_Ok in Hq as [-> Hq].
  apply bind_Raise_inv in H as [H|([] & s & [= <-] & H)]; [done|].
  apply IH in H as (pre & uid' & lst' & rest & read & -> & Hd & Hu & ->).
  exists ((uid, lst) :: pre), uid', lst', rest, ((uid, q) :: read).
  repeat split; [by constructor|done].
Qed.

Lemma get_dict_Raise data key st st' :
  get_dict data key st = Raise st' →
  st' = st ∧ ∀ members, data = JObj members →
    match members_get key members with
    | None | Some (JObj _) => False
    | Some _ => True
    end.
Proof.
  unfold get_dict. destruct data as [| | | | |members]; try by intros [= <-].
  destruct (members_get key members) as [[]|] eqn:E; try done;
    intros [= <-]; (split; [done|]); intros m [= <-]; by rewrite E.
Qed.

Lemma get_dict_section members key st d :
  get_dict (JObj members) key st = Ok d st →
  members_get key members = None ∧ d = [] ∨ members_get key members = Some (JObj d).
Proof.
  intros H. apply get_dict_Ok in H as (_ & m & [= <-] & H).
  destruct (members_get key members) as [v|]; [right; by subst|by left].
Qed.

Lemma entries_read_all members key st d read :
  get_dict (JObj members) key st = Ok d st → decoded d read →
  entries_read (members_get key members) read true.
Proof.
  intros H Hd. apply get_dict_section in H as [[-> ->]| ->]; simpl.
  - by inversion Hd.
  - exists d, []. by rewrite app_nil_r.
Qed.

Lemma entries_read_part members key st pre uid lst rest read :
  get_dict (JObj members) key st = Ok (pre ++ (uid, lst) :: rest) st →
  decoded pre read → unreadable lst →
  entries_read (members_get key members) read false.
Proof.
  intros H Hd Hu. apply get_dict_section in H as [[_ H]| ->]; simpl.
  - by destruct pre.
  - exists pre, ((uid, lst) :: rest). repeat split; [done|]. by exists uid, lst, rest.
Qed.

Lemma entries_read_none members key st st' :
  get_dict (JObj members) key st = Raise st' →
  entries_read (members_get key members) [] false.
Proof.
  intros H. apply get_dict_Raise in H as [_ H]. specialize (H members eq_refl).
  by destruct (members_get key members) as [[]|].
Qed.

Lemma keeps_copy_blocked P d : keeps P (copy_blocked d).
Proof.
  apply keeps_pure. intros s. pose proof (copy_blocked_total_pure d s) as H.
  by destruct (copy_blocked d s).
Qed.

Lemma keeps_cfg_get P cfg key cur : keeps P (cfg_get cfg key cur).
Proof.
  apply keeps_pure. intros s. pose proof (cfg_get_total_pure cfg key cur s) as H.
  by destruct (cfg_get cfg key cur s).
Qed.

Lemma store_all_commands_fields read st :
  let st' := store_all (fun uid q st =>
                          set_user_commands (<[uid := q]> (user_commands st)) st) read
               (set_user_tasks_created ∅ (set_user_commands ∅ st)) in
  user_commands st' = window_map read ∧ user_tasks_created st' = ∅
  ∧ blocked_users st' = blocked_users st ∧ performance_stats st' = performance_stats st.
Proof. cbv zeta. by rewrite store_all_user_commands. Qed.

Lemma store_all_tasks_fields read s :
  let st' := store_all (fun uid q st =>
                          set_user_tasks_created (<[uid := q]> (user_tasks_created st)) st)
               read s in
  user_commands st' = user_commands s
  ∧ user_tasks_created st' = foldl (fun m kv => <[kv.1 := kv.2]> m) (user_tasks_created s) read
  ∧ blocked_users st' = blocked_users s ∧ performance_stats st' = performance_stats s.
Proof. cbv zeta. by rewrite store_all_user_tasks_created. Qed.

(** Where a load that raised stopped, and what it had stored. *)
Lemma load_body_Raise members st st' :
  load_body (JObj members) st = Raise st' →
  ∃ read_c read_t,
    user_commands st' = window_map read_c
    ∧ user_tasks_created st' = window_map read_t
    ∧ ((entries_read (members_get "user_commands" members) read_c false
        ∧ read_t = []
        ∧ blocked_users st' = blocked_users st
        ∧ performance_stats st' = performance_stats st)
       ∨ (entries_read (members_get "user_commands" members) read_c true
          ∧ entries_read (members_get "user_tasks_created" members) read_t false
          ∧ blocked_users st' = blocked_users st
          ∧ performance_stats st' = performance_stats st)
       ∨ (entries_read (members_get "user_commands" members) read_c true
          ∧ entries_read (members_get "user_tasks_created" members) read_t true)).
Proof.
  unfold load_body. intros H.
  apply bind_Raise_inv in H as [H|([] & s & [= <-] & H)]; [done|].
  apply bind_Raise_inv in H as [H|([] & s & [= <-] & H)]; [done|].
  set (cleared := set_user_tasks_created ∅ (set_user_commands ∅ st)) in *.
  apply bind_Raise_inv in H as [H|(uc & s & Huc & H)].
  { pose proof (entries_read_none _ _ _ _ H) as Hr.
    apply get_dict_Raise in H as [-> _]. exists [], []. split; [done|]. split; [done|].
    left. done. }
  destruct (get_dict_Ok _ _ _ _ _ Huc) as [-> _].
  apply bind_Raise_inv in H as [H|([] & s3 & H3 & H)].
  { apply load_windows_Raise in H as (pre & uid & lst & rest & read & -> & Hd & Hu & ->).
    destruct (store_all_commands_fields read st) as (Hc & Ht & Hb & Hp).
    exists read, []. fold cleared in Hc, Ht, Hb, Hp.
    split; [done|]. split; [done|]. left.
    split; [by eapply entries_read_part|done]. }
  apply load_windows_Ok in H3 as (read_c & Hdc & ->).
  destruct (store_all_commands_fields read_c st) as (Hc & Ht & Hb & Hp).
  fold cleared in Hc, Ht, Hb, Hp.
  set (s3 := store_all _ read_c cleared) in *.
  pose proof (entries_read_all _ _ _ _ _ Huc Hdc) as Hall_c.
  apply bind_Raise_inv in H as [H|(ut & s & Hut & H)].
  { pose proof (entries_read_none _ _ _ _ H) as Hr.
    apply get_dict_Raise in H as [-> _]. exists read_c, [].
    split; [done|]. split; [done|]. right; left. done. }
  destruct (get_dict_Ok _ _ _ _ _ Hut) as [-> _].
  apply bind_Raise_inv in H as [H|([] & s4 & H4 & H)].
  { apply load_windows_Raise in H as (pre & uid & lst & rest & read & -> & Hd & Hu & ->).
    destruct (store_all_tasks_fields read s3) as (Hc' & Ht' & Hb' & Hp').
    exists read_c, read. rewrite Hc', Ht', Hb', Hp', Ht.
    split; [done|]. split; [done|]. right; left.
    split; [done|]. split; [by eapply entries_read_part|done]. }
  apply load_windows_Ok in H4 as (read_t & Hdt & ->).
  destruct (store_all_tasks_fields read_t s3) as (Hc' & Ht' & _ & _).
  set (s4 := store_all _ read_t s3) in *.
  pose proof (entries_read_all _ _ _ _ _ Hut Hdt) as Hall_t.
  exists read_c, read_t.
  assert (user_commands st' = window_map read_c
          ∧ user_tasks_created st' = window_map read_t) as [? ?].
  { rewrite Ht in Ht'. rewrite Hc in Hc'.
    set (P := fun s : RateLimiter =>
                user_commands s = window_map read_c
                ∧ user_tasks_created s = window_map read_t).
    assert (P s4) as HP4 by done.
    revert H. generalize s4 HP4. clear. intros s4 HP4 H.
    match type of H with
    | ?m s4 = Raise st' => assert (keeps P m) as Hk
    end.
    { apply keeps_bind; [apply keeps_pure, get_dict_pure|intros bu].
      apply keeps_bind; [apply keeps_copy_blocked|intros blocked].
      apply keeps_bind; [by apply keeps_modify|intros _].
      apply keeps_bind; [by apply keeps_stats_update|intros _].
      apply keeps_bind; [apply keeps_pure, get_dict_pure|intros cfg].
      apply keeps_bind; [apply keeps_cfg_get|intros cpm].
      apply keeps_bind; [by apply keeps_modify|intros _].
      apply keeps_bind; [apply keeps_cfg_get|intros tph].
      apply keeps_bind; [by apply keeps_modify|intros _].
      apply keeps_bind; [apply keeps_cfg_get|intros bd].
      by apply keeps_modify. }
    specialize (Hk s4 HP4). by rewrite H in Hk. }
  split; [done|]. split; [done|]. right; right. done.
Qed.

(** C8, as amended.  [_load_state] always returns.  Without a snapshot
    file, and with a file that cannot be read or parsed, the limiter is
    left exactly as it was (the second case logs the failure).  When a
    parsed snapshot has the wrong shape the failure is logged and the
    limiter keeps what the statements before the failing one did: the
    three limits still have their previous values, while the window
    maps were cleared and hold the entries read up to that point.  For
    a snapshot that is an object: when the failure is in the
    "user_commands" section, [user_commands] holds the members in front
    of the unreadable one (none when the section is not an object) and
    [user_tasks_created] is empty; when it is in the
    "user_tasks_created" section, [user_commands] holds its whole
    section and [user_tasks_created] the members in front of the
    unreadable one; in both cases blocks and counters are untouched.
    When the failure comes later both windows hold their whole
    sections.  A snapshot that is not an object leaves both window maps
    empty and the rest untouched. *)
Theorem load_state_never_raises (file : snapshot_file) (st : RateLimiter) :
  (_load_state file st).1.1 = Returns
  ∧ (file = Missing → _load_state file st = (Returns, Some st, [InfoNoStateFile]))
  ∧ (file = Unreadable → _load_state file st = (Returns, Some st, [ErrorLoadFailed]))
  ∧ (∀ data st', file = Document data → load_body data st = Raise st' →
       _load_state file st = (Returns, Some st', [ErrorLoadFailed])
       ∧ same_config st st')
  ∧ (∀ data, file = Document data → is_object data = false →
       _load_state file st
       = (Returns, Some (set_user_tasks_created ∅ (set_user_commands ∅ st)),
          [ErrorLoadFailed]))
  ∧ (∀ members st', file = Document (JObj members) →
       load_body (JObj members) st = Raise st' →
       ∃ read_c read_t,
         user_commands st' = window_map read_c
         ∧ user_tasks_created st' = window_map read_t
         ∧ ((entries_read (members_get "user_commands" members) read_c false
             ∧ read_t = []
             ∧ blocked_users st' = blocked_users st
             ∧ performance_stats st' = performance_stats st)
            ∨ (entries_read (members_get "user_commands" members) read_c true
               ∧ entries_read (members_get "user_tasks_created" members) read_t false
               ∧ blocked_users st' = blocked_users st
               ∧ performance_stats st' = performance_stats st)
            ∨ (entries_read (members_get "user_commands" members) read_c true
               ∧ entries_read (members_get "user_tasks_created" members) read_t true))).
Proof.
  split; [|split; [|split; [|split; [|split]]]].
  - destruct file as [| |data]; [done..|]. simpl. by destruct (load_body data st).
  - by intros ->.
  - by intros ->.
  - intros data st' -> Hr. simpl. rewrite Hr. split; [done|].
    by eapply load_body_raise_config.
  - intros data -> Hobj. simpl. by rewrite load_body_not_object.
  - intros members st' _ Hr. by apply load_body_Raise.
Qed.

Lemma load_state_never_raises_counterexample :
  ¬ (∀ (data : json) (st' : RateLimiter),
       load_body data RateLimiter_init = Raise st' →
       _load_state (Document data) RateLimiter_init
       = (Returns, Some RateLimiter_init, [ErrorLoadFailed])).
Proof.
  intros H.
  specialize (H partial_snapshot
                (set_user_commands {["u" := [5]]} RateLimiter_init) eq_refl).
  apply (f_equal (fun r => (r.1.2 ≫= fun s => user_commands s !! "u"))) in H.
  vm_compute in H. discriminate.
Qed.

(** ** Calendar arithmetic *)

Lemma all_from_spec fuel r0 P r :
  all_from fuel r0 P = true → r0 ≤ r < r0 + Z.of_nat fuel → P r = true.
Proof.
  revert r0. induction fuel as [|k IH]; intros r0 Hall Hr; [lia|].
  cbn [all_from] in Hall. destruct (P r0) eqn:Hk; [|done].
  destruct (decide (r = r0)) as [->|Hne]; [done|].
  apply (IH (r0 + 1)); [done|lia].
Qed.

Lemma cycle_checked : all_from (Z.to_nat _DI400Y) 0 cycle_day_ok = true.
Proof. vm_compute. reflexivity. Qed.

Lemma is_leap_shift y q : _is_leap (y + 400 * q) = _is_leap y.
Proof.
  unfold _is_leap.
  replace (y + 400 * q) with (y + (100 * q) * 4) at 1 by lia.
  replace (y + 400 * q) with (y + (4 * q) * 100) at 1 by lia.
  replace (y + 400 * q) with (y + q * 400) by lia.
  by rewrite !Z_mod_plus_full.
Qed.

Lemma days_before_year_shift y q :
  _days_before_year (y + 400 * q) = _days_before_year y + _DI400Y * q.
Proof.
  unfold _days_before_year, _DI400Y. cbv zeta.
  replace (y + 400 * q - 1) with (y - 1 + (100 * q) * 4) at 2 by lia.
  replace (y + 400 * q - 1) with (y - 1 + (4 * q) * 100) at 2 by lia.
  replace (y + 400 * q - 1) with (y - 1 + q * 400) at 2 by lia.
  rewrite !Z_div_plus_full by lia. lia.
Qed.

Lemma days_in_month_shift y m q : _days_in_month (y + 400 * q) m = _days_in_month y m.
Proof. unfold _days_in_month. by rewrite is_leap_shift. Qed.

Lemma ymd2ord_shift y m d q :
  _ymd2ord (y + 400 * q) m d = _ymd2ord y m d + _DI400Y * q.
Proof.
  unfold _ymd2ord, _days_before_month.
  rewrite days_before_year_shift, is_leap_shift. lia.
Qed.

Lemma ord2ymd_shift n q :
  _ord2ymd (n + _DI400Y * q)
  = let '(y, m, d) := _ord2ymd n in (y + 400 * q, m, d).
Proof.
  unfold _ord2ymd. cbv zeta.
  replace (n + _DI400Y * q - 1) with (n - 1 + q * _DI400Y) by lia.
  rewrite Z_div_plus_full, Z_mod_plus_full by done.
  repeat match goal with
         | |- context [if ?c then _ else _] => destruct c
         end; f_equal; try f_equal; lia.
Qed.

Lemma days_before_year_mono y : 10000 ≤ y → _MAXORDINAL ≤ _days_before_year y.
Proof.
  intros Hy. unfold _days_before_year, _MAXORDINAL. cbv zeta.
  Z.to_euclidean_division_equations. lia.
Qed.

Lemma days_before_year_nonneg y : 1 ≤ y → 0 ≤ _days_before_year y.
Proof.
  intros Hy. unfold _days_before_year. cbv zeta.
  Z.to_euclidean_division_equations. lia.
Qed.

Lemma days_before_month_nonneg y m : 1 ≤ m ≤ 12 → 0 ≤ _days_before_month y m.
Proof.
  intros Hm. unfold _days_before_month.
  assert (m = 1 ∨ m = 2 ∨ m = 3 ∨ m = 4 ∨ m = 5 ∨ m = 6 ∨ m = 7 ∨ m = 8
          ∨ m = 9 ∨ m = 10 ∨ m = 11 ∨ m = 12) as Hcases by lia.
  destruct (_ && _);
    repeat (destruct Hcases as [->|Hcases]; [simpl; lia|]); subst; simpl; lia.
Qed.

Lemma ord2ymd_cycle r :
  0 ≤ r < _DI400Y →
  let '(y, m, d) := _ord2ymd (r + 1) in
  1 ≤ y ≤ 400 ∧ 1 ≤ m ≤ 12 ∧ 1 ≤ d ≤ _days_in_month y m
  ∧ _ymd2ord y m d = r + 1.
Proof.
  intros Hr.
  pose proof (all_from_spec _ _ _ r cycle_checked) as Hok.
  unfold cycle_day_ok in Hok.
  destruct (_ord2ymd (r + 1)) as [[y m] d].
  specialize (Hok ltac:(rewrite Z2Nat.id; [done|lia])).
  rewrite !andb_true_iff in Hok. lia.
Qed.

Lemma ord2ymd_ok n :
  1 ≤ n ≤ _MAXORDINAL →
  let '(y, m, d) := _ord2ymd n in
  _check_date_fields y m d = true ∧ _ymd2ord y m d = n.
Proof.
  intros Hn.
  set (q := (n - 1) / _DI400Y). set (r := (n - 1) mod _DI400Y).
  assert (n = r + 1 + _DI400Y * q) as Hnq.
  { pose proof (Z.div_mod (n - 1) _DI400Y ltac:(done)). lia. }
  assert (0 ≤ r < _DI400Y) as Hr by (apply Z.mod_pos_bound; done).
  assert (0 ≤ q) as Hq by (apply Z.div_pos; [lia|done]).
  clearbody q r. subst n. rewrite ord2ymd_shift.
  pose proof (ord2ymd_cycle r Hr) as Hc.
  destruct (_ord2ymd (r + 1)) as [[y m] d].
  destruct Hc as (Hy & Hm & Hd & Hord).
  assert (_ymd2ord (y + 400 * q) m d = r + 1 + _DI400Y * q) as Hord'.
  { rewrite ymd2ord_shift. lia. }
  split; [|done].
  unfold _check_date_fields. rewrite days_in_month_shift.
  assert (y + 400 * q ≤ MAXYEAR).
  { destruct (decide (y + 400 * q ≤ MAXYEAR)) as [|Hbig]; [done|].
    exfalso. unfold MAXYEAR in Hbig.
    pose proof (days_before_year_mono (y + 400 * q) ltac:(lia)).
    pose proof (days_before_month_nonneg (y + 400 * q) m Hm).
    unfold _ymd2ord in Hord'. lia. }
  unfold MINYEAR.
  rewrite !andb_true_iff, !Z.leb_le. lia.
Qed.

Lemma datetime_valid_fields d :
  datetime_valid d = true →
  (1 ≤ year d ≤ MAXYEAR ∧ 1 ≤ month d ≤ 12 ∧ 1 ≤ day d ≤ _days_in_month (year d) (month d))
  ∧ 0 ≤ hour d ≤ 23 ∧ 0 ≤ minute d ≤ 59 ∧ 0 ≤ second d ≤ 59
  ∧ 0 ≤ microsecond d ≤ 999999.
Proof.
  unfold datetime_valid, _check_date_fields, _check_time_fields, MINYEAR.
  rewrite !andb_true_iff, !Z.leb_le. lia.
Qed.

Lemma toordinal_pos d : datetime_valid d = true → 1 ≤ toordinal d.
Proof.
  intros Hv. apply datetime_valid_fields in Hv as ((Hy & Hm & Hd) & _).
  unfold toordinal, _ymd2ord.
  pose proof (days_before_year_nonneg (year d) ltac:(lia)).
  pose proof (days_before_month_nonneg (year d) (month d) Hm). lia.
Qed.

Lemma timedelta_days_eq n : timedelta_days n = mkTimedelta n 0 0.
Proof.
  unfold timedelta_days, timedelta_new.
  change ((0 + 0 / 1000000) / 86400) with 0.
  change ((0 + 0 / 1000000) mod 86400) with 0.
  change (0 mod 1000000) with 0.
  by rewrite Z.add_0_r.
Qed.

Lemma timedelta_weeks_eq n : timedelta_weeks n = timedelta_days (7 * n).
Proof. reflexivity. Qed.

Lemma time_of_day_split h m s :
  0 ≤ h ≤ 23 → 0 ≤ m ≤ 59 → 0 ≤ s ≤ 59 →
  let secs := h * 3600 + m * 60 + s in
  secs / 86400 = 0 ∧ secs mod 86400 = secs
  ∧ secs / 3600 = h ∧ (secs mod 3600) / 60 = m ∧ (secs mod 3600) mod 60 = s.
Proof.
  intros Hh Hm Hs secs. subst secs.
  Z.to_euclidean_division_equations. lia.
Qed.

(** Adding whole days moves the date and keeps the time of day. *)
Lemma datetime_add_days d n :
  datetime_valid d = true →
  0 < toordinal d + n ≤ _MAXORDINAL →
  ∃ r, datetime_add d (timedelta_days n) = Some r
       ∧ datetime_valid r = true
       ∧ utcoffset r = utcoffset d
       ∧ instant r = instant d + n * 86400000000.
Proof.
  intros Hv Hrange.
  pose proof (datetime_valid_fields d Hv) as (Hdate & Hh & Hm & Hs & Hus).
  destruct (time_of_day_split (hour d) (minute d) (second d) Hh Hm Hs)
    as (Hq & Hr & Hhh & Hmm & Hss).
  unfold datetime_add. rewrite timedelta_days_eq. unfold timedelta_new.
  cbn [td_days td_seconds td_microseconds].
  rewrite !Z.add_0_r.
  rewrite (Z.div_small (microsecond d) 1000000) by lia.
  rewrite (Z.mod_small (microsecond d) 1000000) by lia.
  rewrite !Z.add_0_r, Hq, Hr, Hhh, Hmm, Hss, !Z.add_0_r.
  destruct ((0 <? toordinal d + n) && (toordinal d + n <=? _MAXORDINAL)) eqn:Hin.
  2:{ apply andb_false_iff in Hin as [Hin|Hin]; lia. }
  pose proof (ord2ymd_ok (toordinal d + n) ltac:(lia)) as Hok.
  destruct (_ord2ymd (toordinal d + n)) as [[y m] dd].
  destruct Hok as [Hchk Hord].
  eexists. split; [reflexivity|].
  split; [|split].
  - unfold datetime_valid. cbn [year month day hour minute second microsecond].
    rewrite Hchk. unfold datetime_valid in Hv.
    apply andb_true_iff in Hv as [_ Hv]. by rewrite Hv.
  - done.
  - unfold instant, toordinal.
    cbn [year month day hour minute second microsecond utcoffset].
    rewrite Hord. unfold toordinal. lia.
Qed.

(** Past [datetime.max] the sum overflows. *)
Lemma datetime_add_days_overflow d n :
  datetime_valid d = true →
  _MAXORDINAL < toordinal d + n →
  datetime_add d (timedelta_days n) = None.
Proof.
  intros Hv Hrange.
  pose proof (datetime_valid_fields d Hv) as (Hdate & Hh & Hm & Hs & Hus).
  destruct (time_of_day_split (hour d) (minute d) (second d) Hh Hm Hs)
    as (Hq & Hr & Hhh & Hmm & Hss).
  unfold datetime_add. rewrite timedelta_days_eq. unfold timedelta_new.
  cbn [td_days td_seconds td_microseconds].
  rewrite !Z.add_0_r.
  rewrite (Z.div_small (microsecond d) 1000000) by lia.
  rewrite !Z.add_0_r, Hq, !Z.add_0_r.
  destruct ((0 <? toordinal d + n) && (toordinal d + n <=? _MAXORDINAL)) eqn:Hin;
    [|done].
  apply andb_true_iff in Hin as [_ Hin]. lia.
Qed.

(** C4, as amended.  For 2024-01-31T09:00 in any zone and the rule
    "monthly", [replace] to February fails, and the 30-day fallback
    gives 2024-03-01T09:00 in the same zone (2024 is a leap year), in
    both copies of [calculate_next_deadline]. *)
Theorem monthly_from_jan_31_2024 (off : Z) :
  let d := mkDatetime 2024 1 31 9 0 0 0 off in
  datetime_replace d 2024 2 = None
  ∧ datetime_add d (timedelta_days 30) = Some (mkDatetime 2024 3 1 9 0 0 0 off)
  ∧ calculate_next_deadline d "monthly" = Some (mkDatetime 2024 3 1 9 0 0 0 off)
  ∧ Part1.calculate_next_deadline d "monthly"
    = Returned (Some (mkDatetime 2024 3 1 9 0 0 0 off)).
Proof. repeat split. Qed.

Lemma monthly_from_jan_31_2024_counterexample :
  calculate_next_deadline (mkDatetime 2024 1 31 9 0 0 0 25200) "monthly"
  ≠ Some (mkDatetime 2024 3 2 9 0 0 0 25200)
  ∧ Part1.calculate_next_deadline (mkDatetime 2024 1 31 9 0 0 0 25200) "monthly"
    ≠ Returned (Some (mkDatetime 2024 3 2 9 0 0 0 25200)).
Proof. split; vm_compute; discriminate. Qed.






(** ** The recurring-task loop *)

Section SchedulerSpec.
Variable pytz_timezone : string → option (Z → Z).
Variable DEFAULT_TZ : string.
Variable conn_has_lastrowid : bool.

Lemma regenerate_effect now row db :
  let db' := (regenerate pytz_timezone DEFAULT_TZ conn_has_lastrowid now row db).2 in
  users db' = users db
  ∧ tasks db' = tasks db ++ numbered (last_task_id db + 1) (occurrence pytz_timezone DEFAULT_TZ (users db) now row).
Proof.
  unfold regenerate, occurrence, get_timezone.
  destruct (match users db !! owner_id row with
            | Some tz => tz | None => Some DEFAULT_TZ end ≫= pytz_timezone)
    as [tz|]; simpl; [|by rewrite app_nil_r].
  destruct (deadline row ≫= astimezone tz) as [last|]; simpl;
    [|by rewrite app_nil_r].
  destruct (calculate_next_deadline last (default "" (recurring row))) as [next|];
    simpl; [|by rewrite app_nil_r].
  destruct (instant next <=? now); simpl; [|by rewrite app_nil_r].
  destruct (astimezone (fun _ => 0) next) as [utc|]; simpl; [|by rewrite app_nil_r].
  by destruct conn_has_lastrowid.
Qed.

Lemma occurrence_pending us now row r :
  occurrence pytz_timezone DEFAULT_TZ us now row = Some r → status r = "Pending" ∧ anonymous r = r.
Proof.
  unfold occurrence. intros H.
  destruct (_ ≫= pytz_timezone) as [tz|]; simpl in H; [|done].
  destruct (deadline row ≫= astimezone tz) as [last|]; simpl in H; [|done].
  destruct (calculate_next_deadline last _) as [next|]; simpl in H; [|done].
  destruct (instant next <=? now); [|done].
  destruct (astimezone (fun _ => 0) next) as [utc|]; simpl in H; [|done].
  by injection H as <-.
Qed.

Lemma occurrence_later us now1 now2 row r :
  now1 ≤ now2 → occurrence pytz_timezone DEFAULT_TZ us now1 row = Some r → occurrence pytz_timezone DEFAULT_TZ us now2 row = Some r.
Proof.
  unfold occurrence. intros Hle H.
  destruct (_ ≫= pytz_timezone) as [tz|]; simpl in *; [|done].
  destruct (deadline row ≫= astimezone tz) as [last|]; simpl in *; [|done].
  destruct (calculate_next_deadline last _) as [next|]; simpl in *; [|done].
  destruct (instant next <=? now1) eqn:H1; [|done].
  destruct (instant next <=? now2) eqn:H2; [done|lia].
Qed.

Lemma numbered_anonymous id us now row :
  anonymous <$> numbered id (occurrence pytz_timezone DEFAULT_TZ us now row)
  = option_list (occurrence pytz_timezone DEFAULT_TZ us now row)
  ∧ Forall (fun r => status r = "Pending") (numbered id (occurrence pytz_timezone DEFAULT_TZ us now row)).
Proof.
  destruct (occurrence pytz_timezone DEFAULT_TZ us now row) as [r|] eqn:Hocc; simpl; [|done].
  apply occurrence_pending in Hocc as [Hst Han]. split.
  - f_equal. rewrite <- Han at 2. reflexivity.
  - by constructor.
Qed.

Lemma loop_effect now rows acc :
  let res := foldl (fun acc row =>
                      regenerate_logged pytz_timezone DEFAULT_TZ conn_has_lastrowid
                        now row acc) acc rows in
  users res.1 = users acc.1
  ∧ ∃ new, tasks res.1 = tasks acc.1 ++ new
           ∧ anonymous <$> new = omap (occurrence pytz_timezone DEFAULT_TZ (users acc.1) now) rows
           ∧ Forall (fun r => status r = "Pending") new.
Proof.
  revert acc. induction rows as [|row rows IH]; intros acc; simpl.
  { split; [done|]. exists []. by rewrite app_nil_r. }
  set (acc1 := regenerate_logged _ _ _ now row acc).
  assert (users acc1.1 = users acc.1
          ∧ tasks acc1.1
            = tasks acc.1
              ++ numbered (last_task_id acc.1 + 1) (occurrence pytz_timezone DEFAULT_TZ (users acc.1) now row))
    as [Hu Ht].
  { pose proof (regenerate_effect now row acc.1) as Heff.
    subst acc1. unfold regenerate_logged.
    destruct (regenerate _ _ _ now row acc.1) as [[evs|] db']; exact Heff. }
  destruct (IH acc1) as (Hu' & new & Ht' & Hnew & Hp).
  split; [congruence|].
  exists (numbered (last_task_id acc.1 + 1) (occurrence pytz_timezone DEFAULT_TZ (users acc.1) now row) ++ new).
  destruct (numbered_anonymous (last_task_id acc.1 + 1) (users acc.1) now row)
    as [Han Hpend].
  split; [by rewrite Ht', Ht, <- app_assoc|].
  split.
  - rewrite fmap_app, Han, Hnew, Hu.
    by destruct (occurrence pytz_timezone DEFAULT_TZ (users acc.1) now row).
  - by apply Forall_app.
Qed.

Lemma completed_recurring_app db new :
  Forall (fun r => status r = "Pending") new →
  filter (fun row => is_completed_recurring row = true) (tasks db ++ new)
  = completed_recurring db.
Proof.
  intros Hp. rewrite filter_app. unfold completed_recurring.
  rewrite <- (app_nil_r (filter _ (tasks db))) at 2. f_equal.
  induction Hp as [|r new Hr _ IH]; [done|].
  rewrite filter_cons_False; [done|].
  unfold is_completed_recurring. rewrite Hr. by destruct (recurring r).
Qed.

Lemma omap_sublist {A B} (f g : A → option B) (l : list A) :
  (∀ a b, f a = Some b → g a = Some b) → omap f l `sublist_of` omap g l.
Proof.
  intros Hfg. induction l as [|a l IH]; simpl; [done|].
  destruct (f a) as [b|] eqn:Hf.
  - rewrite (Hfg a b Hf). by apply sublist_skip.
  - destruct (g a); [by apply sublist_cons|done].
Qed.

(** C2, as amended.  A tick of the improved [recurring_task_loop] appends
    one new "Pending" row for every completed recurring task whose next
    deadline is due, and nothing records that it did: the completed
    recurring tasks are the same after the tick.  A second tick at the
    same or a later time appends a copy for every source the first
    tick regenerated; at the same time the two ticks append the same
    rows up to [task_id]. *)
Theorem second_tick_regenerates_again (now1 now2 : Z) (db : database) :
  now1 ≤ now2 →
  let db1 := (recurring_task_loop pytz_timezone DEFAULT_TZ conn_has_lastrowid
                now1 db).1 in
  let db2 := (recurring_task_loop pytz_timezone DEFAULT_TZ conn_has_lastrowid
                now2 db1).1 in
  ∃ new1 new2,
    tasks db1 = tasks db ++ new1
    ∧ tasks db2 = tasks db ++ new1 ++ new2
    ∧ anonymous <$> new1 = omap (occurrence pytz_timezone DEFAULT_TZ (users db) now1) (completed_recurring db)
    ∧ anonymous <$> new2 = omap (occurrence pytz_timezone DEFAULT_TZ (users db) now2) (completed_recurring db)
    ∧ (anonymous <$> new1) `sublist_of` (anonymous <$> new2)
    ∧ (now1 = now2 → anonymous <$> new2 = anonymous <$> new1)
    ∧ completed_recurring db2 = completed_recurring db.
Proof.
  intros Hle db1 db2.
  destruct (loop_effect now1 (completed_recurring db) (db, [])) as (Hu1 & new1 & Ht1 & Hn1 & Hp1).
  fold (recurring_task_loop pytz_timezone DEFAULT_TZ conn_has_lastrowid now1 db) in Hu1, Ht1.
  fold db1 in Hu1, Ht1. simpl in Hu1, Ht1, Hn1.
  assert (completed_recurring db1 = completed_recurring db) as Hc1.
  { unfold completed_recurring at 1. rewrite Ht1. by apply completed_recurring_app. }
  destruct (loop_effect now2 (completed_recurring db1) (db1, [])) as (Hu2 & new2 & Ht2 & Hn2 & Hp2).
  fold (recurring_task_loop pytz_timezone DEFAULT_TZ conn_has_lastrowid now2 db1) in Hu2, Ht2.
  fold db2 in Hu2, Ht2. simpl in Hu2, Ht2, Hn2.
  rewrite Hc1, Hu1 in Hn2.
  exists new1, new2.
  split; [done|]. split; [by rewrite Ht2, Ht1, <- app_assoc|].
  split; [done|]. split; [done|].
  split; [|split].
  - rewrite Hn1, Hn2. apply omap_sublist. intros row r. by apply occurrence_later.
  - intros <-. by rewrite Hn1, Hn2.
  - unfold completed_recurring at 1. rewrite Ht2, Ht1, <- app_assoc.
    apply completed_recurring_app. by apply Forall_app.
Qed.

Lemma part1_regenerate_effect now_local row db db' :
  users db = users db' →
  let res := part1_regenerate pytz_timezone DEFAULT_TZ now_local row db in
  let res' := part1_regenerate pytz_timezone DEFAULT_TZ now_local row db' in
  res.1 = res'.1
  ∧ users res.2 = users db ∧ users res'.2 = users db'
  ∧ ∃ new new', tasks res.2 = tasks db ++ new
                ∧ tasks res'.2 = tasks db' ++ new'
                ∧ anonymous <$> new = anonymous <$> new'
                ∧ Forall (fun r => status r = "Pending") new
                ∧ Forall (fun r => status r = "Pending") new'.
Proof.
  intros Hu. unfold part1_regenerate, get_timezone. rewrite <- Hu.
  assert (∀ d : database, ∃ new new' : list task_row,
            tasks d = tasks d ++ new ∧ tasks db' = tasks db' ++ new'
            ∧ anonymous <$> new = anonymous <$> new'
            ∧ Forall (fun r => status r = "Pending") new
            ∧ Forall (fun r => status r = "Pending") new') as Hnil.
  { intros d. exists [], []. by rewrite !app_nil_r. }
  destruct (_ ≫= pytz_timezone) as [tz|]; simpl; [|by repeat split].
  destruct (Part1.calculate_next_deadline _ _) as [[next|]|]; simpl;
    [|by repeat split..].
  destruct (astimezone (fun _ => 0) next) as [utc|]; simpl; [|by repeat split].
  repeat split; try done.
  eexists [_], [_]. repeat split; by repeat constructor.
Qed.

Lemma part1_loop_effect now_local rows db db' :
  users db = users db' →
  let res := part1_loop pytz_timezone DEFAULT_TZ now_local rows db in
  let res' := part1_loop pytz_timezone DEFAULT_TZ now_local rows db' in
  res.1 = res'.1
  ∧ users res.2 = users db
  ∧ ∃ new new', tasks res.2 = tasks db ++ new
                ∧ tasks res'.2 = tasks db' ++ new'
                ∧ anonymous <$> new = anonymous <$> new'
                ∧ Forall (fun r => status r = "Pending") new
                ∧ Forall (fun r => status r = "Pending") new'.
Proof.
  revert db db'. induction rows as [|row rows IH]; intros db db' Hu; simpl.
  { repeat split; try done. exists [], []. by rewrite !app_nil_r. }
  destruct (part1_regenerate_effect now_local row db db' Hu)
    as (Ho & Hu1 & Hu1' & n1 & n1' & Ht1 & Ht1' & Han1 & Hp1 & Hp1').
  destruct (part1_regenerate _ _ now_local row db) as [o d1].
  destruct (part1_regenerate _ _ now_local row db') as [o' d1'].
  simpl in *. subst o'. destruct o as [[]|]; simpl.
  - destruct (IH d1 d1' ltac:(congruence))
      as (Ho2 & Hu2 & n2 & n2' & Ht2 & Ht2' & Han2 & Hp2 & Hp2').
    split; [done|]. split; [congruence|].
    exists (n1 ++ n2), (n1' ++ n2').
    rewrite Ht2, Ht2', Ht1, Ht1', <- !app_assoc, !fmap_app, Han1, Han2.
    repeat split; by try apply Forall_app.
  - split; [done|]. split; [done|]. by exists n1, n1'.
Qed.

(** The loop of the first copy of the program has no due-date test and
    repeats its insertions on every tick in the same way. *)
Theorem part1_second_tick_regenerates_again now_local (db : database) :
  let res1 := part1_recurring_task_loop pytz_timezone DEFAULT_TZ now_local db in
  let res2 := part1_recurring_task_loop pytz_timezone DEFAULT_TZ now_local res1.2 in
  res2.1 = res1.1
  ∧ ∃ new1 new2, tasks res1.2 = tasks db ++ new1
                 ∧ tasks res2.2 = tasks db ++ new1 ++ new2
                 ∧ anonymous <$> new2 = anonymous <$> new1.
Proof.
  intros res1 res2. subst res2 res1. unfold part1_recurring_task_loop.
  destruct (part1_loop_effect now_local (completed_recurring db) db db eq_refl)
    as (_ & Hu & n & _ & Ht & _ & _ & Hp & _).
  set (db1 := (part1_loop _ _ now_local (completed_recurring db) db).2) in *.
  assert (completed_recurring db1 = completed_recurring db) as ->.
  { unfold completed_recurring at 1. rewrite Ht. by apply completed_recurring_app. }
  destruct (part1_loop_effect now_local (completed_recurring db) db db1 (eq_sym Hu))
    as (Ho & _ & n1 & n2 & Ht1 & Ht2 & Han & _ & _).
  fold db1 in Ht1. split; [done|].
  exists n1, n2. split; [done|]. split; [|done].
  by rewrite Ht2, Ht1, <- app_assoc.
Qed.
End SchedulerSpec.

Lemma second_tick_regenerates_again_witness :
  let db1 := (recurring_task_loop utc_only "UTC" false jan_5_2024 one_daily_task).1 in
  let db2 := (recurring_task_loop utc_only "UTC" false jan_5_2024 db1).1 in
  ∃ new1 new2,
    tasks db1 = tasks one_daily_task ++ new1
    ∧ tasks db2 = tasks one_daily_task ++ new1 ++ new2
    ∧ anonymous <$> new1
      = omap (occurrence utc_only "UTC" (users one_daily_task) jan_5_2024)
          (completed_recurring one_daily_task)
    ∧ anonymous <$> new2
      = omap (occurrence utc_only "UTC" (users one_daily_task) jan_5_2024)
          (completed_recurring one_daily_task)
    ∧ (anonymous <$> new1) `sublist_of` (anonymous <$> new2)
    ∧ (jan_5_2024 = jan_5_2024 → anonymous <$> new2 = anonymous <$> new1)
    ∧ completed_recurring db2 = completed_recurring one_daily_task.
Proof.
  apply (second_tick_regenerates_again utc_only "UTC" false
           jan_5_2024 jan_5_2024 one_daily_task).
  lia.
Defined.

Lemma second_tick_regenerates_again_counterexample :
  let db1 := (recurring_task_loop utc_only "UTC" false jan_5_2024 one_daily_task).1 in
  let db2 := (recurring_task_loop utc_only "UTC" false jan_5_2024 db1).1 in
  completed_recurring db1 = completed_recurring one_daily_task
  ∧ length (completed_recurring one_daily_task) = 1%nat
  ∧ tasks db2
    = tasks one_daily_task
      ++ [mkTask 2 "water the plants" (Some (mkDatetime 2024 1 2 9 0 0 0 0)) 2
            "Pending" (Some "daily") "42";
          mkTask 3 "water the plants" (Some (mkDatetime 2024 1 2 9 0 0 0 0)) 2
            "Pending" (Some "daily") "42"].
Proof. vm_compute. repeat split. Qed.

(** ** More on the rate limiter *)

Lemma is_rate_limited_config now u kind st :
  same_config st (is_rate_limited now u kind st).2.
Proof.
  unfold is_rate_limited, check_block. simpl.
  destruct (blocked_users st !! u) as [b|]; [destruct (now <? b)|];
    try (by repeat split);
    (destruct (String.eqb kind "command");
     [simpl; destruct (_ >=? _); by repeat split|]);
    (destruct (String.eqb kind "task");
     [simpl; destruct (_ >=? _); by repeat split|]);
    by repeat split.
Qed.

Lemma is_rate_limited_denied now u kind st :
  (is_rate_limited now u kind st).1 = true →
  (actively_blocked now u st
   ∧ blocked_users (is_rate_limited now u kind st).2 = blocked_users st)
  ∨ (¬ actively_blocked now u st
     ∧ blocked_users (is_rate_limited now u kind st).2 !! u
       = Some (now + block_duration st)).
Proof.
  unfold is_rate_limited.
  destruct (check_block now u (incr_total_requests st)) as [st1|st1] eqn:Hcb.
  { apply check_block_inl in Hcb as [Hb ->]. intros _. left.
    split; [exact Hb|]. simpl. reflexivity. }
  apply check_block_inr in Hcb as [Hnb ->]. intros Hres. right.
  split; [exact Hnb|]. revert Hres.
  destruct (String.eqb kind "command").
  { simpl. destruct (_ >=? _); simpl; [|done]. intros _. by rewrite lookup_insert_eq. }
  destruct (String.eqb kind "task").
  { simpl. destruct (_ >=? _); simpl; [|done]. intros _. by rewrite lookup_insert_eq. }
  done.
Qed.

(** X1.  A request that [is_rate_limited] denies leaves the user with
    time to wait: with a positive [block_duration],
    [get_remaining_time] read at the same instant is positive, and it is
    the whole [block_duration] when the denial is a new block (the user
    was not actively blocked before the call). *)
Theorem denied_has_remaining_time (now : Z) (u kind : string) (st : RateLimiter) :
  0 < block_duration st →
  (is_rate_limited now u kind st).1 = true →
  0 < get_remaining_time now u (is_rate_limited now u kind st).2
  ∧ (¬ actively_blocked now u st →
     get_remaining_time now u (is_rate_limited now u kind st).2 = block_duration st).
Proof.
  intros Hbd Hres. unfold get_remaining_time.
  destruct (is_rate_limited_denied now u kind st Hres) as [[Hb Heq]|[Hnb Heq]].
  - rewrite Heq. split; [|intros Hnb; by destruct (Hnb Hb)].
    destruct Hb as (b & Hb & Hlt). rewrite Hb. lia.
  - rewrite Heq. split; [lia|]. intros _. lia.
Qed.

Lemma denied_has_remaining_time_witness :
  0 < get_remaining_time 0 "u" (is_rate_limited 0 "u" "command" blocked_after_31).2
  ∧ (¬ actively_blocked 0 "u" blocked_after_31 →
     get_remaining_time 0 "u" (is_rate_limited 0 "u" "command" blocked_after_31).2
     = block_duration blocked_after_31).
Proof.
  apply (denied_has_remaining_time 0 "u" "command" blocked_after_31).
  - vm_compute. reflexivity.
  - vm_compute. reflexivity.
Defined.

Lemma is_rate_limited_blocks_bounded t now u kind st :
  t ≤ now → blocks_bounded t st →
  blocks_bounded now (is_rate_limited now u kind st).2.
Proof.
  intros Hle Hb.
  assert (blocks_bounded now st) as Hb'.
  { intros v b Hv. specialize (Hb v b Hv). simpl in *. lia. }
  clear Hb. unfold blocks_bounded in *.
  assert (map_Forall (fun _ until => until ≤ now + block_duration st)
            (delete u (blocked_users st))) as Hdel.
  { by apply map_Forall_delete. }
  unfold is_rate_limited, check_block. simpl.
  destruct (blocked_users st !! u) as [b|] eqn:Hbu.
  - destruct (now <? b); [exact Hb'|].
    destruct (String.eqb kind "command").
    { simpl. destruct (_ >=? _); simpl; [|exact Hdel].
      apply map_Forall_insert_2; [lia|exact Hdel]. }
    destruct (String.eqb kind "task").
    { simpl. destruct (_ >=? _); simpl; [|exact Hdel].
      apply map_Forall_insert_2; [lia|exact Hdel]. }
    exact Hdel.
  - destruct (String.eqb kind "command").
    { simpl. destruct (_ >=? _); simpl; [|exact Hb'].
      apply map_Forall_insert_2; [lia|exact Hb']. }
    destruct (String.eqb kind "task").
    { simpl. destruct (_ >=? _); simpl; [|exact Hb'].
      apply map_Forall_insert_2; [lia|exact Hb']. }
    exact Hb'.
Qed.

Lemma run_cons r reqs st :
  run (r :: reqs) st
  = run reqs (is_rate_limited (req_now r) (req_user r) (req_kind r) st).2.
Proof. reflexivity. Qed.

Lemma run_blocks_bounded reqs t0 st :
  nondecreasing t0 reqs → blocks_bounded t0 st →
  blocks_bounded (last_time t0 reqs) (run reqs st)
  ∧ same_config st (run reqs st).
Proof.
  revert t0 st. induction reqs as [|r reqs IH]; intros t0 st Hmono Hb.
  { split; [exact Hb|by repeat split]. }
  destruct Hmono as [Hle Hmono]. rewrite run_cons.
  change (last_time t0 (r :: reqs)) with (last_time (req_now r) reqs).
  pose proof (is_rate_limited_config (req_now r) (req_user r) (req_kind r) st)
    as (Hc1 & Hc2 & Hc3).
  destruct (IH (req_now r)
              (is_rate_limited (req_now r) (req_user r) (req_kind r) st).2 Hmono)
    as [Hb' (Hd1 & Hd2 & Hd3)].
  { by apply (is_rate_limited_blocks_bounded t0). }
  split; [exact Hb'|]. unfold same_config. repeat split; congruence.
Qed.

(** X2.  [get_remaining_time] never exceeds the block duration: after
    any run of requests whose clock readings do not go back, started
    from a limiter whose blocks end within [block_duration] of the
    start, the remaining time at any later reading lies between 0 and
    [max 0 block_duration]. *)
Theorem remaining_time_bounded (st0 : RateLimiter) (t0 : Z) (reqs : list request)
    (now : Z) (u : string) :
  nondecreasing t0 reqs → blocks_bounded t0 st0 → last_time t0 reqs ≤ now →
  0 ≤ get_remaining_time now u (run reqs st0) ≤ Z.max 0 (block_duration st0).
Proof.
  intros Hmono Hb Hnow.
  destruct (run_blocks_bounded reqs t0 st0 Hmono Hb) as [Hb' (_ & _ & Hbd)].
  unfold get_remaining_time.
  destruct (blocked_users (run reqs st0) !! u) as [b|] eqn:Hu; [|lia].
  specialize (Hb' u b Hu). simpl in Hb'. lia.
Qed.

Lemma blocks_bounded_init t : blocks_bounded t RateLimiter_init.
Proof. apply map_Forall_empty. Qed.

Lemma remaining_time_bounded_witness :
  0 ≤ get_remaining_time 7 "u"
        (run [mkRequest 0 "u" "command"; mkRequest 5 "u" "task"] RateLimiter_init)
    ≤ Z.max 0 (block_duration RateLimiter_init).
Proof.
  apply (remaining_time_bounded RateLimiter_init 0).
  - simpl. lia.
  - apply blocks_bounded_init.
  - simpl. lia.
Defined.

Section chronological_facts.
Implicit Types (q : list Z) (now c t : Z).

Lemma chronological_later t now q :
  t ≤ now → chronological t q → chronological now q.
Proof.
  intros Hle [Hs Hf]. split; [exact Hs|].
  eapply Forall_impl; [exact Hf|]. simpl. intros x Hx. lia.
Qed.

Lemma chronological_evict now c q :
  chronological now q → chronological now (evict c q).
Proof.
  intros [Hs Hf]. induction q as [|x q IH]; simpl; [by split|].
  destruct (x <? c); [|by split].
  apply IH.
  - by apply StronglySorted_inv in Hs as [Hs _].
  - by apply Forall_cons in Hf as [_ Hf].
Qed.

Lemma chronological_append now q :
  chronological now q → chronological now (q ++ [now]).
Proof.
  intros [Hs Hf]. split.
  - induction q as [|x q IH]; simpl.
    + repeat constructor.
    + apply StronglySorted_inv in Hs as [Hs Hx].
      apply Forall_cons in Hf as [Hxn Hf].
      constructor; [by apply IH|].
      apply Forall_app. split; [exact Hx|]. by constructor.
  - apply Forall_app. split; [exact Hf|]. constructor; [lia|constructor].
Qed.

Lemma chronological_nil now : chronological now [].
Proof. split; constructor. Qed.

Lemma evict_filter c q :
  StronglySorted Z.le q → evict c q = filter (fun t => c ≤ t) q.
Proof.
  induction 1 as [|x q Hs IH Hx]; simpl; [done|].
  destruct (x <? c) eqn:Hlt.
  - rewrite filter_cons_False; [exact IH|lia].
  - rewrite filter_cons_True; [|lia]. f_equal.
    clear IH Hs. induction Hx as [|y q Hy Hq IHq]; [done|].
    rewrite filter_cons_True; [|lia]. by f_equal.
Qed.
End chronological_facts.

Lemma window_chronological now m u :
  map_Forall (fun _ q => chronological now q) m → chronological now (window m u).
Proof.
  intros Hm. unfold window. destruct (m !! u) as [q|] eqn:Hq; simpl.
  - by apply (Hm u q).
  - apply chronological_nil.
Qed.

Lemma is_rate_limited_chronological t now u kind st :
  t ≤ now → windows_chronological t st →
  windows_chronological now (is_rate_limited now u kind st).2.
Proof.
  intros Hle [Hc Ht].
  assert (map_Forall (fun _ q => chronological now q) (user_commands st)) as Hc'.
  { intros v q Hv. apply (chronological_later t); [exact Hle|by apply (Hc v q)]. }
  assert (map_Forall (fun _ q => chronological now q) (user_tasks_created st)) as Ht'.
  { intros v q Hv. apply (chronological_later t); [exact Hle|by apply (Ht v q)]. }
  clear Hc Ht.
  pose proof (chronological_evict now (now - 60) _ (window_chronological now _ u Hc'))
    as Hec.
  pose proof (chronological_evict now (now - 3600) _ (window_chronological now _ u Ht'))
    as Het.
  unfold is_rate_limited.
  destruct (check_block now u (incr_total_requests st)) as [st1|st1] eqn:Hcb.
  { apply check_block_inl in Hcb as [_ ->]. by split. }
  apply check_block_inr in Hcb as [_ ->].
  destruct (String.eqb kind "command").
  { simpl. destruct (_ >=? _); simpl; (split; [|exact Ht']); simpl.
    - apply map_Forall_insert_2; [exact Hec|exact Hc'].
    - apply map_Forall_insert_2; [by apply chronological_append|exact Hc']. }
  destruct (String.eqb kind "task").
  { simpl. destruct (_ >=? _); simpl; (split; [exact Hc'|]); simpl.
    - apply map_Forall_insert_2; [exact Het|exact Ht'].
    - apply map_Forall_insert_2; [by apply chronological_append|exact Ht']. }
  by split.
Qed.

Lemma run_chronological reqs t0 st :
  nondecreasing t0 reqs → windows_chronological t0 st →
  windows_chronological (last_time t0 reqs) (run reqs st).
Proof.
  revert t0 st. induction reqs as [|r reqs IH]; intros t0 st Hmono Hw; [exact Hw|].
  destruct Hmono as [Hle Hmono]. rewrite run_cons.
  change (last_time t0 (r :: reqs)) with (last_time (req_now r) reqs).
  apply IH; [exact Hmono|]. by apply (is_rate_limited_chronological t0).
Qed.

(** X3.  Windows stay in chronological order: after any run of
    requests whose clock readings do not go back, every window is
    sorted and holds no timestamp later than the last reading.  So the
    eviction loop, which stops at the first live timestamp, removes
    exactly the expired timestamps: it agrees with filtering the whole
    window. *)
Theorem windows_stay_chronological (st0 : RateLimiter) (t0 : Z)
    (reqs : list request) (u : string) (cutoff : Z) :
  nondecreasing t0 reqs → windows_chronological t0 st0 →
  let st := run reqs st0 in
  chronological (last_time t0 reqs) (window (user_commands st) u)
  ∧ chronological (last_time t0 reqs) (window (user_tasks_created st) u)
  ∧ evict cutoff (window (user_commands st) u)
    = filter (fun t => cutoff ≤ t) (window (user_commands st) u)
  ∧ evict cutoff (window (user_tasks_created st) u)
    = filter (fun t => cutoff ≤ t) (window (user_tasks_created st) u).
Proof.
  intros Hmono Hw st.
  destruct (run_chronological reqs t0 st0 Hmono Hw) as [Hc Ht]. fold st in Hc, Ht.
  pose proof (window_chronological _ _ u Hc) as Hcu.
  pose proof (window_chronological _ _ u Ht) as Htu.
  split; [exact Hcu|]. split; [exact Htu|].
  split; apply evict_filter; [apply Hcu|apply Htu].
Qed.

Lemma windows_chronological_init t : windows_chronological t RateLimiter_init.
Proof. split; apply map_Forall_empty. Qed.

Lemma windows_stay_chronological_witness :
  let st := run [mkRequest 0 "u" "command"; mkRequest 5 "u" "command"]
              RateLimiter_init in
  chronological (last_time 0 [mkRequest 0 "u" "command"; mkRequest 5 "u" "command"])
    (window (user_commands st) "u")
  ∧ chronological (last_time 0 [mkRequest 0 "u" "command"; mkRequest 5 "u" "command"])
      (window (user_tasks_created st) "u")
  ∧ evict 3 (window (user_commands st) "u")
    = filter (fun t => 3 ≤ t) (window (user_commands st) "u")
  ∧ evict 3 (window (user_tasks_created st) "u")
    = filter (fun t => 3 ≤ t) (window (user_tasks_created st) "u").
Proof.
  apply (windows_stay_chronological RateLimiter_init 0).
  - simpl. lia.
  - apply windows_chronological_init.
Defined.

(** X4.  One call never grows a window past its limit: after
    [is_rate_limited] the window of the user is no longer than the
    larger of its previous length and the limit. *)
Theorem window_never_grows_past_limit (now : Z) (u kind : string) (st : RateLimiter) :
  let st' := (is_rate_limited now u kind st).2 in
  Z.of_nat (length (window (user_commands st') u))
  ≤ Z.max (Z.of_nat (length (window (user_commands st) u))) (commands_per_minute st)
  ∧ Z.of_nat (length (window (user_tasks_created st') u))
    ≤ Z.max (Z.of_nat (length (window (user_tasks_created st) u))) (tasks_per_hour st).
Proof.
  intros st'. subst st'.
  pose proof (evict_length (now - 60) (window (user_commands st) u)) as Hc.
  pose proof (evict_length (now - 3600) (window (user_tasks_created st) u)) as Ht.
  unfold is_rate_limited.
  destruct (check_block now u (incr_total_requests st)) as [st1|st1] eqn:Hcb.
  { apply check_block_inl in Hcb as [_ ->]. simpl. lia. }
  apply check_block_inr in Hcb as [_ ->].
  destruct (String.eqb kind "command").
  { simpl. destruct (_ >=? _) eqn:Hge; simpl; rewrite window_insert.
    - lia.
    - rewrite length_app. simpl. lia. }
  destruct (String.eqb kind "task").
  { simpl. destruct (_ >=? _) eqn:Hge; simpl; rewrite window_insert.
    - lia.
    - rewrite length_app. simpl. lia. }
  simpl. lia.
Qed.

(** X5.  A call of [is_rate_limited] for one user leaves the command
    window, the task window and the block of every other user as they
    were. *)
Theorem requests_touch_one_user (now : Z) (u v kind : string) (st : RateLimiter) :
  v ≠ u →
  let st' := (is_rate_limited now u kind st).2 in
  user_commands st' !! v = user_commands st !! v
  ∧ user_tasks_created st' !! v = user_tasks_created st !! v
  ∧ blocked_users st' !! v = blocked_users st !! v.
Proof.
  intros Hne st'. subst st'. unfold is_rate_limited.
  destruct (check_block now u (incr_total_requests st)) as [st1|st1] eqn:Hcb.
  { apply check_block_inl in Hcb as [_ ->]. by repeat split. }
  apply check_block_inr in Hcb as [_ ->].
  assert (delete u (blocked_users st) !! v = blocked_users st !! v) as Hdel
    by (by apply lookup_delete_ne).
  destruct (String.eqb kind "command").
  { simpl. destruct (_ >=? _); simpl; repeat split;
      rewrite ?lookup_insert_ne by done; done. }
  destruct (String.eqb kind "task").
  { simpl. destruct (_ >=? _); simpl; repeat split;
      rewrite ?lookup_insert_ne by done; done. }
  by repeat split.
Qed.

Lemma requests_touch_one_user_witness :
  let st' := (is_rate_limited 400 "u" "command" blocked_after_31).2 in
  user_commands st' !! "v" = user_commands blocked_after_31 !! "v"
  ∧ user_tasks_created st' !! "v" = user_tasks_created blocked_after_31 !! "v"
  ∧ blocked_users st' !! "v" = blocked_users blocked_after_31 !! "v".
Proof.
  apply (requests_touch_one_user 400 "u" "v" "command" blocked_after_31).
  intros H. inversion H.
Defined.

Lemma evict_evict c c' q : c ≤ c' → evict c' (evict c q) = evict c' q.
Proof.
  intros Hle. induction q as [|x q IH]; simpl; [done|].
  destruct (x <? c) eqn:Hx; [|done].
  rewrite IH. destruct (x <? c') eqn:Hx'; [done|lia].
Qed.


Lemma still_blocked_later now now' b :
  now ≤ now' → (now' <? b) = true → still_blocked now b = Some b.
Proof. intros Hle Hlt. unfold still_blocked. destruct (now >=? b) eqn:H; [lia|done]. Qed.

Lemma agree_from_block now now' u st1 st2 :
  now ≤ now' → agree_from now st1 st2 →
  match blocked_users st1 !! u, blocked_users st2 !! u with
  | Some b1, Some b2 => (now' <? b1) = (now' <? b2) ∧ ((now' <? b1) = true → b1 = b2)
  | Some b1, None => (now' <? b1) = false
  | None, Some b2 => (now' <? b2) = false
  | None, None => True
  end.
Proof.
  intros Hle (_ & Hb & _). specialize (Hb u).
  destruct (blocked_users st1 !! u) as [b1|], (blocked_users st2 !! u) as [b2|];
    simpl in Hb; unfold still_blocked in Hb; try done.
  - destruct (now >=? b1) eqn:H1, (now >=? b2) eqn:H2; try done.
    + split; [|lia]. destruct (now' <? b1) eqn:?, (now' <? b2) eqn:?; lia.
    + injection Hb as ->. done.
  - destruct (now >=? b1) eqn:H1; [|done]. lia.
  - destruct (now >=? b2) eqn:H2; [|done]. lia.
Qed.

Lemma agree_from_active now now' u st1 st2 :
  now ≤ now' → agree_from now st1 st2 →
  actively_blocked now' u st1 → actively_blocked now' u st2.
Proof.
  intros Hle Hag (b & Hb & Hlt).
  pose proof (agree_from_block now now' u st1 st2 Hle Hag) as H.
  rewrite Hb in H. destruct (blocked_users st2 !! u) as [b2|] eqn:Hb2.
  - destruct H as [Heq Hsame]. exists b2. split; [done|].
    assert ((now' <? b) = true) as Hlt' by lia.
    specialize (Hsame Hlt'). subst. done.
  - lia.
Qed.

Lemma agree_from_sym now st1 st2 : agree_from now st1 st2 → agree_from now st2 st1.
Proof.
  intros ((H1 & H2 & H3) & Hb & Hc & Ht).
  split; [by repeat split|]. split; [by intros u|].
  split; intros u c Hle; symmetry; auto.
Qed.

Lemma agree_from_expire now u st1 st2 :
  agree_from now st1 st2 →
  agree_from now (set_blocked_users (delete u (blocked_users st1)) st1)
    (set_blocked_users (delete u (blocked_users st2)) st2).
Proof.
  intros (Hcfg & Hb & Hc & Ht). split; [exact Hcfg|]. split; [|by split].
  intros v. simpl. destruct (decide (v = u)) as [->|Hne].
  - by rewrite !lookup_delete_eq.
  - rewrite !lookup_delete_ne by done. apply Hb.
Qed.

Lemma agree_from_counters now st1 st2 p1 p2 :
  agree_from now st1 st2 →
  agree_from now (set_performance_stats p1 st1) (set_performance_stats p2 st2).
Proof. intros H. exact H. Qed.

Lemma window_insert_cases m u v (q : list Z) :
  window (<[u := q]> m) v = if decide (v = u) then q else window m v.
Proof.
  destruct (decide (v = u)) as [->|Hne].
  - apply window_insert.
  - by apply window_insert_ne.
Qed.

Lemma agree_from_block_insert now u b st1 st2 :
  agree_from now st1 st2 →
  agree_from now (set_blocked_users (<[u := b]> (blocked_users st1)) st1)
    (set_blocked_users (<[u := b]> (blocked_users st2)) st2).
Proof.
  intros (Hcfg & Hb & Hc & Ht). split; [exact Hcfg|]. split; [|by split].
  intros v. simpl. destruct (decide (v = u)) as [->|Hne].
  - by rewrite !lookup_insert_eq.
  - rewrite !lookup_insert_ne by done. apply Hb.
Qed.

Lemma agree_from_commands now u q st1 st2 :
  agree_from now st1 st2 →
  agree_from now (set_user_commands (<[u := q]> (user_commands st1)) st1)
    (set_user_commands (<[u := q]> (user_commands st2)) st2).
Proof.
  intros (Hcfg & Hb & Hc & Ht). split; [exact Hcfg|]. split; [exact Hb|].
  split; [|exact Ht]. intros v c Hle. simpl. rewrite !window_insert_cases.
  destruct (decide (v = u)); [done|]. by apply Hc.
Qed.

Lemma agree_from_tasks now u q st1 st2 :
  agree_from now st1 st2 →
  agree_from now (set_user_tasks_created (<[u := q]> (user_tasks_created st1)) st1)
    (set_user_tasks_created (<[u := q]> (user_tasks_created st2)) st2).
Proof.
  intros (Hcfg & Hb & Hc & Ht). split; [exact Hcfg|]. split; [exact Hb|].
  split; [exact Hc|]. intros v c Hle. simpl. rewrite !window_insert_cases.
  destruct (decide (v = u)); [done|]. by apply Ht.
Qed.

Lemma is_rate_limited_agree now now' u kind st1 st2 :
  now ≤ now' → agree_from now st1 st2 →
  (is_rate_limited now' u kind st1).1 = (is_rate_limited now' u kind st2).1
  ∧ agree_from now (is_rate_limited now' u kind st1).2
      (is_rate_limited now' u kind st2).2.
Proof.
  intros Hle Hag. unfold is_rate_limited.
  destruct (check_block now' u (incr_total_requests st1)) as [s1|s1] eqn:Hc1;
    destruct (check_block now' u (incr_total_requests st2)) as [s2|s2] eqn:Hc2.
  - apply check_block_inl in Hc1 as [_ ->]. apply check_block_inl in Hc2 as [_ ->].
    split; [done|]. exact Hag.
  - apply check_block_inl in Hc1 as [Hb1 _]. apply check_block_inr in Hc2 as [Hb2 _].
    destruct Hb2. by apply (agree_from_active now now' u st1 st2).
  - apply check_block_inr in Hc1 as [Hb1 _]. apply check_block_inl in Hc2 as [Hb2 _].
    destruct Hb1. apply (agree_from_active now now' u st2 st1); [done| |done].
    by apply agree_from_sym.
  - apply check_block_inr in Hc1 as [_ ->]. apply check_block_inr in Hc2 as [_ ->].
    pose proof (agree_from_expire now u _ _
                  (agree_from_counters now st1 st2
                     (performance_stats (incr_total_requests st1))
                     (performance_stats (incr_total_requests st2)) Hag)) as Hag'.
    destruct Hag as ((Hcpm & Htph & Hbd) & _ & Hc & Ht).
    destruct (String.eqb kind "command").
    { simpl. rewrite (Hc u (now' - 60)) by lia. rewrite Hcpm, Hbd.
      destruct (_ >=? _); simpl.
      - split; [done|].
        apply (agree_from_counters now), agree_from_block_insert.
        apply (agree_from_commands now u _ _ _ Hag').
      - split; [done|]. apply (agree_from_commands now u _ _ _ Hag'). }
    destruct (String.eqb kind "task").
    { simpl. rewrite (Ht u (now' - 3600)) by lia. rewrite Htph, Hbd.
      destruct (_ >=? _); simpl.
      - split; [done|].
        apply (agree_from_counters now), agree_from_block_insert.
        apply (agree_from_tasks now u _ _ _ Hag').
      - split; [done|]. apply (agree_from_tasks now u _ _ _ Hag'). }
    split; [done|]. exact Hag'.
Qed.

Lemma verdicts_agree now reqs st1 st2 :
  Forall (fun r => now ≤ req_now r) reqs → agree_from now st1 st2 →
  verdicts reqs st1 = verdicts reqs st2.
Proof.
  intros Hall. revert st1 st2.
  induction Hall as [|r reqs Hr _ IH]; intros st1 st2 Hag; [done|].
  destruct (is_rate_limited_agree now (req_now r) (req_user r) (req_kind r)
              st1 st2 Hr Hag) as [Hv Hag'].
  simpl. rewrite Hv. f_equal. by apply IH.
Qed.

Lemma cleanup_agree now st : agree_from now (cleanup_old_entries now st) st.
Proof.
  split; [by repeat split|]. split; [|split].
  - intros u. unfold cleanup_old_entries. simpl. rewrite cleanup_blocks_lookup.
    destruct (blocked_users st !! u) as [b|]; simpl; [|done].
    unfold still_blocked. destruct (now >=? b) eqn:Hb; simpl; [done|].
    by rewrite Hb.
  - intros u c Hle. unfold cleanup_old_entries. simpl.
    rewrite window_cleanup. by apply evict_evict.
  - intros u c Hle. unfold cleanup_old_entries. simpl.
    rewrite window_cleanup. by apply evict_evict.
Qed.

(** X6.  [cleanup_old_entries] is invisible to the callers of
    [is_rate_limited]: the verdicts of any sequence of requests made at
    or after the clock reading of the cleanup are the same with and
    without it. *)
Theorem cleanup_changes_no_verdict (now : Z) (reqs : list request) (st : RateLimiter) :
  Forall (fun r => now ≤ req_now r) reqs →
  verdicts reqs (cleanup_old_entries now st) = verdicts reqs st.
Proof. intros Hall. apply (verdicts_agree now); [exact Hall|apply cleanup_agree]. Qed.

Lemma cleanup_changes_no_verdict_witness :
  verdicts [mkRequest 301 "u" "command"; mkRequest 302 "v" "task"]
    (cleanup_old_entries 300 blocked_after_31)
  = verdicts [mkRequest 301 "u" "command"; mkRequest 302 "v" "task"] blocked_after_31.
Proof.
  apply (cleanup_changes_no_verdict 300).
  repeat constructor; simpl; lia.
Defined.






Lemma queue_total_bound (limit : Z) (l : list (list Z)) :
  Forall (fun q => Z.of_nat (length q) ≤ limit) l →
  Z.of_nat (foldr (fun q n => (length q + n)%nat) 0%nat l)
  ≤ Z.of_nat (length l) * limit.
Proof.
  induction 1 as [|q l Hq _ IH]; simpl foldr; simpl length; [lia|]. nia.
Qed.

Lemma map_values_Forall {V} (P : V → Prop) (m : gmap string V) :
  map_Forall (fun _ v => P v) m → Forall P (map_to_list m).*2.
Proof.
  intros Hm. apply Forall_forall. intros v Hv.
  apply list_elem_of_fmap in Hv as ([k v'] & -> & Hkv).
  apply elem_of_map_to_list in Hkv. by apply (Hm k v').
Qed.

(** X8.  While no window exceeds its limit, the numbers of stored
    timestamps that [get_stats] reports are at most the number of users
    with a window times the limit. *)
Theorem stored_timestamps_bounded (st : RateLimiter) :
  within_limits st →
  Z.of_nat (command_queues (get_stats st))
  ≤ Z.of_nat (size (user_commands st)) * commands_per_minute st
  ∧ Z.of_nat (task_queues (get_stats st))
    ≤ Z.of_nat (size (user_tasks_created st)) * tasks_per_hour st.
Proof.
  intros [Hc Ht]. simpl. unfold queue_total.
  split.
  - rewrite <- (length_map_to_list (user_commands st)).
    rewrite <- (length_fmap snd (map_to_list (user_commands st))).
    apply queue_total_bound. by apply map_values_Forall.
  - rewrite <- (length_map_to_list (user_tasks_created st)).
    rewrite <- (length_fmap snd (map_to_list (user_tasks_created st))).
    apply queue_total_bound. by apply map_values_Forall.
Qed.

Lemma stored_timestamps_bounded_witness :
  Z.of_nat (command_queues (get_stats blocked_after_31))
  ≤ Z.of_nat (size (user_commands blocked_after_31))
    * commands_per_minute blocked_after_31
  ∧ Z.of_nat (task_queues (get_stats blocked_after_31))
    ≤ Z.of_nat (size (user_tasks_created blocked_after_31))
      * tasks_per_hour blocked_after_31.
Proof.
  apply stored_timestamps_bounded.
  apply (run_within_limits (replicate 31 (mkRequest 0 "u" "command")) RateLimiter_init).
  - simpl. lia.
  - simpl. lia.
  - apply within_limits_init.
Defined.

Lemma denial_blocks now u kind st :
  (is_rate_limited now u kind st).1 = true →
  blocked_by_denial now u st (is_rate_limited now u kind st).2.
Proof.
  intros Hres. unfold blocked_by_denial, get_remaining_time.
  destruct (is_rate_limited_denied now u kind st Hres) as [[Hb Heq]|[Hnb Heq]];
    rewrite Heq.
  - split; [done|]. split; [done|]. split; [|done].
    intros _. destruct Hb as (b & Hb & Hlt). split.
    + exists b. by rewrite Heq.
    + rewrite Hb. lia.
  - split; [done|]. split; [done|]. split.
    + intros Hpos. split; [|lia]. exists (now + block_duration st).
      split; [done|lia].
    + intros Hle _. split; [|lia]. intros (b & Hb & Hlt).
      rewrite Heq in Hb. injection Hb as <-. lia.
Qed.

(** X9.  [ratelimiter_set] stores [max(0, value)], and a limit of zero
    denies everything: after setting [commands_per_minute]
    ([tasks_per_hour]) to a value that is not positive the stored limit
    is 0 and every command (task) request is denied.  The denial leaves
    an unexpired block of the user as it is and otherwise enters a
    block that ends [block_duration] after the request: with a positive
    [block_duration] the user is actively blocked afterwards, with time
    left to wait; with a [block_duration] that is not positive a user
    who was not blocked is still not blocked, the entry having expired
    already. *)
Theorem zero_limit_denies_everything (value now : Z) (u : string) (st : RateLimiter) :
  value ≤ 0 →
  let st_c := (ratelimiter_set "commands_per_minute" value st).2 in
  let st_t := (ratelimiter_set "tasks_per_hour" value st).2 in
  commands_per_minute st_c = 0
  ∧ tasks_per_hour st_t = 0
  ∧ (is_rate_limited now u "command" st_c).1 = true
  ∧ (is_rate_limited now u "task" st_t).1 = true
  ∧ blocked_by_denial now u st (is_rate_limited now u "command" st_c).2
  ∧ blocked_by_denial now u st (is_rate_limited now u "task" st_t).2.
Proof.
  intros Hv st_c st_t. subst st_c st_t. simpl.
  replace (Z.max 0 value) with 0 by lia.
  split; [done|]. split; [done|].
  assert (∀ st1, actively_blocked now u st1 ∨ ¬ actively_blocked now u st1) as Hdec.
  { intros st1. unfold actively_blocked.
    destruct (blocked_users st1 !! u) as [b|].
    - destruct (decide (now < b)); [left; by exists b|right].
      intros (b' & [= <-] & ?). done.
    - right. by intros (b' & ? & _). }
  assert ((is_rate_limited now u "command" (set_commands_per_minute 0 st)).1 = true)
    as H1.
  { destruct (Hdec (set_commands_per_minute 0 st)) as [Hb|Hnb].
    - by rewrite denied_while_blocked.
    - apply denied_command; [exact Hnb|]. simpl. lia. }
  assert ((is_rate_limited now u "task" (set_tasks_per_hour 0 st)).1 = true) as H3.
  { destruct (Hdec (set_tasks_per_hour 0 st)) as [Hb|Hnb].
    - by rewrite denied_while_blocked.
    - apply denied_task; [exact Hnb|]. simpl. lia. }
  split; [exact H1|]. split; [exact H3|].
  split.
  - exact (denial_blocks now u "command" (set_commands_per_minute 0 st) H1).
  - exact (denial_blocks now u "task" (set_tasks_per_hour 0 st) H3).
Qed.

Lemma zero_limit_denies_everything_witness :
  let st_c := (ratelimiter_set "commands_per_minute" (-5) RateLimiter_init).2 in
  let st_t := (ratelimiter_set "tasks_per_hour" (-5) RateLimiter_init).2 in
  commands_per_minute st_c = 0
  ∧ tasks_per_hour st_t = 0
  ∧ (is_rate_limited 10 "u" "command" st_c).1 = true
  ∧ (is_rate_limited 10 "u" "task" st_t).1 = true
  ∧ blocked_by_denial 10 "u" RateLimiter_init (is_rate_limited 10 "u" "command" st_c).2
  ∧ blocked_by_denial 10 "u" RateLimiter_init (is_rate_limited 10 "u" "task" st_t).2.
Proof. apply (zero_limit_denies_everything (-5) 10 "u" RateLimiter_init). lia. Defined.

(** X10.  [ratelimiter_unblock] removes the block of the user and
    nothing else: no remaining time is left for the user, the blocks of
    the others and all windows are untouched.  The windows therefore
    decide the next request of the user: it is denied exactly when the
    window still holds at least the limit of live timestamps. *)
Theorem unblock_leaves_the_window_in_charge (now : Z) (u : string) (st : RateLimiter) :
  let st' := (ratelimiter_unblock u st).2 in
  blocked_users st' !! u = None
  ∧ get_remaining_time now u st' = 0
  ∧ (∀ v, v ≠ u → blocked_users st' !! v = blocked_users st !! v)
  ∧ user_commands st' = user_commands st
  ∧ user_tasks_created st' = user_tasks_created st
  ∧ ((is_rate_limited now u "command" st').1 = true
     ↔ commands_per_minute st
       ≤ Z.of_nat (length (evict (now - 60) (window (user_commands st) u))))
  ∧ ((is_rate_limited now u "task" st').1 = true
     ↔ tasks_per_hour st
       ≤ Z.of_nat (length (evict (now - 3600) (window (user_tasks_created st) u)))).
Proof.
  intros st'.
  assert (blocked_users st' !! u = None) as Hnone.
  { subst st'. unfold ratelimiter_unblock.
    destruct (blocked_users st !! u) as [b|] eqn:Hb; simpl; [|done].
    apply lookup_delete_eq. }
  assert (user_commands st' = user_commands st
          ∧ user_tasks_created st' = user_tasks_created st
          ∧ same_config st st') as (Hc & Ht & Hcpm & Htph & _).
  { subst st'. unfold ratelimiter_unblock.
    destruct (blocked_users st !! u); by repeat split. }
  assert (¬ actively_blocked now u (incr_total_requests st')) as Hnb.
  { intros (b & Hb & _). simpl in Hb. congruence. }
  split; [exact Hnone|]. split; [unfold get_remaining_time; by rewrite Hnone|].
  split.
  { intros v Hne. subst st'. unfold ratelimiter_unblock.
    destruct (blocked_users st !! u); simpl; [|done]. by apply lookup_delete_ne. }
  split; [exact Hc|]. split; [exact Ht|].
  split.
  - unfold is_rate_limited. rewrite check_block_not_blocked; [|exact Hnb]. simpl.
    rewrite Hc, Hcpm. destruct (_ >=? _) eqn:Hge; simpl; split; intros; try done; lia.
  - unfold is_rate_limited. rewrite check_block_not_blocked; [|exact Hnb]. simpl.
    rewrite Ht, Htph. destruct (_ >=? _) eqn:Hge; simpl; split; intros; try done; lia.
Qed.

(** Integer goals and hypotheses are decided among the rationals. *)
Ltac to_Q :=
  repeat match goal with
         | H : (_ ≤ _)%Z |- _ => rewrite Zle_Qle in H
         | H : (_ < _)%Z |- _ => rewrite Zlt_Qlt in H
         end;
  rewrite ?Zle_Qle, ?Zlt_Qlt;
  unfold Z.sub, Z.succ in *;
  rewrite ?inject_Z_plus, ?inject_Z_opp, ?inject_Z_mult in *;
  change (inject_Z 0) with 0%Q in *; change (inject_Z 1) with 1%Q in *;
  change (inject_Z 60) with 60%Q in *.

Lemma get_remaining_time_at_whole now u st :
  (get_remaining_time_at (inject_Z now) u st == inject_Z (get_remaining_time now u st))%Q.
Proof.
  unfold get_remaining_time_at, get_remaining_time.
  destruct (blocked_users st !! u) as [b|]; [|reflexivity]. cbv zeta.
  destruct (Qle_bool (inject_Z b - inject_Z now) 0) eqn:Hle.
  - apply Qle_bool_iff in Hle.
    assert (b - now ≤ 0) by (to_Q; lra).
    rewrite Z.max_l by lia. reflexivity.
  - assert (¬ (inject_Z b - inject_Z now <= 0)%Q) as Hn.
    { intros H. apply Qle_bool_iff in H. congruence. }
    assert (0 < b - now) by (to_Q; lra).
    rewrite Z.max_r by lia. to_Q. lra.
Qed.

Lemma blocked_at_whole now u st : blocked_at (inject_Z now) u st ↔ actively_blocked now u st.
Proof.
  unfold blocked_at, actively_blocked. split; intros (b & Hb & Hlt); exists b;
    (split; [done|]); [by rewrite Zlt_Qlt|by rewrite <- Zlt_Qlt].
Qed.

Lemma floor_split (x : Q) :
  (0 < x)%Q →
  let minutes := Qfloor (x / 60) in
  let seconds := Qfloor (x - 60 * inject_Z (Qfloor (x / 60))) in
  0 ≤ minutes ∧ 0 ≤ seconds < 60
  ∧ (inject_Z (minutes * 60 + seconds)%Z <= x)%Q
  ∧ (x < inject_Z (minutes * 60 + seconds)%Z + 1)%Q
  ∧ (minutes = 0 ↔ (x < 60)%Q).
Proof.
  intros Hx. cbv zeta.
  assert (x / 60 == x * (1 # 60))%Q as Hdiv by reflexivity.
  pose proof (Qfloor_le (x / 60)) as Hm1. pose proof (Qlt_floor (x / 60)) as Hm2.
  rewrite Hdiv in Hm1 at 2. rewrite Hdiv in Hm2 at 1. clear Hdiv.
  set (minutes := Qfloor (x / 60)) in *.
  pose proof (Qfloor_le (x - 60 * inject_Z minutes)) as Hs1.
  pose proof (Qlt_floor (x - 60 * inject_Z minutes)) as Hs2.
  set (seconds := Qfloor (x - 60 * inject_Z minutes)) in *.
  clearbody minutes. clearbody seconds.
  rewrite inject_Z_plus in Hm2, Hs2. change (inject_Z 1) with 1%Q in Hm2, Hs2.
  assert (0 ≤ minutes) as Hm0 by (apply Z.lt_succ_r; to_Q; lra).
  assert (0 ≤ seconds) as Hs0 by (apply Z.lt_succ_r; to_Q; lra).
  assert (seconds < 60) as Hs60 by (to_Q; lra).
  split; [done|]. split; [done|].
  rewrite inject_Z_plus, inject_Z_mult. change (inject_Z 60) with 60%Q.
  split; [lra|]. split; [lra|].
  split.
  - intros Hz. rewrite Hz in Hm2. change (inject_Z 0) with 0%Q in Hm2. lra.
  - intros Hlt. apply Z.le_antisymm; [|done].
    apply Z.lt_succ_r. to_Q. lra.
Qed.

(** X11.  The wrapper built by [rate_limit] leaves the limiter as
    [is_rate_limited] left it and calls the wrapped command at most
    twice; the "Rate Limited" message goes out exactly when the command
    is not called, which is exactly when the request was denied, time
    remains and sending works.  The wrapper then returns, and the text
    shows the whole seconds of the remaining time, the fraction
    dropped, split into minutes and seconds: the seconds are below 60,
    the shown time is at most the remaining time and less than a second
    short of it, and the minutes are left out exactly when less than a
    minute remains. *)
Theorem wrapper_message_is_sound (kind : string) (now : Z) (now' : Q)
    (send_ok raises raises' : bool) (u : string) (st : RateLimiter) :
  let res := rate_limit kind now now' send_ok raises raises' u st in
  let after := (is_rate_limited now u kind st).2 in
  let remaining := get_remaining_time_at now' u after in
  res.2 = after
  ∧ (func_calls res.1 ≤ 2)%nat
  ∧ (func_calls res.1 = 0%nat ↔ is_Some (message res.1))
  ∧ (is_Some (message res.1)
     ↔ (is_rate_limited now u kind st).1 = true ∧ (0 < remaining)%Q ∧ send_ok = true)
  ∧ (∀ minutes seconds, message res.1 = Some (minutes, seconds) →
       wrapper_ends res.1 = Returns
       ∧ 0 ≤ seconds < 60
       ∧ 0 ≤ default 0 minutes
       ∧ (inject_Z (default 0 minutes * 60 + seconds)%Z <= remaining)%Q
       ∧ (remaining < inject_Z (default 0 minutes * 60 + seconds)%Z + 1)%Q
       ∧ (minutes = None ↔ (remaining < 60)%Q)
       ∧ minutes ≠ Some 0).
Proof.
  intros res after remaining. subst res after remaining. unfold rate_limit.
  assert (∀ (o : wrapper_outcome) (P : Prop) (F : option Z → Z → Prop),
            message o = None → (1 ≤ func_calls o ≤ 2)%nat → ¬ P →
            (func_calls o ≤ 2)%nat
            ∧ (func_calls o = 0%nat ↔ is_Some (message o))
            ∧ (is_Some (message o) ↔ P)
            ∧ (∀ minutes seconds, message o = Some (minutes, seconds) → F minutes seconds))
    as Hnone.
  { intros o P F Hm Hc HP. rewrite Hm. split; [lia|].
    split; [split; [lia|by intros [? ?]]|]. split; [split; [by intros [? ?]|done]|]. done. }
  assert (∀ b1 b2 : bool,
            let o := if b1 then mkOutcome None 2 (if b2 then Propagates else Returns)
                     else mkOutcome None 1 Returns in
            message o = None ∧ (1 ≤ func_calls o ≤ 2)%nat) as Hcall
    by (intros [] ?; simpl; split; (done || lia)).
  destruct (is_rate_limited now u kind st) as [limited st1]. cbn [fst snd].
  set (remaining := get_remaining_time_at now' u st1).
  destruct limited.
  2:{ split; [done|]. destruct (Hcall raises raises') as [Hm Hc].
      apply Hnone; [exact Hm|exact Hc|]. by intros [? _]. }
  destruct (Qle_bool remaining 0) eqn:Hle; cbn [negb].
  { apply Qle_bool_iff in Hle.
    split; [done|]. destruct (Hcall raises raises') as [Hm Hc].
    apply Hnone; [exact Hm|exact Hc|]. intros (_ & Hpos & _). lra. }
  assert (0 < remaining)%Q as Hpos.
  { apply Qnot_le_lt. intros H. apply Qle_bool_iff in H. congruence. }
  destruct send_ok.
  2:{ split; [done|]. apply Hnone; [done|simpl; lia|]. by intros (_ & _ & ?). }
  destruct (floor_split remaining Hpos) as (Hm0 & Hs & Hlo & Hhi & Hmin).
  set (m := Qfloor (remaining / 60)) in *.
  set (s := Qfloor (remaining - 60 * inject_Z m)) in *.
  clearbody m. clearbody s.
  cbn [fst snd message func_calls wrapper_ends].
  split; [done|]. split; [lia|]. split; [split; [intros _; by eexists|done]|].
  split; [split; [done|intros _; by eexists]|].
  intros minutes seconds [= <- <-].
  split; [done|]. split; [exact Hs|].
  destruct (m =? 0) eqn:Hz.
  - apply Z.eqb_eq in Hz. rewrite Hz in Hlo, Hhi. cbn [default from_option id].
    split; [lia|]. split; [exact Hlo|]. split; [exact Hhi|].
    split; [|done]. split; [intros _; by apply Hmin|done].
  - apply Z.eqb_neq in Hz. cbn [default from_option id].
    split; [exact Hm0|]. split; [exact Hlo|]. split; [exact Hhi|].
    split; [|by intros [= ?]]. split; [done|]. intros Hlt. by apply Hmin in Hlt.
Qed.

Lemma denied_remaining_at now now' u kind st :
  (is_rate_limited now u kind st).1 = true →
  block_duration st = 0 → (inject_Z now <= now')%Q → ¬ blocked_at now' u st →
  get_remaining_time_at now' u (is_rate_limited now u kind st).2 = 0%Q.
Proof.
  intros Hv Hbd Hle Hnb. unfold get_remaining_time_at.
  destruct (is_rate_limited_denied now u kind st Hv) as [[Hb ->]|[_ ->]].
  - destruct (blocked_users st !! u) as [b|] eqn:Hbu; [|done]. cbv zeta.
    destruct (Qle_bool (inject_Z b - now') 0) eqn:Hq; [done|].
    exfalso. apply Hnb. exists b. split; [done|].
    apply Qnot_le_lt. intros H. assert (inject_Z b - now' <= 0)%Q as H' by lra.
    apply Qle_bool_iff in H'. congruence.
  - cbv zeta. rewrite Hbd, Z.add_0_r.
    assert (inject_Z now - now' <= 0)%Q as H' by lra.
    apply Qle_bool_iff in H'. by rewrite H'.
Qed.

(** X12.  With a [block_duration] of 0 the wrapper built by
    [rate_limit] rejects nobody who has no active block: whatever the
    limits and the windows, and whatever fraction of a second the clock
    shows, no message is sent and the wrapped command is called. *)
Theorem zero_block_duration_never_rejects (kind : string) (now : Z) (now' : Q)
    (send_ok raises raises' : bool) (u : string) (st : RateLimiter) :
  block_duration st = 0 → (inject_Z now <= now')%Q → ¬ blocked_at now' u st →
  let res := rate_limit kind now now' send_ok raises raises' u st in
  message res.1 = None ∧ (1 ≤ func_calls res.1)%nat.
Proof.
  intros Hbd Hle Hnb res. subst res.
  pose proof (denied_remaining_at now now' u kind st) as Hrem.
  unfold rate_limit.
  destruct (is_rate_limited now u kind st) as [limited st1]. cbn [fst snd] in *.
  destruct limited.
  2:{ destruct raises; simpl; split; (done || lia). }
  rewrite Hrem by done. cbn. destruct raises; simpl; split; (done || lia).
Qed.

Lemma zero_block_duration_never_rejects_witness :
  let st := set_block_duration 0 (set_commands_per_minute 0 RateLimiter_init) in
  let res := rate_limit "command" 10 (21 # 2) true false false "u" st in
  message res.1 = None ∧ (1 ≤ func_calls res.1)%nat.
Proof.
  apply (zero_block_duration_never_rejects "command" 10 (21 # 2) true false false "u").
  - reflexivity.
  - vm_compute. discriminate.
  - intros (b & Hb & _). vm_compute in Hb. inversion Hb.
Defined.

(** The text for half a second of remaining time is "0s". *)
Lemma wrapper_shows_whole_seconds :
  let st := set_blocked_users {["u" := 300]} RateLimiter_init in
  message (rate_limit "command" 10 (599 # 2) true false false "u" st).1
  = Some (None, 0).
Proof. vm_compute. reflexivity. Qed.

(** ** More on persistence *)

Lemma alike_bind {A B} (V : A → A → Prop) (V' : B → B → Prop) R Q T
    (m1 m2 : M A) (k1 k2 : A → M B) :
  alike V R Q m1 m2 →
  (∀ a1 a2, V a1 a2 → alike V' Q T (k1 a1) (k2 a2)) →
  alike V' R T (m1 ≫= k1) (m2 ≫= k2).
Proof.
  intros Hm Hk s1 s2 HR. specialize (Hm s1 s2 HR). unfold mbind, M_bind.
  destruct (m1 s1) as [a1 t1|t1|], (m2 s2) as [a2 t2|t2|]; simpl in *; try done.
  destruct Hm as [HV HQ]. by apply Hk.
Qed.

Lemma alike_modify2 (R Q : RateLimiter → RateLimiter → Prop) f g :
  (∀ s1 s2, R s1 s2 → Q (f s1) (g s2)) →
  alike (fun _ _ => True) R Q (modify f) (modify g).
Proof. intros Hf s1 s2 HR. simpl. split; [done|]. by apply Hf. Qed.

Lemma alike_modify (R Q : RateLimiter → RateLimiter → Prop) f :
  (∀ s1 s2, R s1 s2 → Q (f s1) (f s2)) →
  alike (fun _ _ => True) R Q (modify f) (modify f).
Proof. apply alike_modify2. Qed.

(** A computation that reads the document only. *)
Lemma alike_reader {A} (R : RateLimiter → RateLimiter → Prop) (m : M A) :
  (∀ s1 s2, match m s1, m s2 with
            | Ok a1 t1, Ok a2 t2 => a1 = a2 ∧ t1 = s1 ∧ t2 = s2
            | Raise _, Raise _ => True
            | Untyped, Untyped => True
            | _, _ => False
            end) →
  alike eq R R m m.
Proof.
  intros Hm s1 s2 HR. specialize (Hm s1 s2). unfold ends_alike.
  destruct (m s1) as [a1 t1|t1|], (m s2) as [a2 t2|t2|]; try done.
  destruct Hm as (-> & -> & ->). done.
Qed.

Lemma get_dict_reader data key s1 s2 :
  match get_dict data key s1, get_dict data key s2 with
  | Ok a1 t1, Ok a2 t2 => a1 = a2 ∧ t1 = s1 ∧ t2 = s2
  | Raise _, Raise _ => True
  | Untyped, Untyped => True
  | _, _ => False
  end.
Proof.
  unfold get_dict. destruct data; try done.
  destruct (members_get key members) as [[]|]; done.
Qed.

Lemma to_deque_reader lst s1 s2 :
  match to_deque lst s1, to_deque lst s2 with
  | Ok a1 t1, Ok a2 t2 => a1 = a2 ∧ t1 = s1 ∧ t2 = s2
  | Raise _, Raise _ => True
  | Untyped, Untyped => True
  | _, _ => False
  end.
Proof.
  unfold to_deque. destruct lst as [| | |s|items|members]; try done.
  - by destruct (String.eqb s "").
  - by destruct (as_numbers items).
  - by destruct members.
Qed.

Lemma copy_blocked_reader d s1 s2 :
  match copy_blocked d s1, copy_blocked d s2 with
  | Ok a1 t1, Ok a2 t2 => a1 = a2 ∧ t1 = s1 ∧ t2 = s2
  | Raise _, Raise _ => True
  | Untyped, Untyped => True
  | _, _ => False
  end.
Proof.
  induction d as [|[k v] d IH]; [done|]. cbn [copy_blocked].
  unfold mbind, M_bind. destruct v; try done. simpl.
  destruct (copy_blocked d s1) as [m1 t1|t1|], (copy_blocked d s2) as [m2 t2|t2|];
    try done.
  destruct IH as (-> & -> & ->). done.
Qed.

Lemma alike_load_windows (R : RateLimiter → RateLimiter → Prop) store d :
  (∀ uid q s1 s2, R s1 s2 → R (store uid q s1) (store uid q s2)) →
  alike (fun _ _ => True) R R (load_windows store d) (load_windows store d).
Proof.
  intros Hstore. induction d as [|[uid lst] d IH]; [by intros s1 s2 HR|].
  cbn [load_windows]. eapply alike_bind.
  { apply alike_reader, to_deque_reader. }
  intros q ? <-. eapply alike_bind; [|intros _ _ _; exact IH].
  apply alike_modify. intros s1 s2. apply Hstore.
Qed.

Lemma alike_weaken {A} (V V' : A → A → Prop) R Q (m1 m2 : M A) :
  (∀ a1 a2, V a1 a2 → V' a1 a2) → alike V R Q m1 m2 → alike V' R Q m1 m2.
Proof.
  intros HV Hm s1 s2 HR. specialize (Hm s1 s2 HR). unfold ends_alike in *.
  destruct (m1 s1), (m2 s2); try done. destruct Hm. split; [by apply HV|done].
Qed.

Lemma alike_as_number (R : RateLimiter → RateLimiter → Prop) v :
  alike eq R R (as_number v) (as_number v).
Proof. intros s1 s2 HR. by destruct v. Qed.

Lemma alike_gets {A} (R : RateLimiter → RateLimiter → Prop) (f : RateLimiter → A) :
  alike (fun _ _ => True) R R (gets f) (gets f).
Proof. by intros s1 s2 HR. Qed.

Lemma update_stat_alike k z p1 p2 :
  match update_stat k z p1, update_stat k z p2 with
  | Some _, Some _ | None, None => True
  | _, _ => False
  end.
Proof.
  unfold update_stat.
  destruct (String.eqb k "total_requests"); [done|].
  destruct (String.eqb k "blocked_requests"); [done|].
  by destruct (String.eqb k "cleanup_runs").
Qed.

Lemma alike_update_stats d :
  alike (fun _ _ => True) same_maps same_maps (update_stats d) (update_stats d).
Proof.
  induction d as [|[k v] d IH]; [by intros s1 s2 HR|].
  cbn [update_stats]. eapply alike_bind; [apply alike_as_number|].
  intros z ? <-. eapply alike_bind; [apply alike_gets|].
  intros p1 p2 _. pose proof (update_stat_alike k z p1 p2) as Hk.
  destruct (update_stat k z p1) as [p1'|], (update_stat k z p2) as [p2'|]; try done.
  intros s1 s2 HR. unfold mbind, M_bind. simpl.
  apply (IH (set_performance_stats p1' s1) (set_performance_stats p2' s2)).
  exact HR.
Qed.

Lemma alike_stats_update data :
  alike (fun _ _ => True) same_maps same_maps (stats_update data) (stats_update data).
Proof.
  unfold stats_update. destruct data as [| | | | |members]; try by intros s1 s2 HR.
  destruct (members_get "performance_stats" members) as [[| | |s|[|]|d]|];
    try by intros s1 s2 HR.
  - destruct (String.eqb s ""); by intros s1 s2 HR.
  - apply alike_update_stats.
Qed.

Lemma alike_cfg_get (R : RateLimiter → RateLimiter → Prop) cfg key cur :
  alike (fun _ _ => True) R R (cfg_get cfg key cur) (cfg_get cfg key cur).
Proof.
  unfold cfg_get. destruct (members_get key cfg) as [v|].
  - eapply alike_weaken; [|apply alike_as_number]. done.
  - apply alike_gets.
Qed.

Lemma alike_load_body data :
  alike (fun _ _ => True) (fun _ _ => True) same_maps (load_body data) (load_body data).
Proof.
  unfold load_body.
  set (R1 := fun s1 s2 : RateLimiter => user_commands s1 = user_commands s2).
  set (R2 := fun s1 s2 : RateLimiter =>
               user_commands s1 = user_commands s2
               ∧ user_tasks_created s1 = user_tasks_created s2).
  eapply (alike_bind _ _ _ R1).
  { apply alike_modify. intros s1 s2 _. reflexivity. }
  intros _ _ _. eapply (alike_bind _ _ _ R2).
  { apply alike_modify. intros s1 s2 H. split; [exact H|reflexivity]. }
  intros _ _ _. eapply (alike_bind _ _ _ R2).
  { apply alike_reader, get_dict_reader. }
  intros uc ? <-. eapply (alike_bind _ _ _ R2).
  { apply alike_load_windows. intros uid q s1 s2 [Hc Ht]. split; simpl; [|exact Ht].
    by rewrite Hc. }
  intros _ _ _. eapply (alike_bind _ _ _ R2).
  { apply alike_reader, get_dict_reader. }
  intros ut ? <-. eapply (alike_bind _ _ _ R2).
  { apply alike_load_windows. intros uid q s1 s2 [Hc Ht]. split; simpl; [exact Hc|].
    by rewrite Ht. }
  intros _ _ _. eapply (alike_bind _ _ _ R2).
  { apply alike_reader, get_dict_reader. }
  intros bu ? <-. eapply (alike_bind _ _ _ R2).
  { apply alike_reader, copy_blocked_reader. }
  intros blocked ? <-. eapply (alike_bind _ _ _ same_maps).
  { apply alike_modify. intros s1 s2 [Hc Ht]. by repeat split. }
  intros _ _ _. eapply (alike_bind _ _ _ same_maps); [apply alike_stats_update|].
  intros _ _ _. eapply (alike_bind _ _ _ same_maps).
  { apply alike_reader, get_dict_reader. }
  intros cfg ? <-.
  eapply (alike_bind _ _ _ same_maps); [apply alike_cfg_get|]. intros ? ? _.
  eapply (alike_bind _ _ _ same_maps);
    [apply alike_modify2; intros s1 s2 H; exact H|]. intros _ _ _.
  eapply (alike_bind _ _ _ same_maps); [apply alike_cfg_get|]. intros ? ? _.
  eapply (alike_bind _ _ _ same_maps);
    [apply alike_modify2; intros s1 s2 H; exact H|]. intros _ _ _.
  eapply (alike_bind _ _ _ same_maps); [apply alike_cfg_get|]. intros ? ? _.
  apply alike_modify2. intros s1 s2 H. exact H.
Qed.

(** X13.  What [_load_state] leaves in the three maps depends on the
    snapshot alone: for two limiters in any states, loading the same
    document ends the same way (loaded, failed and logged, or outside
    the typed model) with the same log line, and after a successful
    load both hold the same command windows, task windows and
    blocks. *)
Theorem load_replaces_the_maps (data : json) (st1 st2 : RateLimiter) :
  match (_load_state (Document data) st1).1.2, (_load_state (Document data) st2).1.2 with
  | Some s1, Some s2 =>
      (_load_state (Document data) st1).2 = (_load_state (Document data) st2).2
      ∧ ((_load_state (Document data) st1).2 = [InfoStateLoaded] → same_maps s1 s2)
  | None, None => True
  | _, _ => False
  end.
Proof.
  pose proof (alike_load_body data st1 st2 I) as H. unfold ends_alike in H.
  simpl. destruct (load_body data st1) as [[] s1|s1|], (load_body data st2) as [[] s2|s2|];
    simpl; try done.
  destruct H as [_ H]. done.
Qed.

Lemma keeps_Ok (P : RateLimiter → Prop) {A} (m : M A) st a st' :
  keeps P m → P st → m st = Ok a st' → P st'.
Proof. intros Hm HP Hr. specialize (Hm st HP). by rewrite Hr in Hm. Qed.

Lemma cfg_get_Ok cfg key cur st z st' :
  cfg_get cfg key cur st = Ok z st' →
  st' = st ∧ (members_get key cfg = None → z = cur st).
Proof.
  intros H. pose proof (cfg_get_total_pure cfg key cur st) as Hp. rewrite H in Hp.
  split; [done|]. intros E. unfold cfg_get in H. rewrite E in H. by injection H.
Qed.

Lemma copy_blocked_Ok d st m st' : copy_blocked d st = Ok m st' → st' = st.
Proof. intros H. pose proof (copy_blocked_total_pure d st) as Hp. by rewrite H in Hp. Qed.

(** The stages of a load that ran to its end. *)
Lemma load_body_Ok members st st' :
  load_body (JObj members) st = Ok tt st' →
  ∃ uc ut bu blocked cfg s3 s4 s6,
    get_dict (JObj members) "user_commands" st = Ok uc st
    ∧ load_windows (fun uid q st => set_user_commands (<[uid := q]> (user_commands st)) st)
        uc (set_user_tasks_created ∅ (set_user_commands ∅ st)) = Ok tt s3
    ∧ get_dict (JObj members) "user_tasks_created" st = Ok ut st
    ∧ load_windows (fun uid q st =>
                      set_user_tasks_created (<[uid := q]> (user_tasks_created st)) st)
        ut s3 = Ok tt s4
    ∧ get_dict (JObj members) "blocked_users" st = Ok bu st
    ∧ copy_blocked bu st = Ok blocked st
    ∧ stats_update (JObj members) (set_blocked_users blocked s4) = Ok tt s6
    ∧ get_dict (JObj members) "config" st = Ok cfg st
    ∧ (members_get "commands_per_minute" cfg = None →
       commands_per_minute st' = commands_per_minute s6)
    ∧ (members_get "tasks_per_hour" cfg = None → tasks_per_hour st' = tasks_per_hour s6)
    ∧ (members_get "block_duration" cfg = None → block_duration st' = block_duration s6)
    ∧ user_commands st' = user_commands s6
    ∧ user_tasks_created st' = user_tasks_created s6
    ∧ blocked_users st' = blocked_users s6
    ∧ performance_stats st' = performance_stats s6.
Proof.
  unfold load_body. intros H.
  apply bind_Ok_inv in H as ([] & s1 & [= <-] & H).
  apply bind_Ok_inv in H as ([] & s2 & [= <-] & H).
  apply bind_Ok_inv in H as (uc & s & Huc & H).
  destruct (get_dict_Ok _ _ _ _ _ Huc) as [-> _].
  apply bind_Ok_inv in H as ([] & s3 & H3 & H).
  apply bind_Ok_inv in H as (ut & s & Hut & H).
  destruct (get_dict_Ok _ _ _ _ _ Hut) as [-> _].
  apply bind_Ok_inv in H as ([] & s4 & H4 & H).
  apply bind_Ok_inv in H as (bu & s & Hbu & H).
  destruct (get_dict_Ok _ _ _ _ _ Hbu) as [-> _].
  apply bind_Ok_inv in H as (blocked & s & Hbl & H).
  pose proof (copy_blocked_Ok _ _ _ _ Hbl) as ->.
  apply bind_Ok_inv in H as ([] & s5 & [= <-] & H).
  apply bind_Ok_inv in H as ([] & s6 & H6 & H).
  apply bind_Ok_inv in H as (cfg & s & Hcfg & H).
  destruct (get_dict_Ok _ _ _ _ _ Hcfg) as [-> _].
  apply bind_Ok_inv in H as (cpm & s & Hcpm & H).
  destruct (cfg_get_Ok _ _ _ _ _ _ Hcpm) as [-> Ecpm].
  apply bind_Ok_inv in H as ([] & s7 & [= <-] & H).
  apply bind_Ok_inv in H as (tph & s & Htph & H).
  destruct (cfg_get_Ok _ _ _ _ _ _ Htph) as [-> Etph].
  apply bind_Ok_inv in H as ([] & s8 & [= <-] & H).
  apply bind_Ok_inv in H as (bd & s & Hbd & H).
  destruct (cfg_get_Ok _ _ _ _ _ _ Hbd) as [-> Ebd].
  injection H as <-.
  exists uc, ut, bu, blocked, cfg, s3, s4, s6.
  assert (∀ {A} key (d : A) (s t : RateLimiter) r,
            get_dict (JObj members) key s = Ok r s → get_dict (JObj members) key t = Ok r t)
    as Hmove.
  { intros A key d s t r. unfold get_dict.
    destruct (members_get key members) as [[]|]; try done; by intros [= <-]. }
  assert (∀ s t, copy_blocked bu s = Ok blocked s → copy_blocked bu t = Ok blocked t)
    as Hmoveb.
  { intros s t Hs. pose proof (copy_blocked_reader bu s t) as Hr. rewrite Hs in Hr.
    destruct (copy_blocked bu t) as [b' t'| |]; try done. by destruct Hr as (<- & _ & ->). }
  repeat split.
  - by eapply (Hmove unit _ tt).
  - exact H3.
  - by eapply (Hmove unit _ tt).
  - exact H4.
  - by eapply (Hmove unit _ tt).
  - by eapply Hmoveb.
  - exact H6.
  - by eapply (Hmove unit _ tt).
  - intros E. simpl. by rewrite (Ecpm E).
  - intros E. simpl. by rewrite (Etph E).
  - intros E. simpl. by rewrite (Ebd E).
Qed.

Lemma load_windows_nil store st : load_windows store [] st = Ok tt st.
Proof. reflexivity. Qed.

Lemma get_dict_missing members key st d :
  members_get key members = None → get_dict (JObj members) key st = Ok d st → d = [].
Proof. intros E H. apply get_dict_Ok in H as (_ & m & [= <-] & H). by rewrite E in H. Qed.

(** X14.  Sections missing from a snapshot.  After a load that ran to
    its end, a missing "user_commands", "user_tasks_created" or
    "blocked_users" section leaves that map empty, a missing
    "performance_stats" section leaves the counters as they were, and a
    missing "config" section leaves the three limits as they were. *)
Theorem load_without_a_section (members : list (string * json)) (st st' : RateLimiter)
    (Hload : load_body (JObj members) st = Ok tt st') :
  (members_get "user_commands" members = None → user_commands st' = ∅)
  ∧ (members_get "user_tasks_created" members = None → user_tasks_created st' = ∅)
  ∧ (members_get "blocked_users" members = None → blocked_users st' = ∅)
  ∧ (members_get "performance_stats" members = None →
     performance_stats st' = performance_stats st)
  ∧ (members_get "config" members = None → same_config st st').
Proof.
  apply load_body_Ok in Hload
    as (uc & ut & bu & blocked & cfg & s3 & s4 & s6 & Huc & H3 & Hut & H4 & Hbu & Hbl
        & H6 & Hcfg & Ecpm & Etph & Ebd & Ec & Et & Eb & Ep).
  assert (user_commands s4 = user_commands s3) as Ec4.
  { refine (keeps_Ok (fun s => user_commands s = user_commands s3) _ _ _ _ _ eq_refl H4).
    apply keeps_load_windows. by intros uid q s. }
  assert (user_commands s6 = user_commands s4) as Ec6.
  { refine (keeps_Ok (fun s => user_commands s = user_commands s4) _ _ _ _ _ _ H6);
      [|reflexivity].
    apply keeps_stats_update. by intros p s. }
  assert (user_tasks_created s6 = user_tasks_created s4) as Et6.
  { refine (keeps_Ok (fun s => user_tasks_created s = user_tasks_created s4) _ _ _ _ _
              _ H6); [|reflexivity].
    apply keeps_stats_update. by intros p s. }
  assert (blocked_users s6 = blocked) as Eb6.
  { refine (keeps_Ok (fun s => blocked_users s = blocked) _ _ _ _ _ _ H6);
      [|reflexivity].
    apply keeps_stats_update. by intros p s. }
  assert (same_config st s6 ∧ (members_get "performance_stats" members = None →
                                performance_stats s6 = performance_stats st)) as [Hc6 Ep6].
  { assert (same_config st s3 ∧ performance_stats s3 = performance_stats st) as [Hc3 Ep3].
    { refine (keeps_Ok (fun s => same_config st s ∧ performance_stats s = performance_stats st)
                _ _ _ _ _ _ H3); [|done].
      apply keeps_load_windows. by intros uid q s. }
    assert (same_config st s4 ∧ performance_stats s4 = performance_stats st) as [Hc4 Ep4].
    { refine (keeps_Ok (fun s => same_config st s ∧ performance_stats s = performance_stats st)
                _ _ _ _ _ _ H4); [|done].
      apply keeps_load_windows. by intros uid q s. }
    split.
    - refine (keeps_Ok (same_config st) _ _ _ _ _ _ H6); [|exact Hc4].
      apply keeps_stats_update. by intros p s.
    - intros E. unfold stats_update in H6. rewrite E in H6. injection H6 as <-. exact Ep4. }
  split; [|split; [|split; [|split]]].
  - intros E. pose proof (get_dict_missing _ _ _ _ E Huc) as ->.
    injection H3 as <-. by rewrite Ec, Ec6, Ec4.
  - intros E. pose proof (get_dict_missing _ _ _ _ E Hut) as ->.
    injection H4 as <-. rewrite Et, Et6.
    refine (keeps_Ok (fun s => user_tasks_created s = ∅) _ _ _ _ _ _ H3); [|done].
    apply keeps_load_windows. by intros uid q s.
  - intros E. pose proof (get_dict_missing _ _ _ _ E Hbu) as ->.
    injection Hbl as <-. by rewrite Eb, Eb6.
  - intros E. rewrite Ep. by apply Ep6.
  - intros E. pose proof (get_dict_missing _ _ _ _ E Hcfg) as ->.
    destruct Hc6 as (H1 & H2 & H3').
    unfold same_config. rewrite Ecpm, Etph, Ebd by done. done.
Qed.

Lemma load_without_a_section_witness :
  load_body (JObj [("blocked_users", JObj [("u", JNum 900)])]) blocked_after_31
  = Ok tt (set_blocked_users {["u" := 900]}
             (set_user_tasks_created ∅ (set_user_commands ∅ blocked_after_31)))
  ∧ same_config blocked_after_31
      (set_blocked_users {["u" := 900]}
         (set_user_tasks_created ∅ (set_user_commands ∅ blocked_after_31))).
Proof.
  assert (load_body (JObj [("blocked_users", JObj [("u", JNum 900)])]) blocked_after_31
          = Ok tt (set_blocked_users {["u" := 900]}
                     (set_user_tasks_created ∅ (set_user_commands ∅ blocked_after_31))))
    as H by (vm_compute; reflexivity).
  split; [exact H|].
  exact (proj2 (proj2 (proj2 (proj2
           (load_without_a_section _ _ _ H)))) eq_refl).
Defined.

(** ** More on calendar arithmetic *)

Lemma timedelta_new_normal days seconds us :
  let t := timedelta_new days seconds us in
  0 ≤ td_seconds t < 86400 ∧ 0 ≤ td_microseconds t < 1000000
  ∧ td_total t = (days * 86400 + seconds) * 1000000 + us.
Proof.
  unfold timedelta_new, td_total. cbn [td_days td_seconds td_microseconds].
  pose proof (Z.div_mod us 1000000 ltac:(done)) as H1.
  pose proof (Z.mod_pos_bound us 1000000 ltac:(done)) as H2.
  pose proof (Z.div_mod (seconds + us / 1000000) 86400 ltac:(done)) as H3.
  pose proof (Z.mod_pos_bound (seconds + us / 1000000) 86400 ltac:(done)) as H4.
  lia.
Qed.

(** [datetime.__add__] is exact on the wall clock, keeps the zone, and
    yields a valid date whenever it yields one. *)
Lemma datetime_add_Some d t r :
  datetime_valid d = true →
  datetime_add d t = Some r →
  datetime_valid r = true
  ∧ utcoffset r = utcoffset d
  ∧ wallclock r = wallclock d + td_total t.
Proof.
  intros Hv. unfold datetime_add.
  set (delta := timedelta_new _ _ _).
  destruct (timedelta_new_normal (toordinal d + td_days t)
              (hour d * 3600 + minute d * 60 + second d + td_seconds t)
              (microsecond d + td_microseconds t)) as (Hs & Hus & Htot).
  fold delta in Hs, Hus, Htot. clearbody delta.
  destruct ((0 <? td_days delta) && (td_days delta <=? _MAXORDINAL)) eqn:Hin; [|done].
  apply andb_true_iff in Hin as [Hlo Hhi].
  pose proof (ord2ymd_ok (td_days delta) ltac:(lia)) as Hok.
  destruct (_ord2ymd (td_days delta)) as [[y m] dd].
  destruct Hok as [Hchk Hord].
  intros [= <-]. split; [|split; [done|]].
  - unfold datetime_valid. cbn [year month day hour minute second microsecond].
    rewrite Hchk. cbn [andb]. unfold _check_time_fields.
    rewrite !andb_true_iff, !Z.leb_le.
    pose proof (Z.div_mod (td_seconds delta) 3600 ltac:(done)).
    pose proof (Z.mod_pos_bound (td_seconds delta) 3600 ltac:(done)).
    pose proof (Z.div_mod (td_seconds delta mod 3600) 60 ltac:(done)).
    pose proof (Z.mod_pos_bound (td_seconds delta mod 3600) 60 ltac:(done)).
    lia.
  - unfold wallclock, toordinal.
    cbn [year month day hour minute second microsecond].
    rewrite Hord. unfold td_total in *. fold (toordinal d).
    pose proof (Z.div_mod (td_seconds delta) 3600 ltac:(done)).
    pose proof (Z.div_mod (td_seconds delta mod 3600) 60 ltac:(done)).
    lia.
Qed.

Lemma instant_wallclock d : instant d = wallclock d - utcoffset d * 1000000.
Proof. unfold instant, wallclock. lia. Qed.

Lemma td_total_seconds n : td_total (timedelta_seconds n) = n * 1000000.
Proof.
  destruct (timedelta_new_normal 0 n 0) as (_ & _ & H). unfold timedelta_seconds.
  rewrite H. lia.
Qed.

(** [astimezone] changes the zone, not the instant. *)
Lemma astimezone_Some tz d r :
  datetime_valid d = true →
  astimezone tz d = Some r →
  datetime_valid r = true ∧ instant r = instant d
  ∧ utcoffset r = tz (instant d `div` 1000000).
Proof.
  intros Hv. unfold astimezone.
  destruct (datetime_add d (timedelta_seconds (- utcoffset d))) as [utc|] eqn:Hutc;
    simpl; [|done].
  destruct (datetime_add_Some _ _ _ Hv Hutc) as (Hvu & Hou & Hwu).
  rewrite td_total_seconds in Hwu.
  destruct (datetime_add utc (timedelta_seconds _)) as [loc|] eqn:Hloc; simpl; [|done].
  destruct (datetime_add_Some _ _ _ Hvu Hloc) as (Hvl & Hol & Hwl).
  rewrite td_total_seconds in Hwl.
  intros [= <-].
  assert (wallclock utc = instant d) as Hi by (rewrite instant_wallclock; lia).
  split; [|split].
  - exact Hvl.
  - rewrite instant_wallclock. cbn [utcoffset].
    unfold wallclock, toordinal in *.
    cbn [year month day hour minute second microsecond]. lia.
  - cbn [utcoffset]. by rewrite Hi.
Qed.

Lemma days_before_year_succ y :
  _days_before_year (y + 1) = _days_before_year y + (if _is_leap y then 366 else 365).
Proof.
  unfold _days_before_year, _is_leap. replace (y + 1 - 1) with y by lia.
  destruct (y mod 4 =? 0) eqn:H4; destruct (y mod 100 =? 0) eqn:H100;
    destruct (y mod 400 =? 0) eqn:H400; cbn [andb orb negb];
    rewrite ?Z.eqb_eq, ?Z.eqb_neq in *;
    pose proof (Z.div_mod y 4 ltac:(done));
    pose proof (Z.mod_pos_bound y 4 ltac:(done));
    pose proof (Z.div_mod y 100 ltac:(done));
    pose proof (Z.mod_pos_bound y 100 ltac:(done));
    pose proof (Z.div_mod y 400 ltac:(done));
    pose proof (Z.mod_pos_bound y 400 ltac:(done));
    pose proof (Z.div_mod (y - 1) 4 ltac:(done));
    pose proof (Z.mod_pos_bound (y - 1) 4 ltac:(done));
    pose proof (Z.div_mod (y - 1) 100 ltac:(done));
    pose proof (Z.mod_pos_bound (y - 1) 100 ltac:(done));
    pose proof (Z.div_mod (y - 1) 400 ltac:(done));
    pose proof (Z.mod_pos_bound (y - 1) 400 ltac:(done));
    lia.
Qed.

(** From a day of one month to the same day of the next there are as
    many days as the first month has. *)
Lemma ymd2ord_next_month y m dd :
  1 ≤ m ≤ 12 →
  _ymd2ord (next_month y m).1 (next_month y m).2 dd
  = _ymd2ord y m dd + _days_in_month y m.
Proof.
  intros Hm. unfold next_month, _ymd2ord.
  destruct (m + 1 >? 12) eqn:Hdec; cbn [fst snd].
  - assert (m = 12) as -> by lia. rewrite days_before_year_succ.
    unfold _days_before_month, _days_in_month. cbn.
    destruct (_is_leap y); cbn; lia.
  - assert (m = 1 ∨ m = 2 ∨ m = 3 ∨ m = 4 ∨ m = 5 ∨ m = 6 ∨ m = 7 ∨ m = 8 ∨ m = 9
            ∨ m = 10 ∨ m = 11) as Hcases by lia.
    unfold _days_before_month, _days_in_month.
    destruct Hcases as [->|[->|[->|[->|[->|[->|[->|[->|[->|[->| ->]]]]]]]]]];
      match goal with
      | |- context [_DAYS_BEFORE_MONTH (?a + 1)] =>
          let v := eval vm_compute in (a + 1) in change (a + 1) with v
      end;
      cbn; destruct (_is_leap y); cbn; lia.
Qed.

Lemma monthly_branch d rule :
  lower rule = "monthly" →
  calculate_next_deadline d rule
  = match datetime_replace d (next_month (year d) (month d)).1
            (next_month (year d) (month d)).2 with
    | Some r => Some r
    | None => datetime_add d (timedelta_days 30)
    end
  ∧ Part1.calculate_next_deadline d rule
    = match datetime_replace d (next_month (year d) (month d)).1
              (next_month (year d) (month d)).2 with
      | Some r => Returned (Some r)
      | None => match datetime_add d (timedelta_days 30) with
                | Some r => Returned (Some r)
                | None => Raised
                end
      end.
Proof.
  intros Hrule. unfold calculate_next_deadline, Part1.calculate_next_deadline, next_month.
  rewrite Hrule. cbn [String.eqb Ascii.eqb Bool.eqb].
  by destruct (month d + 1 >? 12).
Qed.

(** X15.  The rule "monthly" (compared after [str.lower]), in both
    copies of [calculate_next_deadline], for a valid aware datetime.
    When the day of the month exists in the following month (January of
    the next year after December, up to year 9999), the result is the
    same day and time of day in that month, as many days later as the
    current month has.  Otherwise the result is [d + 30 days]: a valid
    datetime in the same zone exactly 30 days later as long as that
    stays within [datetime.max]; past it the improved copy returns
    [None] and the first copy raises. *)
Theorem next_deadline_monthly (d : datetime) (rule : string) :
  datetime_valid d = true →
  lower rule = "monthly" →
  let ym := next_month (year d) (month d) in
  (day d ≤ _days_in_month ym.1 ym.2 → ym.1 ≤ MAXYEAR →
   calculate_next_deadline d rule = Some (moved_to d ym)
   ∧ Part1.calculate_next_deadline d rule = Returned (Some (moved_to d ym))
   ∧ datetime_valid (moved_to d ym) = true
   ∧ instant (moved_to d ym)
     = instant d + _days_in_month (year d) (month d) * 86400000000)
  ∧ (_days_in_month ym.1 ym.2 < day d ∨ MAXYEAR < ym.1 →
     calculate_next_deadline d rule = datetime_add d (timedelta_days 30)
     ∧ (toordinal d + 30 ≤ _MAXORDINAL →
        ∃ r, calculate_next_deadline d rule = Some r
             ∧ Part1.calculate_next_deadline d rule = Returned (Some r)
             ∧ datetime_valid r = true
             ∧ utcoffset r = utcoffset d
             ∧ instant r = instant d + 30 * 86400000000)
     ∧ (_MAXORDINAL < toordinal d + 30 →
        calculate_next_deadline d rule = None
        ∧ Part1.calculate_next_deadline d rule = Raised)).
Proof.
  intros Hv Hrule ym.
  destruct (monthly_branch d rule Hrule) as [Hnew Hold]. fold ym in Hnew, Hold.
  pose proof (datetime_valid_fields d Hv) as ((Hy & Hm & Hd) & Htime).
  assert (1 ≤ ym.1 ∧ 1 ≤ ym.2 ≤ 12) as [Hy' Hm'].
  { subst ym. unfold next_month. destruct (month d + 1 >? 12) eqn:E; cbn [fst snd]; lia. }
  split.
  - intros Hday Hyear.
    assert (_check_date_fields ym.1 ym.2 (day d) = true) as Hchk.
    { unfold _check_date_fields, MINYEAR. rewrite !andb_true_iff, !Z.leb_le. lia. }
    unfold datetime_replace in Hnew, Hold. rewrite Hchk in Hnew, Hold.
    split; [exact Hnew|]. split; [exact Hold|]. split.
    + unfold datetime_valid, moved_to.
      cbn [year month day hour minute second microsecond]. rewrite Hchk.
      unfold datetime_valid in Hv. apply andb_true_iff in Hv as [_ Hv]. by rewrite Hv.
    + unfold instant, toordinal, moved_to.
      cbn [year month day hour minute second microsecond utcoffset].
      subst ym. rewrite ymd2ord_next_month by done. lia.
  - intros Hbad.
    assert (_check_date_fields ym.1 ym.2 (day d) = false) as Hchk.
    { unfold _check_date_fields. rewrite !andb_false_iff, !Z.leb_gt. lia. }
    unfold datetime_replace in Hnew, Hold. rewrite Hchk in Hnew, Hold.
    split; [exact Hnew|]. split.
    + intros Hmax. pose proof (toordinal_pos d Hv) as Hpos.
      destruct (datetime_add_days d 30 Hv ltac:(lia)) as (r & Hr & Hvr & Hoff & Hi).
      exists r. rewrite Hnew, Hold, Hr. repeat split; try done.
    + intros Hover. rewrite Hnew, Hold.
      by rewrite (datetime_add_days_overflow d 30 Hv Hover).
Qed.

Lemma next_deadline_monthly_witness :
  let d := mkDatetime 2024 12 15 10 30 0 0 25200 in
  calculate_next_deadline d "Monthly" = Some (mkDatetime 2025 1 15 10 30 0 0 25200)
  ∧ Part1.calculate_next_deadline d "Monthly"
    = Returned (Some (mkDatetime 2025 1 15 10 30 0 0 25200))
  ∧ datetime_valid (mkDatetime 2025 1 15 10 30 0 0 25200) = true
  ∧ instant (mkDatetime 2025 1 15 10 30 0 0 25200) = instant d + 31 * 86400000000.
Proof.
  intros d.
  destruct (next_deadline_monthly d "Monthly" eq_refl eq_refl) as [Hsame _].
  apply Hsame; vm_compute; discriminate.
Defined.

Lemma td_total_days n : td_total (timedelta_days n) = n * 86400000000.
Proof. rewrite timedelta_days_eq. unfold td_total. simpl. lia. Qed.

Lemma days_in_month_range y m : 1 ≤ m ≤ 12 → 28 ≤ _days_in_month y m ≤ 31.
Proof.
  intros Hm.
  assert (m = 1 ∨ m = 2 ∨ m = 3 ∨ m = 4 ∨ m = 5 ∨ m = 6 ∨ m = 7 ∨ m = 8 ∨ m = 9
          ∨ m = 10 ∨ m = 11 ∨ m = 12) as Hcases by lia.
  unfold _days_in_month.
  destruct Hcases as [->|[->|[->|[->|[->|[->|[->|[->|[->|[->|[->| ->]]]]]]]]]]];
    cbn; destruct (_is_leap y); cbn; lia.
Qed.

Lemma datetime_add_days_Some d n r :
  datetime_valid d = true →
  datetime_add d (timedelta_days n) = Some r →
  datetime_valid r = true ∧ utcoffset r = utcoffset d
  ∧ instant r = instant d + n * 86400000000.
Proof.
  intros Hv Hr. destruct (datetime_add_Some d _ r Hv Hr) as (Hvr & Ho & Hw).
  rewrite td_total_days in Hw. rewrite !instant_wallclock, Ho. split; [done|]. split; [done|lia].
Qed.

(** Whatever [calculate_next_deadline] returns lies a whole number of
    days after its argument, in the same zone. *)
Lemma next_deadline_period last rule next :
  datetime_valid last = true →
  calculate_next_deadline last rule = Some next →
  datetime_valid next = true
  ∧ utcoffset next = utcoffset last
  ∧ ∃ days, period_of rule days ∧ instant next = instant last + days * 86400000000.
Proof.
  intros Hv. unfold period_of.
  destruct (String.eqb (lower rule) "daily") eqn:Hd.
  { apply String.eqb_eq in Hd. unfold calculate_next_deadline. rewrite Hd.
    cbn [String.eqb Ascii.eqb Bool.eqb]. intros Hr.
    destruct (datetime_add_days_Some _ _ _ Hv Hr) as (? & ? & ?).
    split; [done|]. split; [done|]. exists 1. split; [by left|done]. }
  destruct (String.eqb (lower rule) "weekly") eqn:Hw.
  { apply String.eqb_eq in Hw. unfold calculate_next_deadline. rewrite Hw.
    cbn [String.eqb Ascii.eqb Bool.eqb]. rewrite timedelta_weeks_eq. intros Hr.
    destruct (datetime_add_days_Some _ _ _ Hv Hr) as (? & ? & ?).
    split; [done|]. split; [done|]. exists 7. split; [by right; left|lia]. }
  destruct (String.eqb (lower rule) "monthly") eqn:Hm.
  2:{ unfold calculate_next_deadline. by rewrite Hd, Hw, Hm. }
  apply String.eqb_eq in Hm.
  destruct (monthly_branch last rule Hm) as [-> _].
  pose proof (datetime_valid_fields last Hv) as ((Hy & Hmo & Hday) & Htime).
  unfold datetime_replace.
  destruct (_check_date_fields _ _ (day last)) eqn:Hchk.
  - intros [= <-]. split; [|split; [done|]].
    + unfold datetime_valid. cbn [year month day hour minute second microsecond].
      rewrite Hchk. unfold datetime_valid in Hv.
      apply andb_true_iff in Hv as [_ Hv]. by rewrite Hv.
    + exists (_days_in_month (year last) (month last)). split.
      * right; right. split; [done|]. by apply days_in_month_range.
      * unfold instant, toordinal.
        cbn [year month day hour minute second microsecond utcoffset].
        rewrite ymd2ord_next_month by done. lia.
  - intros Hr. destruct (datetime_add_days_Some _ _ _ Hv Hr) as (? & ? & ?).
    split; [done|]. split; [done|]. exists 30. split; [|done].
    right; right. split; [done|lia].
Qed.

Section SchedulerMore.
Variable pytz_timezone : string → option (Z → Z).
Variable DEFAULT_TZ : string.
Variable conn_has_lastrowid : bool.

Lemma occurrence_deadline us now row r :
  occurrence pytz_timezone DEFAULT_TZ us now row = Some r →
  ∃ rule d0 dl,
    recurring r = Some rule ∧ default "" (recurring row) = rule
    ∧ deadline row = Some d0 ∧ deadline r = Some dl
    ∧ task r = task row ∧ owner_id r = owner_id row ∧ priority r = priority row
    ∧ (datetime_valid d0 = true →
       datetime_valid dl = true ∧ utcoffset dl = 0 ∧ instant dl ≤ now
       ∧ ∃ days, period_of rule days ∧ instant dl = instant d0 + days * 86400000000).
Proof.
  unfold occurrence. intros H.
  destruct (_ ≫= pytz_timezone) as [tz|]; simpl in H; [|done].
  destruct (deadline row) as [d0|] eqn:Hd0; simpl in H; [|done].
  destruct (astimezone tz d0) as [last|] eqn:Hlast; simpl in H; [|done].
  destruct (calculate_next_deadline last _) as [next|] eqn:Hnext; simpl in H; [|done].
  destruct (instant next <=? now) eqn:Hdue; [|done].
  destruct (astimezone (fun _ => 0) next) as [utc|] eqn:Hutc; simpl in H; [|done].
  injection H as <-. exists (default "" (recurring row)), d0, utc.
  cbn [recurring deadline task owner_id priority]. repeat split.
  all: destruct (astimezone_Some _ _ _ H Hlast) as (Hvl & Hil & _).
  all: destruct (next_deadline_period _ _ _ Hvl Hnext) as (Hvn & _ & days & Hp & Hin).
  all: destruct (astimezone_Some _ _ _ Hvn Hutc) as (Hvu & Hiu & Hou).
  - exact Hvu.
  - exact Hou.
  - apply Z.leb_le in Hdue. lia.
  - exists days. split; [exact Hp|lia].
Qed.

(** X16.  Every row that a tick of the improved [recurring_task_loop]
    appends is pending and repeats the name, owner, priority and rule
    of a completed recurring task; its deadline is stored in UTC, lies
    1 day (daily), 7 days (weekly) or 28 to 31 days (monthly) after the
    deadline of that task, whatever the zone of the owner, and is
    already due at the time of the tick. *)
Theorem regenerated_rows_are_due (now : Z) (db : database) :
  deadlines_valid (tasks db) →
  ∃ new,
    tasks (recurring_task_loop pytz_timezone DEFAULT_TZ conn_has_lastrowid now db).1
    = tasks db ++ new
    ∧ Forall (regenerated_from (tasks db) now) new.
Proof.
  intros Hvalid.
  destruct (loop_effect pytz_timezone DEFAULT_TZ conn_has_lastrowid now
              (completed_recurring db) (db, [])) as (_ & new & Ht & Hn & Hp).
  fold (recurring_task_loop pytz_timezone DEFAULT_TZ conn_has_lastrowid now db) in Ht.
  simpl in Ht, Hn.
  exists new. split; [exact Ht|].
  apply Forall_forall. intros r Hr.
  split; [by eapply (proj1 (Forall_forall _ _) Hp)|].
  assert (anonymous r ∈ anonymous <$> new) as Ha by (by apply list_elem_of_fmap_2).
  rewrite Hn in Ha. apply list_elem_of_omap in Ha as (row & Hrow & Hocc).
  unfold completed_recurring in Hrow. apply list_elem_of_filter in Hrow as [Hcr Hin].
  destruct (occurrence_deadline _ _ _ _ Hocc)
    as (rule & d0 & dl & Hrr & Hrule & Hd0 & Hdl & Htask & Hown & Hprio & Hrest).
  destruct Hrest as (Hvdl & Hoff & Hdue & days & Hper & Hinst).
  { eapply (proj1 (Forall_forall _ _) Hvalid); done. }
  exists row, rule, d0, dl, days.
  assert (recurring row = Some rule) as Hrec.
  { unfold is_completed_recurring in Hcr. destruct (recurring row) as [x|]; [|done].
    simpl in Hrule. by subst. }
  repeat split; try done.
Qed.

Lemma regenerate_logged_books now row acc :
  let res := regenerate_logged pytz_timezone DEFAULT_TZ conn_has_lastrowid now row acc in
  ∃ new extra evs,
    tasks res.1 = tasks acc.1 ++ new
    ∧ task_id <$> new = seqZ (last_task_id acc.1 + 1) (Z.of_nat (length new))
    ∧ last_task_id res.1 = last_task_id acc.1 + Z.of_nat (length new)
    ∧ task_assignments res.1 = task_assignments acc.1 ++ extra
    ∧ Forall (fun a => last_task_id acc.1 < a.1 ≤ last_task_id res.1) extra
    ∧ res.2 = acc.2 ++ evs
    ∧ (if conn_has_lastrowid then created_ids evs = task_id <$> new
       else extra = [] ∧ created_ids evs = [] ∧ (length new ≤ length evs)%nat).
Proof.
  cbv zeta. unfold regenerate_logged, regenerate.
  destruct (get_timezone DEFAULT_TZ acc.1 (owner_id row) ≫= pytz_timezone) as [tz|];
    cbn [fst snd].
  2:{ exists [], [], [ErrorProcessingTask (task_id row)]. rewrite !app_nil_r.
      repeat split; try done; try (simpl; lia).
      destruct conn_has_lastrowid; [done|]. repeat split; simpl; lia. }
  destruct (deadline row ≫= astimezone tz) as [last|]; cbn [fst snd].
  2:{ exists [], [], [ErrorProcessingTask (task_id row)]. rewrite !app_nil_r.
      repeat split; try done; try (simpl; lia).
      destruct conn_has_lastrowid; [done|]. repeat split; simpl; lia. }
  destruct (calculate_next_deadline last (default "" (recurring row))) as [next|];
    cbn [fst snd].
  2:{ exists [], [], []. rewrite !app_nil_r.
      repeat split; try done; try (simpl; lia).
      destruct conn_has_lastrowid; [done|]. repeat split; simpl; lia. }
  destruct (instant next <=? now); cbn [fst snd].
  2:{ exists [], [], []. rewrite !app_nil_r.
      repeat split; try done; try (simpl; lia).
      destruct conn_has_lastrowid; [done|]. repeat split; simpl; lia. }
  destruct (astimezone (fun _ => 0) next) as [utc|]; cbn [fst snd].
  2:{ exists [], [], [ErrorProcessingTask (task_id row)]. rewrite !app_nil_r.
      repeat split; try done; try (simpl; lia).
      destruct conn_has_lastrowid; [done|]. repeat split; simpl; lia. }
  destruct conn_has_lastrowid; cbn [fst snd].
  - eexists [_], _, [_]. cbn [copy_assignments insert_task tasks task_assignments
                               last_task_id length].
    split; [reflexivity|]. split; [reflexivity|]. split; [lia|].
    split; [reflexivity|]. split; [|done].
    apply Forall_fmap, Forall_forall. intros a _. simpl. lia.
  - eexists [_], [], [_]. cbn [insert_task tasks task_assignments last_task_id length].
    split; [reflexivity|]. split; [reflexivity|]. split; [lia|].
    split; [by rewrite app_nil_r|]. split; [done|]. repeat split; simpl; lia.
Qed.

(** X17.  Bookkeeping of a tick of the improved
    [recurring_task_loop]: the appended rows take the next consecutive
    task ids; assignments are only added, and only under new ids.  When
    the connection has no [lastrowid] attribute no assignment is copied
    and the log holds error lines only, at least one for each appended
    row; when it has one, the "Created recurring task" lines name the
    appended rows, in order. *)
Theorem tick_numbers_rows_and_assignments (now : Z) (db : database) :
  let res := recurring_task_loop pytz_timezone DEFAULT_TZ conn_has_lastrowid now db in
  ∃ new extra,
    tasks res.1 = tasks db ++ new
    ∧ task_id <$> new = seqZ (last_task_id db + 1) (Z.of_nat (length new))
    ∧ last_task_id res.1 = last_task_id db + Z.of_nat (length new)
    ∧ task_assignments res.1 = task_assignments db ++ extra
    ∧ Forall (fun a => last_task_id db < a.1 ≤ last_task_id res.1) extra
    ∧ (if conn_has_lastrowid then created_ids res.2 = task_id <$> new
       else extra = [] ∧ created_ids res.2 = [] ∧ (length new ≤ length res.2)%nat).
Proof.
  unfold recurring_task_loop.
  assert (∀ rows acc,
    let res := foldl (fun acc row =>
                        regenerate_logged pytz_timezone DEFAULT_TZ conn_has_lastrowid
                          now row acc) acc rows in
    ∃ new extra evs,
      tasks res.1 = tasks acc.1 ++ new
      ∧ task_id <$> new = seqZ (last_task_id acc.1 + 1) (Z.of_nat (length new))
      ∧ last_task_id res.1 = last_task_id acc.1 + Z.of_nat (length new)
      ∧ task_assignments res.1 = task_assignments acc.1 ++ extra
      ∧ Forall (fun a => last_task_id acc.1 < a.1 ≤ last_task_id res.1) extra
      ∧ res.2 = acc.2 ++ evs
      ∧ (if conn_has_lastrowid then created_ids evs = task_id <$> new
         else extra = [] ∧ created_ids evs = [] ∧ (length new ≤ length evs)%nat)) as Hloop.
  { induction rows as [|row rows IH]; intros acc; cbn [foldl].
    { exists [], [], []. rewrite !app_nil_r. repeat split; try done; try (simpl; lia).
      destruct conn_has_lastrowid; [done|]. repeat split; simpl; lia. }
    destruct (regenerate_logged_books now row acc)
      as (new1 & extra1 & evs1 & Ht1 & Hid1 & Hl1 & Ha1 & Hx1 & He1 & Hc1).
    set (acc1 := regenerate_logged _ _ _ now row acc) in *.
    destruct (IH acc1) as (new2 & extra2 & evs2 & Ht2 & Hid2 & Hl2 & Ha2 & Hx2 & He2 & Hc2).
    cbn zeta in *.
    set (res := foldl _ acc1 rows) in *.
    exists (new1 ++ new2), (extra1 ++ extra2), (evs1 ++ evs2).
    rewrite Ht2, Ht1, Ha2, Ha1, He2, He1, <- !app_assoc, length_app, Nat2Z.inj_add.
    split; [done|]. split.
    { rewrite fmap_app, Hid1, Hid2, Hl1.
      rewrite (seqZ_app (last_task_id acc.1 + 1)) by lia. do 2 f_equal. lia. }
    split; [lia|]. split; [done|]. split.
    { apply Forall_app. split.
      - eapply Forall_impl; [exact Hx1|]. intros a Ha. simpl in Ha. lia.
      - eapply Forall_impl; [exact Hx2|]. intros a Ha. simpl in Ha. lia. }
    split; [done|].
    destruct conn_has_lastrowid.
    - unfold created_ids in *. by rewrite omap_app, Hc1, Hc2, fmap_app.
    - destruct Hc1 as (-> & Hc1 & Hn1), Hc2 as (-> & Hc2 & Hn2).
      split; [done|]. split.
      + unfold created_ids in *. by rewrite omap_app, Hc1, Hc2.
      + rewrite length_app. lia. }
  destruct (Hloop (completed_recurring db) (db, []))
    as (new & extra & evs & Ht & Hid & Hl & Ha & Hx & He & Hc).
  cbn [fst snd] in *. rewrite app_nil_l in He.
  exists new, extra. rewrite He. done.
Qed.
End SchedulerMore.

Lemma regenerated_rows_are_due_witness :
  ∃ new,
    tasks (recurring_task_loop utc_only "UTC" false jan_5_2024 one_daily_task).1
    = tasks one_daily_task ++ new
    ∧ Forall (regenerated_from (tasks one_daily_task) jan_5_2024) new.
Proof.
  apply (regenerated_rows_are_due utc_only "UTC" false jan_5_2024 one_daily_task).
  repeat constructor. intros d [= <-]. reflexivity.
Defined.

(** ** Text helpers *)

Lemma str_lstrip_split s :
  ∃ p, s = p ++ str_lstrip s ∧ Forall (fun c => isspace c = true) p.
Proof.
  induction s as [|c s (p & Hs & Hp)]; [by exists []|]. simpl.
  destruct (isspace c) eqn:Hc.
  - exists (c :: p). split; [by rewrite Hs at 1|by constructor].
  - by exists [].
Qed.

Lemma str_lstrip_head s c : head (str_lstrip s) = Some c → isspace c = false.
Proof.
  induction s as [|a s IH]; [done|]. simpl. destruct (isspace a) eqn:Ha; [done|].
  by intros [= <-].
Qed.

Lemma str_lstrip_fixed s :
  (∀ c, head s = Some c → isspace c = false) → str_lstrip s = s.
Proof. destruct s as [|a s]; [done|]. intros H. simpl. by rewrite (H a). Qed.

Lemma str_rstrip_split s :
  ∃ p, s = str_rstrip s ++ p ∧ Forall (fun c => isspace c = true) p.
Proof.
  destruct (str_lstrip_split (reverse s)) as (p & Hs & Hp).
  exists (reverse p). split.
  - unfold str_rstrip. rewrite <- reverse_app, <- Hs. by rewrite reverse_involutive.
  - by apply Forall_reverse.
Qed.

Lemma str_strip_trimmed s : trimmed_str (str_strip s).
Proof.
  unfold str_strip. set (u := str_lstrip s).
  assert (∀ c, head u = Some c → isspace c = false) as Hu
    by (intros c; apply str_lstrip_head).
  clearbody u. split.
  - intros c Hc. destruct (str_rstrip_split u) as (p & Hs & _).
    destruct (str_rstrip u) as [|a v]; [done|]. simpl in Hc. injection Hc as ->.
    apply Hu. by rewrite Hs.
  - intros c. unfold str_rstrip. rewrite last_reverse. apply str_lstrip_head.
Qed.

Lemma str_strip_fixed s : trimmed_str s → str_strip s = s.
Proof.
  intros [Hh Hl]. unfold str_strip. rewrite (str_lstrip_fixed s Hh).
  unfold str_rstrip. rewrite str_lstrip_fixed; [by rewrite reverse_involutive|].
  intros c. rewrite head_reverse. apply Hl.
Qed.

Lemma str_strip_idem s : str_strip (str_strip s) = str_strip s.
Proof. apply str_strip_fixed, str_strip_trimmed. Qed.

Lemma str_lstrip_Forall (P : N → Prop) s : Forall P s → Forall P (str_lstrip s).
Proof.
  destruct (str_lstrip_split s) as (p & Hs & _). intros H. rewrite Hs in H.
  by apply Forall_app in H as [_ H].
Qed.

Lemma str_strip_Forall (P : N → Prop) s : Forall P s → Forall P (str_strip s).
Proof.
  intros H. unfold str_strip, str_rstrip.
  by apply Forall_reverse, str_lstrip_Forall, Forall_reverse, str_lstrip_Forall.
Qed.

Lemma str_strip_space c s : isspace c = true → str_strip (c :: s) = str_strip s.
Proof. intros Hc. unfold str_strip. simpl. by rewrite Hc. Qed.

Lemma split_at_cons sep s : ∃ w ws, split_at sep s = w :: ws.
Proof.
  induction s as [|c s (w & ws & IH)]; [by exists [], []|]. simpl.
  destruct (sep c); [by eexists _, _|]. rewrite IH. by eexists _, _.
Qed.

Lemma split_at_pieces sep s :
  Forall (Forall (fun c => sep c = false)) (split_at sep s).
Proof.
  induction s as [|c s IH]; [by repeat constructor|]. simpl.
  destruct (sep c) eqn:Hc; [by constructor|].
  destruct (split_at sep s) as [|w ws]; [by repeat constructor|].
  apply Forall_cons in IH as [Hw Hws]. constructor; [by constructor|done].
Qed.

Lemma split_at_Forall (P : N → Prop) sep s :
  Forall P s → Forall (Forall P) (split_at sep s).
Proof.
  induction 1 as [|c s Hc Hs IH]; [by repeat constructor|]. simpl.
  destruct (sep c); [by constructor|].
  destruct (split_at sep s) as [|w ws]; [by repeat constructor|].
  apply Forall_cons in IH as [Hw Hws]. constructor; [by constructor|done].
Qed.

Lemma split_at_whole sep w :
  Forall (fun c => sep c = false) w → split_at sep w = [w].
Proof.
  induction 1 as [|c w Hc Hw IH]; [done|]. simpl. by rewrite Hc, IH.
Qed.

Lemma split_at_app sep w c rest :
  Forall (fun c => sep c = false) w → sep c = true →
  split_at sep (w ++ c :: rest) = w :: split_at sep rest.
Proof.
  intros Hw Hc. induction Hw as [|a w Ha Hw IH]; simpl; [by rewrite Hc|].
  by rewrite Ha, IH.
Qed.

(** *** Tags *)

Lemma parse_tags_pieces s :
  parse_tags (Some s)
  = str_strip <$> filter (fun tag => str_strip tag ≠ []) (str_split_on 44 s).
Proof. by destruct s. Qed.

Lemma pieces_leading_space c s :
  isspace c = true → (44 =? c)%N = false →
  str_strip <$> filter (fun tag => str_strip tag ≠ []) (str_split_on 44 (c :: s))
  = str_strip <$> filter (fun tag => str_strip tag ≠ []) (str_split_on 44 s).
Proof.
  intros Hc Hsep. unfold str_split_on. cbn [split_at]. rewrite Hsep.
  destruct (split_at_cons (N.eqb 44) s) as (w & ws & ->).
  destruct (decide (str_strip w = [])) as [Hw|Hw].
  - rewrite !filter_cons_False; [done|by rewrite Hw; intros H; apply H..|].
    rewrite str_strip_space by done. rewrite Hw. by intros H; apply H.
  - rewrite !filter_cons_True; [|done|by rewrite str_strip_space].
    by rewrite !fmap_cons, str_strip_space.
Qed.

Lemma clean_tag_no_comma t :
  Forall (fun c => c ≠ 44%N) t → Forall (fun c => (44 =? c)%N = false) t.
Proof.
  intros H. eapply Forall_impl; [exact H|]. intros c Hc. apply N.eqb_neq. congruence.
Qed.

Lemma parse_format_clean l :
  Forall clean_tag l → parse_tags (Some (format_tags l)) = l.
Proof.
  intros Hl. rewrite parse_tags_pieces.
  destruct l as [|t0 l0]; [done|]. unfold format_tags.
  induction Hl as [|t l (Hne & Hcomma & Hstrip) Hl IH]; [done|].
  cbn [str_join]. destruct l as [|t' l'].
  - unfold str_split_on. rewrite split_at_whole by by apply clean_tag_no_comma.
    rewrite filter_cons_True by by rewrite Hstrip.
    by rewrite filter_nil, fmap_cons, Hstrip.
  - unfold str_split_on.
    change ([44; 32]%N ++ str_join [44; 32]%N (t' :: l'))
      with (44%N :: 32%N :: str_join [44; 32]%N (t' :: l')).
    rewrite split_at_app; [|by apply clean_tag_no_comma|done].
    rewrite filter_cons_True by by rewrite Hstrip.
    rewrite fmap_cons, Hstrip. f_equal.
    fold (str_split_on 44 (32%N :: str_join [44; 32]%N (t' :: l'))).
    rewrite pieces_leading_space by done. exact IH.
Qed.

Lemma parse_tags_clean s : Forall clean_tag (parse_tags s).
Proof.
  destruct s as [s|]; [|by constructor]. rewrite parse_tags_pieces.
  apply Forall_fmap, Forall_forall. intros x Hx.
  apply list_elem_of_filter in Hx as [Hne Hx]. split; [done|]. split.
  - apply str_strip_Forall.
    pose proof (split_at_pieces (N.eqb 44) s) as Hp.
    eapply (proj1 (Forall_forall _ _)) in Hp; [|exact Hx].
    eapply Forall_impl; [exact Hp|]. intros c Hc. cbv beta in Hc.
    apply N.eqb_neq in Hc. congruence.
  - apply str_strip_idem.
Qed.

(** X18.  Every tag that [parse_tags] returns is non-empty, contains no
    comma and has no white space at either end; formatting the result
    with [format_tags] and parsing it again gives the same tags. *)
Theorem parse_tags_yields_clean_tags (s : option pystr) :
  Forall clean_tag (parse_tags s)
  ∧ parse_tags (Some (format_tags (parse_tags s))) = parse_tags s.
Proof.
  split; [apply parse_tags_clean|]. apply parse_format_clean, parse_tags_clean.
Qed.

(** X19.  [format_tags] followed by [parse_tags] is the identity on
    every list of tags that are non-empty, comma-free and without white
    space at either end. *)
Theorem format_then_parse_tags (l : list pystr) :
  Forall clean_tag l → parse_tags (Some (format_tags l)) = l.
Proof. apply parse_format_clean. Qed.

Lemma format_then_parse_tags_witness :
  parse_tags (Some (format_tags [[104; 111; 109; 101]; [97; 32; 98]]%N))
  = [[104; 111; 109; 101]; [97; 32; 98]]%N.
Proof.
  apply format_then_parse_tags.
  repeat constructor; try discriminate; intros [=].
Defined.

(** *** [sanitize_input] *)

Lemma str_remove_from_Forall (P : N → Prop) old k s :
  Forall P s → Forall P (str_remove_from old k s).
Proof.
  intros Hs. revert k. induction Hs as [|c s Hc Hs IH]; intros k; [done|].
  cbn [str_remove_from]. destruct k as [|k]; [|apply IH].
  destruct (startswith old (c :: s)); [apply IH|]. by constructor.
Qed.

Lemma str_remove_char c s : Forall (fun x => x ≠ c) (str_remove [c] s).
Proof.
  unfold str_remove. induction s as [|a s IH]; [done|].
  cbn [str_remove_from startswith length Nat.sub andb]. destruct (c =? a)%N eqn:Hca.
  - exact IH.
  - constructor; [|exact IH]. apply N.eqb_neq in Hca. congruence.
Qed.

Lemma str_remove_absent p old s :
  Forall (fun x => x ≠ p) s → str_remove (p :: old) s = s.
Proof.
  unfold str_remove. induction 1 as [|a s Ha Hs IH]; [done|].
  cbn [str_remove_from startswith].
  assert ((p =? a)%N = false) as -> by (apply N.eqb_neq; congruence).
  cbn [andb]. by rewrite IH.
Qed.

Lemma str_split_words s :
  Forall (fun w => w ≠ [] ∧ Forall (fun c => isspace c = false) w) (str_split s).
Proof.
  unfold str_split. apply Forall_forall. intros w Hw.
  apply list_elem_of_filter in Hw as [Hne Hw]. split; [done|].
  by eapply (proj1 (Forall_forall _ _) (split_at_pieces isspace s)).
Qed.

Lemma str_split_Forall (P : N → Prop) s : Forall P s → Forall (Forall P) (str_split s).
Proof.
  intros Hs. unfold str_split. apply Forall_forall. intros w Hw.
  apply list_elem_of_filter in Hw as [_ Hw].
  by eapply (proj1 (Forall_forall _ _) (split_at_Forall P isspace s Hs)).
Qed.

Lemma str_join_Forall (P : N → Prop) sep l :
  Forall P sep → Forall (Forall P) l → Forall P (str_join sep l).
Proof.
  intros Hsep. induction 1 as [|w ws Hw Hws IH]; [done|]. cbn [str_join].
  destruct ws; [done|]. apply Forall_app. split; [done|]. by apply Forall_app.
Qed.

Lemma str_split_join ws :
  Forall (fun w => w ≠ [] ∧ Forall (fun c => isspace c = false) w) ws →
  str_split (str_join [32%N] ws) = ws.
Proof.
  unfold str_split. induction 1 as [|w ws [Hne Hw] Hws IH]; [done|].
  cbn [str_join]. destruct ws as [|w' ws'].
  - rewrite split_at_whole by done. by rewrite filter_cons_True.
  - change ([32%N] ++ str_join [32%N] (w' :: ws'))
      with (32%N :: str_join [32%N] (w' :: ws')).
    rewrite split_at_app by done. rewrite filter_cons_True by done.
    f_equal. exact IH.
Qed.

Lemma str_join_head_last ws :
  Forall (fun w => w ≠ [] ∧ Forall (fun c => isspace c = false) w) ws →
  trimmed_str (str_join [32%N] ws) ∧ (ws ≠ [] → str_join [32%N] ws ≠ []).
Proof.
  induction 1 as [|w ws [Hne Hw] Hws [[IHh IHl] IHne]]; [done|].
  cbn [str_join]. destruct ws as [|w' ws'].
  - split; [|done]. split; intros c Hc.
    + destruct w as [|a w]; [done|]. injection Hc as ->. by apply Forall_cons in Hw as [? _].
    + apply last_Some in Hc as (p & ->). apply Forall_app in Hw as [_ Hw].
      by apply Forall_cons in Hw as [? _].
  - split; [|by destruct w]. split; intros c Hc.
    + destruct w as [|a w]; [done|]. injection Hc as ->. by apply Forall_cons in Hw as [? _].
    + apply IHl. rewrite !last_app in Hc.
      destruct (last (str_join [32%N] (w' :: ws'))) as [x|] eqn:Hx; [done|].
      apply last_None in Hx. by destruct IHne.
Qed.

Lemma removed_in_turn c pats u :
  Forall (fun x => x ≠ c) u ∨ [c] ∈ pats →
  Forall (fun x => x ≠ c) (foldl (fun text old => str_remove old text) u pats).
Proof.
  revert u. induction pats as [|p ps IH]; intros u Hu; cbn [foldl].
  { destruct Hu as [Hu|Hu]; [done|]. by apply elem_of_nil in Hu. }
  apply IH. destruct Hu as [Hu|Hu].
  - left. by apply str_remove_from_Forall.
  - apply elem_of_cons in Hu as [<-|Hu]; [|by right]. left. apply str_remove_char.
Qed.

Lemma sanitize_words text :
  ∃ ws, sanitize_input text = str_join [32%N] ws
        ∧ Forall (fun w => w ≠ [] ∧ Forall (fun c => isspace c = false) w) ws
        ∧ Forall (Forall (fun c => c ∉ sanitize_forbidden)) ws.
Proof.
  destruct text as [[|a s]|]; [by exists []| |by exists []].
  unfold sanitize_input. generalize (a :: s). intros text.
  set (t := foldl (fun text c => str_remove c text) text sanitize_removed).
  exists (str_split t). split; [|split].
  - apply str_strip_fixed, str_join_head_last, str_split_words.
  - apply str_split_words.
  - apply str_split_Forall, Forall_forall. intros c Hc Hin.
    assert ([c] ∈ sanitize_removed) as Hrem.
    { unfold sanitize_forbidden in Hin. unfold sanitize_removed.
      rewrite !elem_of_cons, elem_of_nil in Hin. rewrite !elem_of_cons.
      destruct Hin as [->|[->|[->|[->|[->|[->|[->|[]]]]]]]]; tauto. }
    pose proof (removed_in_turn c sanitize_removed text (or_intror Hrem)) as Habs.
    fold t in Habs. by eapply (proj1 (Forall_forall _ _) Habs).
Qed.

(** X20.  The result of [sanitize_input] contains none of the removed
    characters, no white space other than single spaces between words
    (none at either end, no two in a row), and sanitising it again
    changes nothing. *)
Theorem sanitize_input_normal_form (text : option pystr) :
  let r := sanitize_input text in
  Forall (fun c => c ∉ sanitize_forbidden) r
  ∧ Forall (fun c => isspace c = true → c = 32%N) r
  ∧ str_strip r = r
  ∧ str_join [32%N] (str_split r) = r
  ∧ sanitize_input (Some r) = r.
Proof.
  intros r. destruct (sanitize_words text) as (ws & Hr & Hws & Hforb). fold r in Hr.
  assert (Forall (fun c => c ∉ sanitize_forbidden) r) as Ha.
  { rewrite Hr. apply str_join_Forall; [|done]. repeat constructor.
    unfold sanitize_forbidden. rewrite !elem_of_cons, elem_of_nil.
    intros [?|[?|[?|[?|[?|[?|[?|[]]]]]]]]; discriminate. }
  assert (Forall (fun c => isspace c = true → c = 32%N) r) as Hb.
  { rewrite Hr. apply str_join_Forall; [by repeat constructor|].
    eapply Forall_impl; [exact Hws|]. intros w [_ Hw].
    eapply Forall_impl; [exact Hw|]. intros c Hc. cbv beta in Hc. by rewrite Hc. }
  assert (str_strip r = r) as Hc.
  { rewrite Hr. by apply str_strip_fixed, str_join_head_last. }
  assert (str_join [32%N] (str_split r) = r) as Hd.
  { rewrite Hr at 1. by rewrite str_split_join. }
  split; [done|]. split; [done|]. split; [done|]. split; [done|].
  clearbody r. destruct r as [|a s] eqn:Er; [done|]. rewrite <- Er in *.
  assert (sanitize_input (Some r)
          = str_strip (str_join [32%N] (str_split
              (foldl (fun text c => str_remove c text) r sanitize_removed)))) as ->
    by (by rewrite Er).
  assert (∀ p, p ∈ sanitize_forbidden ∨ p = 10%N → Forall (fun x => x ≠ p) r) as Habs.
  { intros p Hp. apply Forall_forall. intros x Hx ->. destruct Hp as [Hp| ->].
    - by eapply (proj1 (Forall_forall _ _) Ha).
    - eapply (proj1 (Forall_forall _ _)) in Hb; [|exact Hx]. by specialize (Hb eq_refl). }
  unfold sanitize_removed. cbn [foldl].
  repeat (rewrite (str_remove_absent _ _ r)
            by (apply Habs; first [by right
                                  |left; unfold sanitize_forbidden;
                                   rewrite !elem_of_cons; tauto])).
  by rewrite Hd, Hc.
Qed.
